(** * The HTTP cache coordination core (net/http/http_cache.cc)

    A shallow embedding of [HttpCache]: the active-entry table with its
    reader/writer lock, the per-key pending operations, the backend-creation
    gate, the doomed-entry set and the cache-key generator, followed by the
    properties of the design document that concern them.

    Conventions of the embedding.
    - Heap objects ([ActiveEntry], [PendingOp]) live in two stores indexed by
      their address; a pointer is an index, [None] is the null pointer.
    - Every member function is a computation in the monad [M]: it reads and
      writes the cache, emits the calls it makes on its collaborators
      (transaction callbacks, the disk backend) as a list of [Event]s, and
      yields [None] where the C++ has no defined behaviour (a null or dangling
      pointer is dereferenced, [erase(end())]).
    - [DCHECK]s are compiled out, as in a release build.
    - A completion callback may re-enter the cache.  What the callee does to
      the cache is the section variable [react]. *)

From stdpp Require Import base option list gmap strings pretty.
From Stdlib Require Import ZArith Lia.

Local Open Scope Z_scope.

(** ** Status codes *)

(** Modelled from the spec: the status codes of net/base/net_errors.h, which is
    not among the sources.  The core only compares them with each other. *)
Definition OK : Z := 0.
Definition ERR_IO_PENDING : Z := -1.
Definition ERR_FAILED : Z := -2.
Definition ERR_CACHE_CREATE_FAILURE : Z := -405.
Definition ERR_CACHE_RACE : Z := -406.

(** ** Transactions (external) *)

(** A transaction is known to the core by its address only. *)
Definition Transaction := nat.

Module TransactionMode.
(** Modelled from the spec: the bit flags of [Transaction::Mode], declared
    in http_cache_transaction.h, which is not among the sources. *)
Definition NONE : Z := 0.
Definition READ_META : Z := 1.
Definition READ_DATA : Z := 2.
Definition READ : Z := Z.lor READ_META READ_DATA.
Definition WRITE : Z := 4.
Definition READ_WRITE : Z := Z.lor READ WRITE.
Definition UPDATE : Z := Z.lor READ_META WRITE.
End TransactionMode.

(** [mode & Transaction::WRITE], as a truth value. *)
Definition wants_write (m : Z) : bool :=
  negb (Z.land m TransactionMode.WRITE =? 0).

(** ** Data model *)

(** The test [if (p)] on a pointer. *)
Definition non_null {A} (p : option A) : bool :=
  match p with Some _ => true | None => false end.

(** A handle on an entry of the disk backend; [de_key] is what
    [disk_cache::Entry::GetKey] answers. *)
Record DiskEntry := mkDiskEntry { de_id : nat; de_key : string }.

Definition Backend := nat.
Definition EntryId := nat.     (* ActiveEntry*  *)
Definition OpId := nat.        (* PendingOp*    *)
Definition EntrySlot := nat.   (* ActiveEntry** *)
Definition BackendSlot := nat. (* disk_cache::Backend** *)
Definition UserCallback := nat. (* CompletionCallback* of an embedder *)

Record ActiveEntry := mkActiveEntry {
  disk_entry : option DiskEntry;
  writer : option Transaction;
  readers : list Transaction;
  pending_queue : list Transaction;
  will_process_pending_queue : bool;
  doomed : bool
}.

(** [ActiveEntry::ActiveEntry(disk_cache::Entry* e)] *)
Definition new_ActiveEntry (e : DiskEntry) : ActiveEntry :=
  mkActiveEntry (Some e) None [] [] false false.

Definition set_writer (w : option Transaction) (e : ActiveEntry) :=
  mkActiveEntry (disk_entry e) w (readers e) (pending_queue e)
                (will_process_pending_queue e) (doomed e).
Definition set_readers (r : list Transaction) (e : ActiveEntry) :=
  mkActiveEntry (disk_entry e) (writer e) r (pending_queue e)
                (will_process_pending_queue e) (doomed e).
Definition set_pending_queue (q : list Transaction) (e : ActiveEntry) :=
  mkActiveEntry (disk_entry e) (writer e) (readers e) q
                (will_process_pending_queue e) (doomed e).
Definition set_will_process (b : bool) (e : ActiveEntry) :=
  mkActiveEntry (disk_entry e) (writer e) (readers e) (pending_queue e)
                b (doomed e).
Definition set_doomed (b : bool) (e : ActiveEntry) :=
  mkActiveEntry (disk_entry e) (writer e) (readers e) (pending_queue e)
                (will_process_pending_queue e) b.

Inductive WorkItemOperation :=
| WI_CREATE_BACKEND
| WI_OPEN_ENTRY
| WI_CREATE_ENTRY
| WI_DOOM_ENTRY.

Global Instance WorkItemOperation_eq_dec : EqDecision WorkItemOperation.
Proof. solve_decision. Defined.

Record WorkItem := mkWorkItem {
  operation_ : WorkItemOperation;
  trans_ : option Transaction;
  entry_ : option EntrySlot;
  callback_ : option UserCallback;
  backend_ : option BackendSlot
}.

Definition ClearTransaction (w : WorkItem) :=
  mkWorkItem (operation_ w) None (entry_ w) (callback_ w) (backend_ w).
Definition ClearEntry (w : WorkItem) :=
  mkWorkItem (operation_ w) (trans_ w) None (callback_ w) (backend_ w).
Definition ClearCallback (w : WorkItem) :=
  mkWorkItem (operation_ w) (trans_ w) (entry_ w) None (backend_ w).
Definition Matches (w : WorkItem) (t : Transaction) : bool :=
  bool_decide (trans_ w = Some t).
Definition IsValid (w : WorkItem) : bool :=
  non_null (trans_ w) || non_null (entry_ w) || non_null (callback_ w).

Record PendingOp := mkPendingOp {
  op_disk_entry : option DiskEntry;
  op_backend : option Backend;
  op_writer : option WorkItem;
  op_callback : bool;               (* a BackendCallback is bound to the op *)
  op_pending_queue : list WorkItem
}.

(** [PendingOp::PendingOp()] *)
Definition new_PendingOp : PendingOp := mkPendingOp None None None false [].

Definition set_op_disk_entry (d : option DiskEntry) (p : PendingOp) :=
  mkPendingOp d (op_backend p) (op_writer p) (op_callback p) (op_pending_queue p).
Definition set_op_backend (b : option Backend) (p : PendingOp) :=
  mkPendingOp (op_disk_entry p) b (op_writer p) (op_callback p) (op_pending_queue p).
Definition set_op_writer (w : option WorkItem) (p : PendingOp) :=
  mkPendingOp (op_disk_entry p) (op_backend p) w (op_callback p) (op_pending_queue p).
Definition set_op_callback (c : bool) (p : PendingOp) :=
  mkPendingOp (op_disk_entry p) (op_backend p) (op_writer p) c (op_pending_queue p).
Definition set_op_pending_queue (q : list WorkItem) (p : PendingOp) :=
  mkPendingOp (op_disk_entry p) (op_backend p) (op_writer p) (op_callback p) q.

(** [HttpCache::Mode] *)
Inductive Mode := NORMAL | RECORD | PLAYBACK | DISABLE.

Global Instance Mode_eq_dec : EqDecision Mode.
Proof. solve_decision. Defined.

(** Tasks posted to the message loop through [task_factory_]. *)
Inductive Task :=
| TaskOnProcessPendingQueue (entry : EntryId)
| TaskOnBackendCreated (result : Z) (pending_op : OpId).

Record HttpCache := mkHttpCache {
  disk_cache_ : option Backend;
  backend_factory_ : bool;          (* the factory pointer is non-null *)
  building_backend_ : bool;
  mode_ : Mode;
  playback_cache_map_ : option (gmap string Z);
  active_entries_ : gmap string EntryId;
  doomed_entries_ : list EntryId;   (* std::set: ascending, no duplicates *)
  pending_ops_ : gmap string OpId;
  (* the stores behind the pointers *)
  entries : gmap EntryId ActiveEntry;
  ops : gmap OpId PendingOp;
  next_entry : EntryId;
  next_op : OpId;
  (* the message loop *)
  posted : list Task
}.

Definition with_disk_cache (v : option Backend) (c : HttpCache) :=
  mkHttpCache v (backend_factory_ c) (building_backend_ c) (mode_ c)
    (playback_cache_map_ c) (active_entries_ c) (doomed_entries_ c)
    (pending_ops_ c) (entries c) (ops c) (next_entry c) (next_op c) (posted c).
Definition with_backend_factory (v : bool) (c : HttpCache) :=
  mkHttpCache (disk_cache_ c) v (building_backend_ c) (mode_ c)
    (playback_cache_map_ c) (active_entries_ c) (doomed_entries_ c)
    (pending_ops_ c) (entries c) (ops c) (next_entry c) (next_op c) (posted c).
Definition with_building_backend (v : bool) (c : HttpCache) :=
  mkHttpCache (disk_cache_ c) (backend_factory_ c) v (mode_ c)
    (playback_cache_map_ c) (active_entries_ c) (doomed_entries_ c)
    (pending_ops_ c) (entries c) (ops c) (next_entry c) (next_op c) (posted c).
Definition with_playback_cache_map (v : option (gmap string Z)) (c : HttpCache) :=
  mkHttpCache (disk_cache_ c) (backend_factory_ c) (building_backend_ c) (mode_ c)
    v (active_entries_ c) (doomed_entries_ c)
    (pending_ops_ c) (entries c) (ops c) (next_entry c) (next_op c) (posted c).
Definition with_active_entries (v : gmap string EntryId) (c : HttpCache) :=
  mkHttpCache (disk_cache_ c) (backend_factory_ c) (building_backend_ c) (mode_ c)
    (playback_cache_map_ c) v (doomed_entries_ c)
    (pending_ops_ c) (entries c) (ops c) (next_entry c) (next_op c) (posted c).
Definition with_doomed_entries (v : list EntryId) (c : HttpCache) :=
  mkHttpCache (disk_cache_ c) (backend_factory_ c) (building_backend_ c) (mode_ c)
    (playback_cache_map_ c) (active_entries_ c) v
    (pending_ops_ c) (entries c) (ops c) (next_entry c) (next_op c) (posted c).
Definition with_pending_ops (v : gmap string OpId) (c : HttpCache) :=
  mkHttpCache (disk_cache_ c) (backend_factory_ c) (building_backend_ c) (mode_ c)
    (playback_cache_map_ c) (active_entries_ c) (doomed_entries_ c)
    v (entries c) (ops c) (next_entry c) (next_op c) (posted c).
Definition with_entries (v : gmap EntryId ActiveEntry) (c : HttpCache) :=
  mkHttpCache (disk_cache_ c) (backend_factory_ c) (building_backend_ c) (mode_ c)
    (playback_cache_map_ c) (active_entries_ c) (doomed_entries_ c)
    (pending_ops_ c) v (ops c) (next_entry c) (next_op c) (posted c).
Definition with_ops (v : gmap OpId PendingOp) (c : HttpCache) :=
  mkHttpCache (disk_cache_ c) (backend_factory_ c) (building_backend_ c) (mode_ c)
    (playback_cache_map_ c) (active_entries_ c) (doomed_entries_ c)
    (pending_ops_ c) (entries c) v (next_entry c) (next_op c) (posted c).
Definition with_next_entry (v : EntryId) (c : HttpCache) :=
  mkHttpCache (disk_cache_ c) (backend_factory_ c) (building_backend_ c) (mode_ c)
    (playback_cache_map_ c) (active_entries_ c) (doomed_entries_ c)
    (pending_ops_ c) (entries c) (ops c) v (next_op c) (posted c).
Definition with_next_op (v : OpId) (c : HttpCache) :=
  mkHttpCache (disk_cache_ c) (backend_factory_ c) (building_backend_ c) (mode_ c)
    (playback_cache_map_ c) (active_entries_ c) (doomed_entries_ c)
    (pending_ops_ c) (entries c) (ops c) (next_entry c) v (posted c).
Definition with_posted (v : list Task) (c : HttpCache) :=
  mkHttpCache (disk_cache_ c) (backend_factory_ c) (building_backend_ c) (mode_ c)
    (playback_cache_map_ c) (active_entries_ c) (doomed_entries_ c)
    (pending_ops_ c) (entries c) (ops c) (next_entry c) (next_op c) v.

(** [HttpCache::HttpCache]: no backend yet, mode NORMAL, every table empty. *)
Definition new_HttpCache (factory : bool) : HttpCache :=
  mkHttpCache None factory false NORMAL None ∅ [] ∅ ∅ ∅ 0%nat 0%nat [].

(** ** Calls on the collaborators *)

Inductive Event :=
| EvRun (t : Transaction) (result : Z)
    (* trans->io_callback()->Run(result) *)
| EvSetEntry (slot : EntrySlot) (entry : option EntryId)
    (* *entry_ = entry *)
| EvUserRun (cb : UserCallback) (result : Z)
    (* callback_->Run(result) *)
| EvSetBackend (slot : BackendSlot) (backend : option Backend)
    (* *backend_ = backend *)
| EvAddTruncatedFlag (t : Transaction)
| EvDoom (d : DiskEntry)
| EvClose (d : DiskEntry)
| EvBackendOpenEntry (key : string) (op : OpId)
| EvBackendCreateEntry (key : string) (op : OpId)
| EvBackendDoomEntry (key : string) (op : OpId)
| EvFactoryCreateBackend (op : OpId).

(** ** The monad of member functions *)

Definition M (A : Type) : Type := HttpCache -> option (A * HttpCache * list Event).

Definition ret {A} (a : A) : M A := fun c => Some (a, c, []).

Definition bind {A B} (m : M A) (f : A -> M B) : M B := fun c =>
  match m c with
  | None => None
  | Some (a, c1, ev1) =>
      match f a c1 with
      | None => None
      | Some (b, c2, ev2) => Some (b, c2, ev1 ++ ev2)
      end
  end.

(** Undefined behaviour. *)
Definition undefined {A} : M A := fun _ => None.

Definition get : M HttpCache := fun c => Some (c, c, []).
Definition modify (f : HttpCache -> HttpCache) : M unit := fun c => Some (tt, f c, []).
Definition emit (e : Event) : M unit := fun c => Some (tt, c, [e]).

(** Dereference a pointer that must not be null. *)
Definition deref {A} (p : option A) : M A :=
  match p with Some a => ret a | None => undefined end.

Declare Scope cache_scope.
Delimit Scope cache_scope with cache.
Notation "x <- m ; k" := (bind m (fun x => k))
  (at level 20, m at level 100, k at level 200, only parsing) : cache_scope.
Notation "m ;; k" := (bind m (fun _ => k))
  (at level 100, k at level 200, only parsing, right associativity) : cache_scope.
Local Open Scope cache_scope.

Definition when (b : bool) (m : M unit) : M unit := if b then m else ret tt.

(** [entry->...]: the entry must be alive. *)
Definition load_entry (e : EntryId) : M ActiveEntry :=
  c <- get; deref (entries c !! e).
Definition store_entry (e : EntryId) (v : ActiveEntry) : M unit :=
  modify (fun c => with_entries (<[e := v]> (entries c)) c).
Definition update_entry (e : EntryId) (f : ActiveEntry -> ActiveEntry) : M unit :=
  v <- load_entry e; store_entry e (f v).

Definition load_op (p : OpId) : M PendingOp :=
  c <- get; deref (ops c !! p).
Definition store_op (p : OpId) (v : PendingOp) : M unit :=
  modify (fun c => with_ops (<[p := v]> (ops c)) c).
Definition update_op (p : OpId) (f : PendingOp -> PendingOp) : M unit :=
  v <- load_op p; store_op p (f v).

(** [MessageLoop::current()->PostTask] *)
Definition PostTask (t : Task) : M unit :=
  modify (fun c => with_posted (posted c ++ [t]) c).

(** The default-constructed [std::string]; it is also the key under which the
    creation of the backend is registered. *)
Definition empty_key : string := EmptyString.

(** ** Containers of the standard library *)

(** [std::set<ActiveEntry*>::insert]: kept ascending by address. *)
Fixpoint set_insert (x : nat) (l : list nat) : list nat :=
  match l with
  | [] => [x]
  | y :: l' =>
      if decide (x = y) then l
      else if decide (x < y)%nat then x :: l
      else y :: set_insert x l'
  end.

(** [erase] of the position [std::find] returns, when it is not [end()]. *)
Fixpoint erase_first (x : nat) (l : list nat) : list nat :=
  match l with
  | [] => []
  | y :: l' => if decide (x = y) then l' else y :: erase_first x l'
  end.

(** The first key, in iteration order, whose mapped pointer is [v]. *)
Definition find_by_value (v : nat) (m : gmap string nat) : option string :=
  fst <$> List.find (fun kv => bool_decide (snd kv = v)) (map_to_list m).
Global Arguments find_by_value : simpl never.

(** The first queued work item of a transaction is erased; [None] when no
    item matches. *)
Fixpoint erase_matching (t : Transaction) (q : list WorkItem) : option (list WorkItem) :=
  match q with
  | [] => None
  | w :: q' =>
      if Matches w t then Some q'
      else cons w <$> erase_matching t q'
  end.

(** ** Requests and numbers *)

(** The fields of [HttpRequestInfo] the cache reads: the URL, the method and,
    when the request carries upload data, its identifier. *)
Record HttpRequestInfo := mkHttpRequestInfo {
  request_url : string;
  request_method : string;
  upload_data : option Z
}.

(** [int] addition, with the wrap-around of a 32-bit machine written out. *)
Definition int_add (a b : Z) : Z :=
  (a + b + 2 ^ 31) mod 2 ^ 32 - 2 ^ 31.

(** Modelled from the spec: [base::IntToString] and the [PRId64] conversion of
    [base::StringPrintf] (base/string_number_conversions, base/stringprintf,
    not among the sources) print a number in decimal, with a minus sign when it
    is negative. *)
Definition IntToString (n : Z) : string := pretty n.
Definition Int64ToString (n : Z) : string := pretty n.

(** ** Proof automation *)

(** Closes the side conditions of a case analysis on the fields of an entry. *)
Ltac settle_cases :=
  repeat split; intros; try done; try congruence;
  try (case_bool_decide; intuition congruence);
  try (intuition congruence).

(** Drops the parameters of the section a statement does not mention. *)
Ltac clear_unused :=
  repeat match goal with x : _ |- _ => clear x end.

(** Unfolds the plumbing of the monad. *)
Ltac run_monad :=
  cbv beta iota zeta delta
    [bind ret get modify emit deref undefined when PostTask
     load_entry store_entry update_entry load_op store_op update_op];
  simpl.

(** Reads back what has just been stored. *)
Ltac run_lookups :=
  repeat (progress (rewrite ?lookup_insert_eq; simpl)).

(** Turns the tests a branch was taken under into facts about the entry. *)
Ltac use_tests :=
  repeat match goal with
  | H : (_ || _) = false |- _ => apply orb_false_elim in H; destruct H
  | H : (_ && _) = true |- _ => apply andb_true_iff in H; destruct H
  | H : negb _ = true |- _ => apply negb_true_iff in H
  | H : negb _ = false |- _ => apply negb_false_iff in H
  | H : bool_decide _ = true |- _ => apply bool_decide_eq_true in H
  | H : bool_decide _ = false |- _ => apply bool_decide_eq_false in H
  end.

(** ** The cache *)

Section Core.

(** [trans->mode()] and [trans->key()]. *)
Variable trans_mode : Transaction -> Z.
Variable trans_key : Transaction -> string.
(** The answer of [trans->AddTruncatedFlag()]. *)
Variable AddTruncatedFlag : Transaction -> bool.
(** What the callee of a completion callback does to the cache before it
    returns. *)
Variable react : Event -> HttpCache -> HttpCache.

(** [trans->io_callback()->Run(result)] *)
Definition Run (t : Transaction) (result : Z) : M unit :=
  emit (EvRun t result) ;; modify (react (EvRun t result)).

(** [callback_->Run(result)] on a callback of the embedder. *)
Definition UserRun (cb : UserCallback) (result : Z) : M unit :=
  emit (EvUserRun cb result) ;; modify (react (EvUserRun cb result)).

(** [WorkItem::NotifyTransaction] *)
Definition NotifyTransaction (w : WorkItem) (result : Z) (entry : option EntryId) : M unit :=
  match entry_ w with
  | Some slot => emit (EvSetEntry slot entry)
  | None => ret tt
  end ;;
  match trans_ w with
  | Some t => Run t result
  | None => ret tt
  end.

(** [WorkItem::DoCallback] *)
Definition DoCallback (w : WorkItem) (result : Z) (backend : option Backend) : M bool :=
  match backend_ w with
  | Some slot => emit (EvSetBackend slot backend)
  | None => ret tt
  end ;;
  match callback_ w with
  | Some cb => UserRun cb result ;; ret true
  | None => ret false
  end.

(** *** Active entries *)

Definition FindActiveEntry (key : string) : M (option EntryId) :=
  c <- get; ret (active_entries_ c !! key).

Definition ActivateEntry (key : string) (d : DiskEntry) : M EntryId :=
  c <- get;
  let entry := next_entry c in
  modify (fun c => with_next_entry (S entry)
                     (with_entries (<[entry := new_ActiveEntry d]> (entries c)) c)) ;;
  modify (fun c => with_active_entries (<[key := entry]> (active_entries_ c)) c) ;;
  ret entry.

(** [delete entry]: the destructor closes the disk entry. *)
Definition delete_entry (entry : EntryId) : M unit :=
  e <- load_entry entry;
  match disk_entry e with
  | Some d => emit (EvClose d)
  | None => ret tt
  end ;;
  modify (fun c => with_entries (delete entry (entries c)) c).

Definition FinalizeDoomedEntry (entry : EntryId) : M unit :=
  c <- get;
  if bool_decide (entry ∈ doomed_entries_ c) then
    modify (fun c => with_doomed_entries (erase_first entry (doomed_entries_ c)) c) ;;
    delete_entry entry
  else undefined.

Definition SlowDeactivateEntry (entry : EntryId) : M unit :=
  c <- get;
  match find_by_value entry (active_entries_ c) with
  | Some k =>
      modify (fun c => with_active_entries (delete k (active_entries_ c)) c) ;;
      delete_entry entry
  | None => ret tt
  end.

Definition DeactivateEntry (entry : EntryId) : M unit :=
  e <- load_entry entry;
  d <- deref (disk_entry e);
  let key := de_key d in
  if bool_decide (key = empty_key) then SlowDeactivateEntry entry
  else
    c <- get;
    match active_entries_ c !! key with
    | None => undefined
    | Some _ =>
        modify (fun c => with_active_entries (delete key (active_entries_ c)) c) ;;
        delete_entry entry
    end.

Definition DestroyEntry (entry : EntryId) : M unit :=
  e <- load_entry entry;
  if doomed e then FinalizeDoomedEntry entry else DeactivateEntry entry.

(** *** Pending operations *)

Definition GetPendingOp (key : string) : M OpId :=
  c <- get;
  match pending_ops_ c !! key with
  | Some p => ret p
  | None =>
      let p := next_op c in
      modify (fun c => with_next_op (S p) (with_ops (<[p := new_PendingOp]> (ops c)) c)) ;;
      modify (fun c => with_pending_ops (<[key := p]> (pending_ops_ c)) c) ;;
      ret p
  end.

Definition DeletePendingOp (pending_op : OpId) : M unit :=
  p <- load_op pending_op;
  let key := match op_disk_entry p with Some d => de_key d | None => empty_key end in
  c <- get;
  (if negb (bool_decide (key = empty_key)) then
     match pending_ops_ c !! key with
     | None => undefined
     | Some _ => modify (fun c => with_pending_ops (delete key (pending_ops_ c)) c)
     end
   else
     match find_by_value pending_op (pending_ops_ c) with
     | Some k => modify (fun c => with_pending_ops (delete k (pending_ops_ c)) c)
     | None => ret tt
     end) ;;
  modify (fun c => with_ops (delete pending_op (ops c)) c).

(** *** The reader/writer lock of an entry *)

Definition ProcessPendingQueue (entry : EntryId) : M unit :=
  e <- load_entry entry;
  if will_process_pending_queue e then ret tt
  else
    store_entry entry (set_will_process true e) ;;
    PostTask (TaskOnProcessPendingQueue entry).

Definition AddTransactionToEntry (entry : EntryId) (trans : Transaction) : M Z :=
  e <- load_entry entry;
  let queue :=
    store_entry entry (set_pending_queue (pending_queue e ++ [trans]) e) ;;
    ret ERR_IO_PENDING in
  let granted :=
    e' <- load_entry entry;
    when (negb (non_null (writer e')) && negb (bool_decide (pending_queue e' = [])))
         (ProcessPendingQueue entry) ;;
    ret OK in
  if non_null (writer e) || will_process_pending_queue e then queue
  else if wants_write (trans_mode trans) then
    if bool_decide (readers e = []) then
      store_entry entry (set_writer (Some trans) e) ;; granted
    else queue
  else
    store_entry entry (set_readers (readers e ++ [trans]) e) ;; granted.

(** The loop that signals the swapped-out queue. *)
Fixpoint run_all (q : list Transaction) (result : Z) : M unit :=
  match q with
  | [] => ret tt
  | t :: q' => Run t result ;; run_all q' result
  end.

Definition DoneWritingToEntry (entry : EntryId) (success : bool) : M unit :=
  update_entry entry (set_writer None) ;;
  if success then ProcessPendingQueue entry
  else
    e <- load_entry entry;
    let pending := pending_queue e in
    store_entry entry (set_pending_queue [] e) ;;
    d <- deref (disk_entry e);
    emit (EvDoom d) ;;
    DestroyEntry entry ;;
    run_all pending ERR_CACHE_RACE.

Definition DoneReadingFromEntry (entry : EntryId) (trans : Transaction) : M unit :=
  e <- load_entry entry;
  if bool_decide (trans ∈ readers e) then
    store_entry entry (set_readers (erase_first trans (readers e)) e) ;;
    ProcessPendingQueue entry
  else undefined.

Definition DoneWithEntry (entry : EntryId) (trans : Transaction) (cancel : bool) : M unit :=
  e <- load_entry entry;
  if will_process_pending_queue e && bool_decide (readers e = []) then ret tt
  else if non_null (writer e) then
    success <- (if cancel then
                  emit (EvAddTruncatedFlag trans) ;; ret (AddTruncatedFlag trans)
                else ret false);
    DoneWritingToEntry entry success
  else DoneReadingFromEntry entry trans.

(** The writer is required ([DCHECK(entry->writer)]): [readers] holds
    transactions, not null pointers. *)
Definition ConvertWriterToReader (entry : EntryId) : M unit :=
  e <- load_entry entry;
  trans <- deref (writer e);
  store_entry entry (set_readers (readers e ++ [trans]) (set_writer None e)) ;;
  ProcessPendingQueue entry.

Definition OnProcessPendingQueue (entry : EntryId) : M unit :=
  update_entry entry (set_will_process false) ;;
  e <- load_entry entry;
  match pending_queue e with
  | [] => when (bool_decide (readers e = [])) (DestroyEntry entry)
  | next :: rest =>
      if wants_write (trans_mode next) && negb (bool_decide (readers e = [])) then ret tt
      else
        store_entry entry (set_pending_queue rest e) ;;
        rv <- AddTransactionToEntry entry next;
        when (negb (rv =? ERR_IO_PENDING)) (Run next rv)
  end.

(** *** Cancellation of a waiting transaction *)

Definition RemovePendingTransactionFromEntry (entry : EntryId) (trans : Transaction) : M bool :=
  e <- load_entry entry;
  if bool_decide (trans ∈ pending_queue e) then
    store_entry entry (set_pending_queue (erase_first trans (pending_queue e)) e) ;;
    ret true
  else ret false.

Definition RemovePendingTransactionFromPendingOp (pending_op : OpId) (trans : Transaction) : M bool :=
  p <- load_op pending_op;
  w <- deref (op_writer p);
  if Matches w trans then
    store_op pending_op (set_op_writer (Some (ClearEntry (ClearTransaction w))) p) ;;
    ret true
  else
    match erase_matching trans (op_pending_queue p) with
    | Some q => store_op pending_op (set_op_pending_queue q p) ;; ret true
    | None => ret false
    end.

(** The loop over [doomed_entries_]. *)
Fixpoint remove_from_doomed (ks : list EntryId) (trans : Transaction) (found : bool) : M bool :=
  match ks with
  | [] => ret found
  | k :: ks' =>
      if found then ret found
      else
        found' <- RemovePendingTransactionFromEntry k trans;
        remove_from_doomed ks' trans found'
  end.

Definition RemovePendingTransaction (trans : Transaction) : M unit :=
  c <- get;
  found <- match active_entries_ c !! trans_key trans with
           | Some i => RemovePendingTransactionFromEntry i trans
           | None => ret false
           end;
  if found then ret tt
  else
    c <- get;
    found <- (if building_backend_ c then
                match pending_ops_ c !! empty_key with
                | Some j => RemovePendingTransactionFromPendingOp j trans
                | None => ret false
                end
              else ret false);
    if found then ret tt
    else
      c <- get;
      found <- match pending_ops_ c !! trans_key trans with
               | Some j => RemovePendingTransactionFromPendingOp j trans
               | None => ret false
               end;
      if found then ret tt
      else
        c <- get;
        remove_from_doomed (doomed_entries_ c) trans false ;;
        ret tt.

(** *** Completion of a backend call *)

Definition OnBackendCreated (result : Z) (pending_op : OpId) : M unit :=
  p <- load_op pending_op;
  item <- deref (op_writer p);
  store_op pending_op (set_op_callback false p) ;;
  let backend := op_backend p in
  c <- get;
  when (backend_factory_ c)
       (modify (with_backend_factory false) ;;
        when (result =? OK) (modify (with_disk_cache backend))) ;;
  p <- load_op pending_op;
  match op_pending_queue p with
  | pending_item :: rest =>
      store_op pending_op (set_op_writer (Some pending_item) (set_op_pending_queue rest p)) ;;
      PostTask (TaskOnBackendCreated result pending_op)
  | [] =>
      modify (with_building_backend false) ;;
      DeletePendingOp pending_op
  end ;;
  called <- DoCallback item result backend;
  when (negb called) (NotifyTransaction item result None).

(** One turn of the loop over the queued items: [fail_requests] and [entry]
    are the two locals it carries from one item to the next. *)
Definition notify_queued (op : WorkItemOperation) (result : Z) (key : string)
    (item : WorkItem) (fail_requests : bool) (entry : option EntryId)
    : M (bool * option EntryId) :=
  st <- (if bool_decide (operation_ item = WI_DOOM_ENTRY) then ret (true, entry)
         else if result =? OK then
           found <- FindActiveEntry key;
           ret (if non_null found then fail_requests else true, found)
         else ret (fail_requests, entry));
  let fail_requests := fst st in
  let entry := snd st in
  if fail_requests then
    NotifyTransaction item ERR_CACHE_RACE None ;; ret (fail_requests, entry)
  else if bool_decide (operation_ item = WI_CREATE_ENTRY) then
    if result =? OK then
      NotifyTransaction item ERR_CACHE_CREATE_FAILURE None ;; ret (fail_requests, entry)
    else if negb (bool_decide (op = WI_CREATE_ENTRY)) then
      NotifyTransaction item ERR_CACHE_RACE None ;; ret (true, entry)
    else
      NotifyTransaction item result entry ;; ret (fail_requests, entry)
  else
    if bool_decide (op = WI_CREATE_ENTRY) && negb (result =? OK) then
      NotifyTransaction item ERR_CACHE_RACE None ;; ret (true, entry)
    else
      NotifyTransaction item result entry ;; ret (fail_requests, entry).

Fixpoint notify_pending_items (op : WorkItemOperation) (result : Z) (key : string)
    (pending_items : list WorkItem) (fail_requests : bool) (entry : option EntryId)
    : M unit :=
  match pending_items with
  | [] => ret tt
  | item :: rest =>
      st <- notify_queued op result key item fail_requests entry;
      notify_pending_items op result key rest (fst st) (snd st)
  end.

(** What [OnIOComplete] settles before it notifies anybody. *)
Record Completion := mkCompletion {
  lead_op : WorkItemOperation;
  lead_item : WorkItem;
  lead_entry : option EntryId;
  lead_key : string;
  lead_fail : bool;
  snapshot : list WorkItem
}.

(** The block [if (result == OK) { ... }] of [OnIOComplete]: it settles the
    locals [fail_requests], [entry] and [key]. *)
Definition OnIOComplete_outcome (result : Z) (pending_op : OpId) (item : WorkItem)
    : M (bool * option EntryId * string) :=
  let op := operation_ item in
  if result =? OK then
    if bool_decide (op = WI_DOOM_ENTRY) then ret (true, None, empty_key)
    else
      p <- load_op pending_op;
      d <- deref (op_disk_entry p);
      if IsValid item then
        entry <- ActivateEntry (de_key d) d;
        ret (false, Some entry, de_key d)
      else
        when (bool_decide (op = WI_CREATE_ENTRY)) (emit (EvDoom d)) ;;
        emit (EvClose d) ;;
        store_op pending_op (set_op_disk_entry None p) ;;
        ret (true, None, empty_key)
  else ret (false, None, empty_key).

(** [OnIOComplete] down to [DeletePendingOp(pending_op)], for an operation
    on an entry. *)
Definition OnIOComplete_settle (result : Z) (pending_op : OpId) (item : WorkItem)
    : M Completion :=
  st <- OnIOComplete_outcome result pending_op item;
  p <- load_op pending_op;
  let pending_items := op_pending_queue p in
  store_op pending_op (set_op_pending_queue [] p) ;;
  DeletePendingOp pending_op ;;
  ret (mkCompletion (operation_ item) item (snd (fst st)) (snd st) (fst (fst st))
                    pending_items).

(** [OnIOComplete] from [item->NotifyTransaction(result, entry)] on. *)
Definition OnIOComplete_notify (result : Z) (k : Completion) : M unit :=
  NotifyTransaction (lead_item k) result (lead_entry k) ;;
  notify_pending_items (lead_op k) result (lead_key k) (snapshot k)
                       (lead_fail k) (lead_entry k).

Definition OnIOComplete (result : Z) (pending_op : OpId) : M unit :=
  p <- load_op pending_op;
  item <- deref (op_writer p);
  if bool_decide (operation_ item = WI_CREATE_BACKEND) then
    OnBackendCreated result pending_op
  else
    k <- OnIOComplete_settle result pending_op item;
    OnIOComplete_notify result k.

(** [BackendCallback::RunWithParams], the cache being alive. *)
Definition BackendCallback_Run (result : Z) (pending_op : OpId) : M unit :=
  OnIOComplete result pending_op.

(** *** Requests to the backend

    A call on the backend answers [rv] at once; what it has written into the
    out-parameter of the pending operation by then (the disk entry [d], the
    backend [b]; nothing when it completes later) is an argument of the
    embedding, like [rv]. *)

(** The tail shared by the four requests: the item becomes the lead of the
    operation, the backend is called, and a synchronous answer is delivered
    on the spot through the callback. *)
Definition issue (pending_op : OpId) (p : PendingOp) (item : WorkItem)
    (call : Event) (fill : PendingOp -> PendingOp) (clear : WorkItem -> WorkItem)
    (rv : Z) : M Z :=
  store_op pending_op (set_op_callback true (set_op_writer (Some item) p)) ;;
  emit call ;;
  update_op pending_op fill ;;
  when (negb (rv =? ERR_IO_PENDING))
       (p' <- load_op pending_op;
        w <- deref (op_writer p');
        store_op pending_op (set_op_writer (Some (clear w)) p') ;;
        BackendCallback_Run rv pending_op) ;;
  ret rv.

Definition CreateBackend (backend : option BackendSlot) (callback : option UserCallback)
    (rv : Z) (b : option Backend) : M Z :=
  c <- get;
  if negb (backend_factory_ c) then ret ERR_FAILED
  else
    modify (with_building_backend true) ;;
    let item := mkWorkItem WI_CREATE_BACKEND None None callback backend in
    pending_op <- GetPendingOp empty_key;
    p <- load_op pending_op;
    if non_null (op_writer p) then
      when (non_null callback)
           (store_op pending_op (set_op_pending_queue (op_pending_queue p ++ [item]) p)) ;;
      ret ERR_IO_PENDING
    else
      issue pending_op p item (EvFactoryCreateBackend pending_op)
            (set_op_backend b) ClearCallback rv.

Definition GetBackend (backend : BackendSlot) (callback : UserCallback)
    (rv : Z) (b : option Backend) : M Z :=
  c <- get;
  match disk_cache_ c with
  | Some d => emit (EvSetBackend backend (Some d)) ;; ret OK
  | None => CreateBackend (Some backend) (Some callback) rv b
  end.

Definition GetCurrentBackend : M (option Backend) :=
  c <- get; ret (disk_cache_ c).

Definition GetBackendForTransaction (trans : Transaction) : M Z :=
  c <- get;
  if non_null (disk_cache_ c) then ret OK
  else if negb (building_backend_ c) then ret ERR_FAILED
  else
    let item := mkWorkItem WI_CREATE_BACKEND (Some trans) None None None in
    pending_op <- GetPendingOp empty_key;
    update_op pending_op
      (fun p => set_op_pending_queue (op_pending_queue p ++ [item]) p) ;;
    ret ERR_IO_PENDING.

Definition OpenEntry (key : string) (entry : EntrySlot) (trans : Transaction)
    (rv : Z) (d : option DiskEntry) : M Z :=
  active_entry <- FindActiveEntry key;
  match active_entry with
  | Some e => emit (EvSetEntry entry (Some e)) ;; ret OK
  | None =>
      let item := mkWorkItem WI_OPEN_ENTRY (Some trans) (Some entry) None None in
      pending_op <- GetPendingOp key;
      p <- load_op pending_op;
      if non_null (op_writer p) then
        store_op pending_op (set_op_pending_queue (op_pending_queue p ++ [item]) p) ;;
        ret ERR_IO_PENDING
      else
        c <- get;
        deref (disk_cache_ c) ;;
        issue pending_op p item (EvBackendOpenEntry key pending_op)
              (set_op_disk_entry d) ClearTransaction rv
  end.

Definition CreateEntry (key : string) (entry : EntrySlot) (trans : Transaction)
    (rv : Z) (d : option DiskEntry) : M Z :=
  let item := mkWorkItem WI_CREATE_ENTRY (Some trans) (Some entry) None None in
  pending_op <- GetPendingOp key;
  p <- load_op pending_op;
  if non_null (op_writer p) then
    store_op pending_op (set_op_pending_queue (op_pending_queue p ++ [item]) p) ;;
    ret ERR_IO_PENDING
  else
    c <- get;
    deref (disk_cache_ c) ;;
    issue pending_op p item (EvBackendCreateEntry key pending_op)
          (set_op_disk_entry d) ClearTransaction rv.

Definition AsyncDoomEntry (key : string) (trans : Transaction) (rv : Z) : M Z :=
  let item := mkWorkItem WI_DOOM_ENTRY (Some trans) None None None in
  pending_op <- GetPendingOp key;
  p <- load_op pending_op;
  if non_null (op_writer p) then
    store_op pending_op (set_op_pending_queue (op_pending_queue p ++ [item]) p) ;;
    ret ERR_IO_PENDING
  else
    c <- get;
    deref (disk_cache_ c) ;;
    issue pending_op p item (EvBackendDoomEntry key pending_op)
          (fun p => p) ClearTransaction rv.

Definition DoomEntry (key : string) (trans : Transaction) (rv : Z) : M Z :=
  c <- get;
  match active_entries_ c !! key with
  | None => AsyncDoomEntry key trans rv
  | Some entry =>
      modify (fun c => with_active_entries (delete key (active_entries_ c)) c) ;;
      modify (fun c => with_doomed_entries (set_insert entry (doomed_entries_ c)) c) ;;
      e <- load_entry entry;
      d <- deref (disk_entry e);
      emit (EvDoom d) ;;
      store_entry entry (set_doomed true e) ;;
      ret OK
  end.

(** [CreateTransaction] and [WriteMetadata] start the backend lazily and do
    not look at the answer. *)
Definition CreateTransaction (rv : Z) (b : option Backend) : M Z :=
  c <- get;
  when (negb (non_null (disk_cache_ c))) (CreateBackend None None rv b ;; ret tt) ;;
  ret OK.

(** The asynchronous answer of the backend to the call bound to
    [pending_op]: the out-parameter is filled, then the callback runs. *)
Definition backend_completes (pending_op : OpId) (fill : PendingOp -> PendingOp)
    (result : Z) : M unit :=
  update_op pending_op fill ;;
  BackendCallback_Run result pending_op.

(** The message loop runs the task at the head of its queue. *)
Definition run_task : M unit :=
  c <- get;
  match posted c with
  | [] => ret tt
  | t :: rest =>
      modify (with_posted rest) ;;
      match t with
      | TaskOnProcessPendingQueue entry => OnProcessPendingQueue entry
      | TaskOnBackendCreated result pending_op => OnBackendCreated result pending_op
      end
  end.

(** *** Cache keys *)

(** [HttpUtil::SpecForRequest]: the URL without reference, user name and
    password.  It lives in http_util.cc. *)
Variable SpecForRequest : string -> string.

Definition GenerateCacheKey (request : HttpRequestInfo) : M string :=
  let url := SpecForRequest (request_url request) in
  c <- get;
  if bool_decide (mode_ c = NORMAL) then
    match upload_data request with
    | Some identifier =>
        if negb (identifier =? 0) then ret (Int64ToString identifier +:+ "/" +:+ url)
        else ret url
    | None => ret url
    end
  else
    when (negb (non_null (playback_cache_map_ c)))
         (modify (with_playback_cache_map (Some ∅))) ;;
    c <- get;
    map <- deref (playback_cache_map_ c);
    let generation := match map !! url with Some g => g | None => 0 end in
    modify (with_playback_cache_map (Some (<[url := int_add generation 1]> map))) ;;
    ret (IntToString generation +:+ request_method request +:+ url).

(** Successive key computations, one per request of the list. *)
Fixpoint generate_keys (requests : list HttpRequestInfo) : M (list string) :=
  match requests with
  | [] => ret []
  | request :: rest =>
      k <- GenerateCacheKey request;
      ks <- generate_keys rest;
      ret (k :: ks)
  end.

(** The generation a URL stands at: what the next key for it is tagged with. *)
Definition generation_of (url : string) (c : HttpCache) : Z :=
  match playback_cache_map_ c with
  | Some map => match map !! url with Some g => g | None => 0 end
  | None => 0
  end.

(** *** The cache as a transition system *)

(** Modelled from the spec: the mode is a configuration of the cache; its
    setter is declared inline in http_cache.h, which is not among the
    sources. *)
Definition set_mode (value : Mode) : M unit :=
  modify (fun c => mkHttpCache (disk_cache_ c) (backend_factory_ c)
                     (building_backend_ c) value (playback_cache_map_ c)
                     (active_entries_ c) (doomed_entries_ c) (pending_ops_ c)
                     (entries c) (ops c) (next_entry c) (next_op c) (posted c)).

(** What the surroundings of the cache can do to it: the calls of the
    embedder and of the transactions, the answers of the backend, and the
    message loop running a posted task. *)
Inductive Call :=
| CallSetMode (value : Mode)
| CallGetBackend (backend : BackendSlot) (callback : UserCallback)
                 (rv : Z) (b : option Backend)
| CallCreateTransaction (rv : Z) (b : option Backend)
| CallGetBackendForTransaction (trans : Transaction)
| CallGenerateCacheKey (request : HttpRequestInfo)
| CallOpenEntry (key : string) (entry : EntrySlot) (trans : Transaction)
                (rv : Z) (d : option DiskEntry)
| CallCreateEntry (key : string) (entry : EntrySlot) (trans : Transaction)
                  (rv : Z) (d : option DiskEntry)
| CallDoomEntry (key : string) (trans : Transaction) (rv : Z)
| CallAsyncDoomEntry (key : string) (trans : Transaction) (rv : Z)
| CallAddTransactionToEntry (entry : EntryId) (trans : Transaction)
| CallDoneWithEntry (entry : EntryId) (trans : Transaction) (cancel : bool)
| CallDoneWritingToEntry (entry : EntryId) (success : bool)
| CallDoneReadingFromEntry (entry : EntryId) (trans : Transaction)
| CallConvertWriterToReader (entry : EntryId)
| CallRemovePendingTransaction (trans : Transaction)
| CallBackendCompletes (pending_op : OpId) (d : option DiskEntry)
                       (b : option Backend) (result : Z)
| CallRunTask.

Definition perform (call : Call) : M unit :=
  match call with
  | CallSetMode value => set_mode value
  | CallGetBackend backend callback rv b => GetBackend backend callback rv b ;; ret tt
  | CallCreateTransaction rv b => CreateTransaction rv b ;; ret tt
  | CallGetBackendForTransaction trans => GetBackendForTransaction trans ;; ret tt
  | CallGenerateCacheKey request => GenerateCacheKey request ;; ret tt
  | CallOpenEntry key entry trans rv d => OpenEntry key entry trans rv d ;; ret tt
  | CallCreateEntry key entry trans rv d => CreateEntry key entry trans rv d ;; ret tt
  | CallDoomEntry key trans rv => DoomEntry key trans rv ;; ret tt
  | CallAsyncDoomEntry key trans rv => AsyncDoomEntry key trans rv ;; ret tt
  | CallAddTransactionToEntry entry trans => AddTransactionToEntry entry trans ;; ret tt
  | CallDoneWithEntry entry trans cancel => DoneWithEntry entry trans cancel
  | CallDoneWritingToEntry entry success => DoneWritingToEntry entry success
  | CallDoneReadingFromEntry entry trans => DoneReadingFromEntry entry trans
  | CallConvertWriterToReader entry => ConvertWriterToReader entry
  | CallRemovePendingTransaction trans => RemovePendingTransaction trans
  | CallBackendCompletes pending_op d b result =>
      backend_completes pending_op
        (fun p => set_op_backend b (set_op_disk_entry d p)) result
  | CallRunTask => run_task
  end.

(** A sequence of calls, one after the other. *)
Fixpoint run_calls (calls : list Call) : M unit :=
  match calls with
  | [] => ret tt
  | call :: rest => perform call ;; run_calls rest
  end.

Inductive reachable : HttpCache -> Prop :=
| reachable_new factory : reachable (new_HttpCache factory)
| reachable_call c call c' evs :
    reachable c -> perform call c = Some (tt, c', evs) -> reachable c'.

(** Invariant A on one entry, and on every entry there is, active or
    doomed. *)
Definition entry_ok (e : ActiveEntry) : Prop :=
  writer e <> None -> readers e = [].

Definition InvariantA (c : HttpCache) : Prop :=
  forall i e, entries c !! i = Some e -> entry_ok e.

(** The computation keeps invariant A, and answers a value that satisfies
    [Q]. *)
Definition keeps {A} (m : M A) (Q : A -> Prop) : Prop :=
  forall c a c' evs, InvariantA c -> m c = Some (a, c', evs) -> InvariantA c' /\ Q a.

(** *** Well-formed pointers *)

(** The entry is where [DestroyEntry] looks for it: in the doomed set when it
    is doomed, and otherwise in the table of active entries under the key of
    its disk entry (under some key when the disk entry has none to tell). *)
Definition entry_registered (c : HttpCache) (entry : EntryId) (e : ActiveEntry) : Prop :=
  if doomed e then entry ∈ doomed_entries_ c
  else exists d, disk_entry e = Some d /\
         if bool_decide (de_key d = empty_key)
         then exists k, active_entries_ c !! k = Some entry
         else active_entries_ c !! de_key d = Some entry.

(** The cache once [entry] is destroyed: out of the store, and out of the
    doomed set or of the table of active entries (where it was under [k]). *)
Definition destroyed (c : HttpCache) (entry : EntryId) (e : ActiveEntry) (k : string)
    : HttpCache :=
  with_entries (delete entry (entries c))
    (if doomed e
     then with_doomed_entries (erase_first entry (doomed_entries_ c)) c
     else with_active_entries (delete k (active_entries_ c)) c).

(** The state a chain of callbacks leaves behind. *)
Definition after_callbacks (q : list Transaction) (result : Z) (c : HttpCache) : HttpCache :=
  foldl (fun c t => react (EvRun t result) c) c q.

(** The pending operation is registered under [key] and under no other key,
    and the disk entry the backend handed back, if any, has that key or
    cannot tell its key. *)
Definition op_registered (c : HttpCache) (pending_op : OpId) (p : PendingOp)
    (key : string) : Prop :=
  pending_ops_ c !! key = Some pending_op /\
  (forall k, pending_ops_ c !! k = Some pending_op -> k = key) /\
  (forall d, op_disk_entry p = Some d -> de_key d = key \/ de_key d = empty_key).

(** The calls that tell a waiter the outcome of its request. *)
Definition is_notification (ev : Event) : bool :=
  match ev with
  | EvRun _ _ | EvSetEntry _ _ | EvUserRun _ _ | EvSetBackend _ _ => true
  | _ => false
  end.

(** *** Where a waiting transaction is *)

(** Every pointer of the tables leads to a live object, and the pending
    operations have a lead. *)
Definition pointers_valid (c : HttpCache) : Prop :=
  (forall k i, active_entries_ c !! k = Some i -> is_Some (entries c !! i)) /\
  (forall i, i ∈ doomed_entries_ c -> is_Some (entries c !! i)) /\
  (forall k j, pending_ops_ c !! k = Some j ->
     exists p, ops c !! j = Some p /\ is_Some (op_writer p)).

Inductive Location :=
| InEntry (entry : EntryId)         (* in the pending queue of the entry *)
| InPendingOp (pending_op : OpId)   (* lead of the operation, or in its queue *)
| Nowhere.

Definition queued_in_entry (c : HttpCache) (trans : Transaction) (entry : EntryId) : bool :=
  match entries c !! entry with
  | Some e => bool_decide (trans ∈ pending_queue e)
  | None => false
  end.

Definition waits_in_op (c : HttpCache) (trans : Transaction) (pending_op : OpId) : bool :=
  match ops c !! pending_op with
  | Some p =>
      match op_writer p with Some w => Matches w trans | None => false end
      || existsb (fun w => Matches w trans) (op_pending_queue p)
  | None => false
  end.

Definition look_in_entry (c : HttpCache) (trans : Transaction) (entry : option EntryId)
    : option Location :=
  match entry with
  | Some i => if queued_in_entry c trans i then Some (InEntry i) else None
  | None => None
  end.

Definition look_in_op (c : HttpCache) (trans : Transaction) (pending_op : option OpId)
    : option Location :=
  match pending_op with
  | Some j => if waits_in_op c trans j then Some (InPendingOp j) else None
  | None => None
  end.

(** The four places a waiting transaction can be in. *)
Definition in_active_entry (c : HttpCache) (trans : Transaction) : option Location :=
  look_in_entry c trans (active_entries_ c !! trans_key trans).
Definition in_key_op (c : HttpCache) (trans : Transaction) : option Location :=
  look_in_op c trans (pending_ops_ c !! trans_key trans).
Definition in_gate (c : HttpCache) (trans : Transaction) : option Location :=
  look_in_op c trans (pending_ops_ c !! empty_key).
Definition in_doomed (c : HttpCache) (trans : Transaction) : option Location :=
  InEntry <$> List.find (queued_in_entry c trans) (doomed_entries_ c).

(** The first place of a list where the transaction is found. *)
Fixpoint first_found (places : list (option Location)) : Location :=
  match places with
  | [] => Nowhere
  | Some l :: _ => l
  | None :: rest => first_found rest
  end.

(** The order of the design document: the active entry of the key, the
    pending operation of the key, the backend-creation gate, the doomed
    entries. *)
Definition where_is_listed (c : HttpCache) (trans : Transaction) : Location :=
  first_found [in_active_entry c trans; in_key_op c trans; in_gate c trans;
               in_doomed c trans].

(** The order of the code: the gate comes before the pending operation of
    the key, and is looked at only while the backend is being built. *)
Definition where_is (c : HttpCache) (trans : Transaction) : Location :=
  first_found [in_active_entry c trans;
               if building_backend_ c then in_gate c trans else None;
               in_key_op c trans;
               in_doomed c trans].

(** The transaction taken out of a pending operation: the lead item stays
    and loses its transaction and its out-slot; otherwise the first queued
    item of the transaction goes. *)
Definition removed_from_op (trans : Transaction) (p : PendingOp) : PendingOp :=
  match op_writer p with
  | Some w =>
      if Matches w trans then set_op_writer (Some (ClearEntry (ClearTransaction w))) p
      else match erase_matching trans (op_pending_queue p) with
           | Some q => set_op_pending_queue q p
           | None => p
           end
  | None => p
  end.

(** The cache once the transaction is taken out of the place it was found
    in; in a queue of transactions its first occurrence goes. *)
Definition remove_at (l : Location) (trans : Transaction) (c : HttpCache) : HttpCache :=
  match l with
  | InEntry i =>
      match entries c !! i with
      | Some e =>
          with_entries
            (<[i := set_pending_queue (erase_first trans (pending_queue e)) e]>
               (entries c)) c
      | None => c
      end
  | InPendingOp j =>
      match ops c !! j with
      | Some p => with_ops (<[j := removed_from_op trans p]> (ops c)) c
      | None => c
      end
  | Nowhere => c
  end.

(** *** The table of the completion protocol *)

(** What [NotifyTransaction] does: the out-slot of the item, when it has one,
    is written, and the callback of its transaction, when it has one, runs. *)
Definition notify_events (item : WorkItem) (res : Z) (ent : option EntryId) : list Event :=
  match entry_ item with Some slot => [EvSetEntry slot ent] | None => [] end ++
  match trans_ item with Some t => [EvRun t res] | None => [] end.

Definition notified (item : WorkItem) (res : Z) (c : HttpCache) : HttpCache :=
  match trans_ item with Some t => react (EvRun t res) c | None => c end.

(** The table of the design document for one queued item.  [lead] and [r]
    are the operation and the result of the lead item, [item] the operation
    of the queued item, [found] the active entry the key leads to when the
    item is reached, [fail] whether the protocol is already failing the
    requests, [entry0] the entry of the lead.  The row gives the result
    [res] and the entry [ent] the item is notified with, and whether the
    later items fail ([fail']). *)
Definition table_row (lead : WorkItemOperation) (r : Z) (item : WorkItemOperation)
    (found : option EntryId) (fail : bool) (entry0 : option EntryId)
    (res : Z) (ent : option EntryId) (fail' : bool) : Prop :=
  let race := res = ERR_CACHE_RACE /\ ent = None /\ fail' = true in
  let deliver :=
    res = r /\ ent = (if r =? OK then found else entry0) /\ fail' = false in
  if decide (item = WI_DOOM_ENTRY) then race
  else if decide (r = OK /\ found = None) then race
  else if fail then race
  else if decide (item = WI_CREATE_ENTRY) then
    if decide (r = OK) then
      res = ERR_CACHE_CREATE_FAILURE /\ ent = None /\ fail' = false
    else if decide (lead <> WI_CREATE_ENTRY) then race
    else deliver
  else
    if decide (lead = WI_CREATE_ENTRY /\ r <> OK) then race
    else deliver.

(** The queue is drained in order, one notification per item, each by its
    row of the table at the state the previous callbacks left. *)
Inductive drained (lead : WorkItemOperation) (r : Z) (key : string)
    (entry0 : option EntryId)
    : bool -> HttpCache -> list WorkItem ->
      list (WorkItem * Z * option EntryId) -> HttpCache -> Prop :=
| drained_nil fail c : drained lead r key entry0 fail c [] [] c
| drained_cons fail c item rest res ent fail' notes c' :
    table_row lead r (operation_ item) (active_entries_ c !! key) fail entry0
              res ent fail' ->
    drained lead r key entry0 fail' (notified item res c) rest notes c' ->
    drained lead r key entry0 fail c (item :: rest) ((item, res, ent) :: notes) c'.

Definition notes_events (notes : list (WorkItem * Z * option EntryId)) : list Event :=
  flat_map (fun n => notify_events (fst (fst n)) (snd (fst n)) (snd n)) notes.

(** The cache once [ActivateEntry(d->GetKey(), d)] has run: a new entry for
    the disk entry, registered under the key of the disk entry. *)
Definition activated (d : DiskEntry) (c : HttpCache) : HttpCache :=
  with_active_entries (<[de_key d := next_entry c]> (active_entries_ c))
    (with_next_entry (S (next_entry c))
       (with_entries (<[next_entry c := new_ActiveEntry d]> (entries c)) c)).

(** The cache once the pending operation registered under [key] is deleted. *)
Definition op_removed (pending_op : OpId) (key : string) (c : HttpCache) : HttpCache :=
  with_ops (delete pending_op (ops c))
    (with_pending_ops (delete key (pending_ops_ c)) c).

(** ** Sample transactions and caches

    Transactions with an even address want to write; every transaction is
    after the key [k]; callbacks do nothing to the cache. *)

Definition sample_mode (t : Transaction) : Z :=
  if Nat.even t then TransactionMode.READ_WRITE else TransactionMode.READ.
Definition sample_key (t : Transaction) : string := "k".
Definition sample_flag (t : Transaction) : bool := true.
Definition no_reaction (ev : Event) (c : HttpCache) : HttpCache := c.
Definition sample_spec (url : string) : string := url.

Definition sample_disk : DiskEntry := mkDiskEntry 1 "k".

(** A cache with a live backend and one active entry under [k]. *)
Definition cache_with (e : ActiveEntry) : HttpCache :=
  mkHttpCache (Some 1%nat) false false NORMAL None
    {[ "k" := 0%nat ]} [] ∅ {[ 0%nat := e ]} ∅ 1%nat 0%nat [].

(** One reader, a writer waiting behind it. *)
Definition contended_entry : ActiveEntry :=
  mkActiveEntry (Some sample_disk) None [1]%nat [2]%nat false false.
(** A writer, two transactions waiting. *)
Definition written_entry : ActiveEntry :=
  mkActiveEntry (Some sample_disk) (Some 2%nat) [] [3; 5]%nat false false.
(** A drain is scheduled and the entry has no reader. *)
Definition draining_entry : ActiveEntry :=
  mkActiveEntry (Some sample_disk) (Some 2%nat) [] [3]%nat true false.

(** A cache with a live backend and one pending operation under [k]. *)
Definition cache_with_op (p : PendingOp) : HttpCache :=
  mkHttpCache (Some 1%nat) false false NORMAL None
    ∅ [] {[ "k" := 0%nat ]} ∅ {[ 0%nat := p ]} 0%nat 1%nat [].

(** An OPEN_ENTRY under way for transaction 2, a CREATE_ENTRY of
    transaction 4 queued behind it. *)
Definition open_op : PendingOp :=
  mkPendingOp None None
    (Some (mkWorkItem WI_OPEN_ENTRY (Some 2%nat) (Some 20%nat) None None)) true
    [mkWorkItem WI_CREATE_ENTRY (Some 4%nat) (Some 40%nat) None None].

(** A CREATE_ENTRY under way for transaction 2, for which the backend has
    handed back the disk entry; a CREATE_ENTRY of transaction 4 and an
    OPEN_ENTRY of transaction 6 are queued behind it. *)
Definition create_op : PendingOp :=
  mkPendingOp (Some sample_disk) None
    (Some (mkWorkItem WI_CREATE_ENTRY (Some 2%nat) (Some 20%nat) None None)) true
    [mkWorkItem WI_CREATE_ENTRY (Some 4%nat) (Some 40%nat) None None;
     mkWorkItem WI_OPEN_ENTRY (Some 6%nat) (Some 60%nat) None None].

(** The backend is live, the gate is still handing out its answers (the
    lead of the gate is transaction 8, transaction 7 is queued behind it),
    and an OPEN_ENTRY of transaction 7 is under way for [k]. *)
Definition gate_and_key_op : HttpCache :=
  mkHttpCache (Some 1%nat) false true NORMAL None
    ∅ []
    (<[ empty_key := 0%nat ]> {[ "k" := 1%nat ]})
    ∅
    (<[ 0%nat := mkPendingOp None (Some 1%nat)
                   (Some (mkWorkItem WI_CREATE_BACKEND (Some 8%nat) None None None))
                   false
                   [mkWorkItem WI_CREATE_BACKEND (Some 7%nat) None None None] ]>
       {[ 1%nat := mkPendingOp None None
                     (Some (mkWorkItem WI_OPEN_ENTRY (Some 7%nat) (Some 70%nat)
                                       None None))
                     true [] ]})
    0%nat 2%nat [].

(** A cache in RECORD mode that has computed no key yet. *)
Definition recording_cache : HttpCache :=
  mkHttpCache (Some 1%nat) false false RECORD None ∅ [] ∅ ∅ ∅ 0%nat 0%nat [].

Definition sample_request : HttpRequestInfo :=
  mkHttpRequestInfo "http://a/" "GET" None.

(** A cache with a live backend and nothing else. *)
Definition idle_cache : HttpCache :=
  mkHttpCache (Some 1%nat) false false NORMAL None ∅ [] ∅ ∅ ∅ 0%nat 0%nat [].

(** ** Properties *)

(** *** The reader/writer lock *)

Lemma with_posted_nil (m : gmap EntryId ActiveEntry) c :
  with_posted (posted c ++ []) (with_entries m c) = with_entries m c.
Proof. destruct c; unfold with_posted, with_entries; simpl. by rewrite app_nil_r. Qed.


(** C1.  Admission to an active entry.  The call only touches the entry
    and the message loop, and:
    (1) with a writer present or a drain scheduled, the transaction is
        appended to the pending queue and the answer is ERR_IO_PENDING;
    (2) otherwise a transaction whose mode includes WRITE becomes the writer
        and gets OK exactly when there is no reader, and is queued with
        ERR_IO_PENDING when there is one;
    (3) otherwise a transaction that does not write is appended to the
        readers and gets OK;
    (4) after an admission (OK), a drain is scheduled when the entry has no
        writer and its pending queue is not empty, and only then. *)
Theorem AddTransactionToEntry_admission (entry : EntryId) (trans : Transaction)
    (c : HttpCache) (e : ActiveEntry) :
  entries c !! entry = Some e ->
  exists rv e' tasks,
    AddTransactionToEntry entry trans c =
      Some (rv, with_posted (posted c ++ tasks)
                  (with_entries (<[entry := e']> (entries c)) c), [])
    /\ (writer e <> None \/ will_process_pending_queue e = true ->
          rv = ERR_IO_PENDING /\ tasks = [] /\
          e' = set_pending_queue (pending_queue e ++ [trans]) e)
    /\ (writer e = None -> will_process_pending_queue e = false ->
          wants_write (trans_mode trans) = true ->
          (rv = OK <-> readers e = []) /\
          (readers e = [] -> tasks = [] /\ e' = set_writer (Some trans) e) /\
          (readers e <> [] ->
             rv = ERR_IO_PENDING /\ tasks = [] /\
             e' = set_pending_queue (pending_queue e ++ [trans]) e))
    /\ (writer e = None -> will_process_pending_queue e = false ->
          wants_write (trans_mode trans) = false ->
          rv = OK /\
          writer e' = None /\ readers e' = readers e ++ [trans] /\
          pending_queue e' = pending_queue e /\
          disk_entry e' = disk_entry e /\ doomed e' = doomed e)
    /\ (rv = OK ->
          if bool_decide (writer e' = None /\ pending_queue e' <> []) then
            will_process_pending_queue e' = true /\
            tasks = [TaskOnProcessPendingQueue entry]
          else
            will_process_pending_queue e' = false /\ tasks = []).
Proof.
  clear_unused. intros He.
  unfold AddTransactionToEntry, ProcessPendingQueue. run_monad.
  rewrite He. simpl.
  destruct e as [d w r q wp dm]; simpl.
  assert (Hfin : forall rv e' tasks (P : Prop) (x : option (Z * HttpCache * list Event)),
    x = Some (rv, with_posted (posted c ++ tasks)
                    (with_entries (<[entry := e']> (entries c)) c), []) ->
    P -> x = Some (rv, with_posted (posted c ++ tasks)
                    (with_entries (<[entry := e']> (entries c)) c), []) /\ P)
    by (intros; split; assumption).
  destruct w as [w|]; simpl.
  { exists ERR_IO_PENDING, (mkActiveEntry d (Some w) r (q ++ [trans]) wp dm), [].
    apply Hfin; [by rewrite with_posted_nil|].
    settle_cases. }
  destruct wp; simpl.
  { exists ERR_IO_PENDING, (mkActiveEntry d None r (q ++ [trans]) true dm), [].
    apply Hfin; [by rewrite with_posted_nil|].
    settle_cases. }
  destruct (wants_write (trans_mode trans)) eqn:Hw; simpl.
  - destruct r as [|r0 r]; simpl.
    + rewrite lookup_insert_eq. simpl.
      exists OK, (mkActiveEntry d (Some trans) [] q false dm), [].
      apply Hfin; [by rewrite with_posted_nil|].
      settle_cases.
    + exists ERR_IO_PENDING, (mkActiveEntry d None (r0 :: r) (q ++ [trans]) false dm), [].
      apply Hfin; [by rewrite with_posted_nil|].
      settle_cases.
  - rewrite lookup_insert_eq. simpl.
    destruct q as [|q0 q]; simpl.
    + exists OK, (mkActiveEntry d None (r ++ [trans]) [] false dm), [].
      apply Hfin; [by rewrite with_posted_nil|].
      settle_cases.
    + rewrite ?lookup_insert_eq. simpl.
      exists OK, (mkActiveEntry d None (r ++ [trans]) (q0 :: q) true dm),
        [TaskOnProcessPendingQueue entry].
      apply Hfin.
      { unfold with_entries, with_posted; simpl. by rewrite !insert_insert_eq. }
      settle_cases.
Qed.

(** C10.  When a drain is already scheduled and the entry has no reader,
    [DoneWithEntry] returns at once: the cache, hence the writer, the readers
    and the pending queue of the entry, is as before, and no call is made on
    the transaction (no [AddTruncatedFlag]), whatever [cancel] and whoever
    the writer is. *)
Theorem DoneWithEntry_drain_scheduled (entry : EntryId) (trans : Transaction)
    (cancel : bool) (c : HttpCache) (e : ActiveEntry) :
  entries c !! entry = Some e ->
  will_process_pending_queue e = true ->
  readers e = [] ->
  DoneWithEntry entry trans cancel c = Some (tt, c, []).
Proof.
  intros He Hwp Hr. unfold DoneWithEntry. run_monad.
  rewrite He. simpl. rewrite Hwp, Hr. reflexivity.
Qed.

Lemma run_all_spec (q : list Transaction) (result : Z) (c : HttpCache) :
  run_all q result c =
    Some (tt, after_callbacks q result c, map (fun t => EvRun t result) q).
Proof.
  revert c. induction q as [|t q IH]; intros c; [reflexivity|].
  simpl. unfold Run. run_monad. rewrite IH. reflexivity.
Qed.

Lemma find_by_value_Some (v : nat) (m : gmap string nat) (k : string) :
  find_by_value v m = Some k -> m !! k = Some v.
Proof.
  unfold find_by_value. destruct (List.find _ _) as [[k' v']|] eqn:Hf; [|done].
  simpl. intros [= <-]. apply List.find_some in Hf as [Hin Hv].
  apply bool_decide_eq_true in Hv. simpl in Hv. subst v'.
  apply elem_of_map_to_list. by apply list_elem_of_In.
Qed.

Lemma find_by_value_is_Some (v : nat) (m : gmap string nat) (k : string) :
  m !! k = Some v -> is_Some (find_by_value v m).
Proof.
  intros Hk. unfold find_by_value.
  destruct (List.find _ _) as [[k' v']|] eqn:Hf; [by eexists|].
  exfalso. apply elem_of_map_to_list, list_elem_of_In in Hk.
  pose proof (List.find_none _ _ Hf _ Hk) as Hb. simpl in Hb.
  by rewrite bool_decide_true in Hb.
Qed.

Lemma DestroyEntry_registered (entry : EntryId) (c : HttpCache) (e : ActiveEntry)
    (d : DiskEntry) :
  entries c !! entry = Some e ->
  disk_entry e = Some d ->
  entry_registered c entry e ->
  exists k,
    (doomed e = false -> active_entries_ c !! k = Some entry) /\
    DestroyEntry entry c = Some (tt, destroyed c entry e k, [EvClose d]).
Proof.
  intros He Hd Hreg. unfold entry_registered in Hreg.
  unfold DestroyEntry, FinalizeDoomedEntry, DeactivateEntry, SlowDeactivateEntry,
    delete_entry, destroyed.
  destruct e as [de w r q wp dm]. simpl in Hd, Hreg. subst de.
  run_monad. rewrite He. simpl.
  destruct dm.
  - exists empty_key. split; [done|].
    rewrite bool_decide_true by done. rewrite He. reflexivity.
  - destruct Hreg as (d' & [= <-] & Hreg).
    destruct (bool_decide (de_key d = empty_key)) eqn:Hk.
    + destruct Hreg as (k & Hk').
      destruct (find_by_value_is_Some _ _ _ Hk') as (k' & Hfind).
      exists k'. split; [intros _; by apply find_by_value_Some|].
      repeat (rewrite ?He, ?Hk, ?Hfind; simpl). reflexivity.
    + exists (de_key d). split; [done|].
      repeat (rewrite ?He, ?Hk, ?Hreg; simpl). reflexivity.
Qed.

(** C5.  The writer releases the entry.  On success the writer slot is
    cleared and a drain is scheduled (the task is posted unless one is
    already pending).  On failure the pending queue is taken out of the
    entry, the disk entry is doomed, the entry is destroyed (its disk entry
    closed, the entry out of the store and out of the table or set that held
    it), and then the callback of each transaction of the former queue runs
    once, in order, with ERR_CACHE_RACE. *)
Theorem DoneWritingToEntry_release (entry : EntryId) (c : HttpCache)
    (e : ActiveEntry) :
  entries c !! entry = Some e ->
  (exists c',
     DoneWritingToEntry entry true c = Some (tt, c', []) /\
     entries c' !! entry = Some (set_will_process true (set_writer None e)) /\
     posted c' = (if will_process_pending_queue e then posted c
                  else posted c ++ [TaskOnProcessPendingQueue entry]))
  /\
  (forall d,
     disk_entry e = Some d ->
     entry_registered c entry e ->
     exists k,
       (doomed e = false -> active_entries_ c !! k = Some entry) /\
       DoneWritingToEntry entry false c =
         Some (tt,
               after_callbacks (pending_queue e) ERR_CACHE_RACE (destroyed c entry e k),
               EvDoom d :: EvClose d ::
                 map (fun t => EvRun t ERR_CACHE_RACE) (pending_queue e)) /\
       entries (destroyed c entry e k) !! entry = None).
Proof.
  intros He. split; [|intros d Hd Hreg].
  - unfold DoneWritingToEntry, ProcessPendingQueue. run_monad.
    rewrite He. simpl. rewrite lookup_insert_eq. simpl.
    destruct e as [de w r q wp dm]; simpl.
    destruct wp; simpl.
    + eexists. split; [reflexivity|]. simpl. by rewrite lookup_insert_eq.
    + eexists. split; [reflexivity|]. simpl. by rewrite lookup_insert_eq.
  - set (e1 := set_pending_queue [] (set_writer None e)).
    set (c1 := with_entries (<[entry := e1]> (entries c)) c).
    destruct (DestroyEntry_registered entry c1 e1 d) as (k & Hk & Hdestroy).
    { subst c1. simpl. by rewrite lookup_insert_eq. }
    { by destruct e. }
    { unfold entry_registered in *. by destruct e. }
    exists k. split; [exact Hk|]. split.
    + unfold DoneWritingToEntry. 
      cbv beta iota zeta delta [bind update_entry load_entry store_entry get modify deref ret emit].
      rewrite He. simpl. rewrite lookup_insert_eq. simpl.
      rewrite Hd. simpl.
      replace (with_entries (<[entry:=set_pending_queue [] (set_writer None e)]>
                 (<[entry:=set_writer None e]> (entries c)))
                 (with_entries (<[entry:=set_writer None e]> (entries c)) c)) with c1
        by (subst c1 e1; simpl; unfold with_entries; simpl; by rewrite insert_insert_eq).
      rewrite Hdestroy. rewrite run_all_spec. simpl.
      replace (destroyed c1 entry e1 k) with (destroyed c entry e k); [done|].
      subst c1 e1. unfold destroyed, with_entries. destruct e; simpl.
      rewrite delete_insert_eq. by destruct doomed0.
    + unfold destroyed. simpl. by rewrite lookup_delete_eq.
Qed.

(** *** The completion protocol *)

Lemma NotifyTransaction_spec (item : WorkItem) (res : Z) (ent : option EntryId)
    (c : HttpCache) :
  NotifyTransaction item res ent c =
    Some (tt, notified item res c, notify_events item res ent).
Proof.
  unfold NotifyTransaction, notified, notify_events, Run. run_monad.
  destruct (entry_ item), (trans_ item); reflexivity.
Qed.

Local Arguments NotifyTransaction : simpl never.

Lemma notify_queued_row (lead : WorkItemOperation) (r : Z) (key : string)
    (item : WorkItem) (fail : bool) (entry entry0 : option EntryId) (c : HttpCache) :
  (r <> OK -> entry = entry0) ->
  exists res ent fail' entry',
    notify_queued lead r key item fail entry c =
      Some ((fail', entry'), notified item res c, notify_events item res ent)
    /\ table_row lead r (operation_ item) (active_entries_ c !! key) fail entry0
                 res ent fail'
    /\ (r <> OK -> entry' = entry0).
Proof.
  clear_unused.
  intros Hentry. unfold notify_queued, table_row, FindActiveEntry.
  cbv beta iota zeta delta [bind ret get].
  destruct (Z.eqb_spec r OK) as [Hr|Hr];
    [|specialize (Hentry Hr); subst entry0];
    destruct fail;
    repeat case_bool_decide; simpl;
    try destruct (active_entries_ c !! key) as [found|] eqn:Hfound; simpl;
    rewrite NotifyTransaction_spec; simpl; rewrite ?app_nil_r;
    eexists _, _, _, _;
    (split; [reflexivity|]);
    (split; [repeat case_decide; simpl; intuition congruence
            |intros; congruence]).
Qed.

Lemma notify_pending_items_drained (lead : WorkItemOperation) (r : Z) (key : string)
    (entry0 : option EntryId) (items : list WorkItem) :
  forall (fail : bool) (entry : option EntryId) (c : HttpCache),
    (r <> OK -> entry = entry0) ->
    exists notes c',
      notify_pending_items lead r key items fail entry c =
        Some (tt, c', notes_events notes)
      /\ drained lead r key entry0 fail c items notes c'
      /\ map (fun n => fst (fst n)) notes = items.
Proof.
  induction items as [|item rest IH]; intros fail entry c Hentry.
  - exists [], c. split; [reflexivity|]. split; [constructor|reflexivity].
  - destruct (notify_queued_row lead r key item fail entry entry0 c Hentry)
      as (res & ent & fail' & entry' & Hstep & Hrow & Hentry').
    destruct (IH fail' entry' (notified item res c) Hentry')
      as (notes & c' & Hrest & Hdrained & Hitems).
    exists ((item, res, ent) :: notes), c'.
    split; [|split].
    + simpl. unfold bind at 1. rewrite Hstep. simpl. rewrite Hrest. reflexivity.
    + econstructor; eassumption.
    + simpl. by rewrite Hitems.
Qed.

Lemma DeletePendingOp_registered (c : HttpCache) (pending_op : OpId)
    (p : PendingOp) (key : string) :
  ops c !! pending_op = Some p ->
  op_registered c pending_op p key ->
  DeletePendingOp pending_op c =
    Some (tt, with_ops (delete pending_op (ops c))
                (with_pending_ops (delete key (pending_ops_ c)) c), []).
Proof.
  intros Hp (Hreg & Hinj & Hkey).
  unfold DeletePendingOp. run_monad. rewrite Hp. simpl.
  destruct (op_disk_entry p) as [d|] eqn:Hd.
  - destruct (Hkey d eq_refl) as [Hk|Hk].
    + destruct (bool_decide (de_key d = empty_key)) eqn:Hb; simpl.
      * apply bool_decide_eq_true in Hb.
        destruct (find_by_value_is_Some _ _ _ Hreg) as (k' & Hfind).
        rewrite Hfind. simpl.
        apply find_by_value_Some, Hinj in Hfind. by subst k'.
      * rewrite Hk, Hreg. reflexivity.
    + rewrite bool_decide_true by done. simpl.
      destruct (find_by_value_is_Some _ _ _ Hreg) as (k' & Hfind).
      rewrite Hfind. simpl.
      apply find_by_value_Some, Hinj in Hfind. by subst k'.
  - rewrite bool_decide_true by done. simpl.
    destruct (find_by_value_is_Some _ _ _ Hreg) as (k' & Hfind).
    rewrite Hfind. simpl.
    apply find_by_value_Some, Hinj in Hfind. by subst k'.
Qed.

Lemma OnIOComplete_outcome_spec (result : Z) (pending_op : OpId) (item : WorkItem)
    (c : HttpCache) (p : PendingOp) :
  ops c !! pending_op = Some p ->
  (result = OK -> operation_ item <> WI_DOOM_ENTRY -> is_Some (op_disk_entry p)) ->
  exists st c0 evs0 p0,
    OnIOComplete_outcome result pending_op item c = Some (st, c0, evs0)
    /\ forallb (fun ev => negb (is_notification ev)) evs0 = true
    /\ pending_ops_ c0 = pending_ops_ c
    /\ next_op c0 = next_op c
    /\ ops c0 !! pending_op = Some p0
    /\ op_pending_queue p0 = op_pending_queue p
    /\ (op_disk_entry p0 = op_disk_entry p \/ op_disk_entry p0 = None).
Proof.
  intros Hp Hd. unfold OnIOComplete_outcome, ActivateEntry. run_monad.
  destruct (Z.eqb_spec result OK) as [Hr|Hr].
  - case_bool_decide as Hdoom.
    + exists (true, None, empty_key), c, [], p. auto 10.
    + destruct (Hd Hr Hdoom) as (d & Hde).
      rewrite Hp. simpl. rewrite Hde. simpl.
      destruct (IsValid item).
      * eexists _, _, _, p. split; [reflexivity|]. simpl. auto 10.
      * case_bool_decide; simpl.
        -- eexists _, _, _, _. split; [reflexivity|]. simpl.
           rewrite lookup_insert_eq. auto 10.
        -- eexists _, _, _, _. split; [reflexivity|]. simpl.
           rewrite lookup_insert_eq. auto 10.
  - exists (false, None, empty_key), c, [], p. auto 10.
Qed.

(** [OnIOComplete] on a registered operation on an entry: the part before
    the notifications runs, and leaves the operation deleted. *)
Lemma OnIOComplete_settle_registered (result : Z) (pending_op : OpId)
    (c : HttpCache) (p : PendingOp) (item : WorkItem) (key : string) :
  ops c !! pending_op = Some p ->
  op_writer p = Some item ->
  operation_ item <> WI_CREATE_BACKEND ->
  op_registered c pending_op p key ->
  (result = OK -> operation_ item <> WI_DOOM_ENTRY -> is_Some (op_disk_entry p)) ->
  exists k c1 evs1,
    OnIOComplete_settle result pending_op item c = Some (k, c1, evs1)
    /\ (lead_op k = operation_ item /\ lead_item k = item /\
        snapshot k = op_pending_queue p)
    /\ forallb (fun ev => negb (is_notification ev)) evs1 = true
    /\ (ops c1 !! pending_op = None /\ pending_ops_ c1 !! key = None /\
        next_op c1 = next_op c)
    /\ (forall key', pending_ops_ c1 !! key' <> Some pending_op)
    /\ OnIOComplete result pending_op c =
         match OnIOComplete_notify result k c1 with
         | Some (u, c2, evs2) => Some (u, c2, evs1 ++ evs2)
         | None => None
         end.
Proof.
  intros Hp Hw Hnb Hreg Hde.
  destruct (OnIOComplete_outcome_spec result pending_op item c p Hp Hde)
    as (st & c0 & evs0 & p0 & Hout & Hev & Hpo & Hnext & Hp0 & Hq & Hd0).
  set (p1 := set_op_pending_queue [] p0).
  set (c0' := with_ops (<[pending_op := p1]> (ops c0)) c0).
  assert (Hdel : DeletePendingOp pending_op c0' =
            Some (tt, with_ops (delete pending_op (ops c0'))
                        (with_pending_ops (delete key (pending_ops_ c0')) c0'), [])).
  { apply DeletePendingOp_registered with (p := p1).
    - subst c0'. simpl. by rewrite lookup_insert_eq.
    - destruct Hreg as (Hr1 & Hr2 & Hr3). subst c0'. unfold op_registered.
      simpl. rewrite Hpo.
      split; [done|]. split; [done|]. intros d Hd. subst p1. simpl in Hd.
      destruct Hd0 as [Hd0|Hd0]; rewrite Hd0 in Hd; [by apply Hr3|done]. }
  set (c1 := with_ops (delete pending_op (ops c0'))
               (with_pending_ops (delete key (pending_ops_ c0')) c0')) in *.
  set (k := mkCompletion (operation_ item) item (snd (fst st)) (snd st)
              (fst (fst st)) (op_pending_queue p0)).
  assert (Hsettle : OnIOComplete_settle result pending_op item c =
                      Some (k, c1, evs0)).
  { unfold OnIOComplete_settle. unfold bind at 1. rewrite Hout.
    cbv beta iota zeta delta [bind load_op store_op get deref modify ret].
    rewrite Hp0. simpl. fold p1. fold c0'. rewrite Hdel. simpl.
    by rewrite !app_nil_r. }
  assert (Hgone : forall key', pending_ops_ c1 !! key' <> Some pending_op).
  { intros key' Hk'. subst c1 c0'. simpl in Hk'. rewrite Hpo in Hk'.
    destruct Hreg as (Hr1 & Hr2 & Hr3).
    destruct (decide (key' = key)) as [->|Hne].
    - by rewrite lookup_delete_eq in Hk'.
    - rewrite lookup_delete_ne in Hk' by done. by apply Hr2 in Hk'. }
  assert (Hnext1 : next_op c1 = next_op c) by (subst c1 c0'; simpl; done).
  assert (Hops1 : ops c1 !! pending_op = None).
  { subst c1. simpl. by rewrite lookup_delete_eq. }
  assert (Hnone : pending_ops_ c1 !! key = None).
  { subst c1 c0'. simpl. by rewrite lookup_delete_eq. }
  clearbody c1.
  exists k, c1, evs0. split; [exact Hsettle|]. split; [by rewrite <- Hq|].
  split; [exact Hev|]. split; [done|]. split; [exact Hgone|].
  unfold OnIOComplete. cbv beta iota zeta delta [bind load_op get deref ret].
  rewrite Hp. simpl. rewrite Hw. simpl.
  rewrite bool_decide_false by done. rewrite Hsettle.
  by destruct (OnIOComplete_notify result k c1) as [[[[] ?] ?]|].
Qed.

(** What the block [if (result == OK) { ... }] settles, case by case. *)
Lemma OnIOComplete_outcome_exact (result : Z) (pending_op : OpId) (item : WorkItem)
    (c : HttpCache) (p : PendingOp) :
  ops c !! pending_op = Some p ->
  (result <> OK ->
     OnIOComplete_outcome result pending_op item c =
       Some ((false, None, empty_key), c, []))
  /\ (result = OK -> operation_ item = WI_DOOM_ENTRY ->
       OnIOComplete_outcome result pending_op item c =
         Some ((true, None, empty_key), c, []))
  /\ (result = OK -> operation_ item <> WI_DOOM_ENTRY ->
       forall d, op_disk_entry p = Some d ->
       OnIOComplete_outcome result pending_op item c =
         if IsValid item then
           Some ((false, Some (next_entry c), de_key d), activated d c, [])
         else
           Some ((true, None, empty_key),
                 with_ops (<[pending_op := set_op_disk_entry None p]> (ops c)) c,
                 (if bool_decide (operation_ item = WI_CREATE_ENTRY)
                  then [EvDoom d] else []) ++ [EvClose d])).
Proof.
  clear_unused.
  intros Hp. unfold OnIOComplete_outcome, ActivateEntry, activated.
  split; [|split].
  - intros Hr. destruct (Z.eqb_spec result OK); [done|reflexivity].
  - intros -> Hdoom. simpl. by rewrite bool_decide_true.
  - intros -> Hdoom d Hd. simpl. rewrite bool_decide_false by done.
    run_monad. unfold OpId in *. rewrite Hp. simpl. rewrite Hd. simpl.
    destruct (IsValid item); [reflexivity|].
    case_bool_decide; reflexivity.
Qed.

(** [OnIOComplete] down to [DeletePendingOp(pending_op)], from what the
    first block has settled. *)
Lemma OnIOComplete_settle_after (result : Z) (pending_op : OpId) (item : WorkItem)
    (c c0 : HttpCache) (p0 : PendingOp) (key : string)
    (st : bool * option EntryId * string) (evs0 : list Event) :
  OnIOComplete_outcome result pending_op item c = Some (st, c0, evs0) ->
  ops c0 !! pending_op = Some p0 ->
  op_registered c0 pending_op p0 key ->
  OnIOComplete_settle result pending_op item c =
    Some (mkCompletion (operation_ item) item (snd (fst st)) (snd st) (fst (fst st))
                       (op_pending_queue p0),
          op_removed pending_op key c0, evs0).
Proof.
  intros Hout Hp0 Hreg.
  set (p1 := set_op_pending_queue [] p0).
  set (c0' := with_ops (<[pending_op := p1]> (ops c0)) c0).
  assert (Hdel : DeletePendingOp pending_op c0' =
            Some (tt, with_ops (delete pending_op (ops c0'))
                        (with_pending_ops (delete key (pending_ops_ c0')) c0'), [])).
  { apply DeletePendingOp_registered with (p := p1).
    - subst c0'. simpl. by rewrite lookup_insert_eq.
    - exact Hreg. }
  unfold OnIOComplete_settle. unfold bind at 1. rewrite Hout.
  cbv beta iota zeta delta [bind load_op store_op get deref modify ret].
  rewrite Hp0. simpl. fold p1. fold c0'. rewrite Hdel. simpl.
  rewrite !app_nil_r. subst c0'. unfold op_removed. simpl.
  by rewrite delete_insert_eq.
Qed.

(** C3.  The notifications of [OnIOComplete] for an operation on an entry:
    after the lead, every item of the queue that was taken from the pending
    operation is notified exactly once, in order, and with the result and the
    entry its row of the table gives: CACHE_RACE for a queued DOOM_ENTRY, for
    an item reached with [r = OK] when the key leads to no active entry any
    more, and for every item after the protocol has started to fail the
    requests; otherwise CACHE_CREATE_FAILURE for a CREATE_ENTRY when the lead
    succeeded, CACHE_RACE for a CREATE_ENTRY behind a failed lead that was
    not a CREATE and for any other item behind a failed CREATE (both make the
    later items fail), and [(r, entry)] in the remaining cases.

    What the table starts from is settled by the lead.  When the lead
    failed, nothing is failing yet, there is no entry, and nothing was
    called.  When a DOOM_ENTRY succeeded, the requests fail from the first
    item on.  When an OPEN_ENTRY or a CREATE_ENTRY succeeded and its item is
    still valid, the disk entry was activated under its own key, the lead
    is given that entry, nothing is failing, and the key the later lookups
    use is the key of the disk entry.  When it succeeded but its item is not
    valid any more, the disk entry is closed (doomed first, for a
    CREATE_ENTRY) and the requests fail from the first item on. *)
Theorem OnIOComplete_notify_table (r : Z) (pending_op : OpId)
    (c : HttpCache) (p : PendingOp) (item : WorkItem) (key : string) :
  ops c !! pending_op = Some p ->
  op_writer p = Some item ->
  operation_ item <> WI_CREATE_BACKEND ->
  op_registered c pending_op p key ->
  (r = OK -> operation_ item <> WI_DOOM_ENTRY -> is_Some (op_disk_entry p)) ->
  exists k c1 evs1 notes c',
    OnIOComplete_settle r pending_op item c = Some (k, c1, evs1)
    /\ OnIOComplete r pending_op c =
         Some (tt, c',
               evs1 ++ notify_events item r (lead_entry k) ++ notes_events notes)
    /\ map (fun n => fst (fst n)) notes = op_pending_queue p
    /\ drained (operation_ item) r (lead_key k) (lead_entry k) (lead_fail k)
               (notified item r c1) (op_pending_queue p) notes c'
    /\ (r <> OK ->
          lead_fail k = false /\ lead_entry k = None /\ lead_key k = empty_key
          /\ c1 = op_removed pending_op key c /\ evs1 = [])
    /\ (r = OK -> operation_ item = WI_DOOM_ENTRY ->
          lead_fail k = true /\ lead_entry k = None /\ lead_key k = empty_key
          /\ c1 = op_removed pending_op key c /\ evs1 = [])
    /\ (r = OK -> operation_ item <> WI_DOOM_ENTRY ->
          forall d, op_disk_entry p = Some d ->
          if IsValid item then
            lead_fail k = false /\ lead_entry k = Some (next_entry c)
            /\ lead_key k = de_key d
            /\ c1 = op_removed pending_op key (activated d c) /\ evs1 = []
          else
            lead_fail k = true /\ lead_entry k = None /\ lead_key k = empty_key
            /\ c1 = op_removed pending_op key c
            /\ evs1 = (if bool_decide (operation_ item = WI_CREATE_ENTRY)
                       then [EvDoom d] else []) ++ [EvClose d]).
Proof.
  intros Hp Hw Hnb Hreg Hde.
  destruct (OnIOComplete_settle_registered r pending_op c p item key
              Hp Hw Hnb Hreg Hde)
    as (k & c1 & evs1 & Hsettle & (Hop & Hitem & Hsnap) & _ & _ & _ & Hrun).
  destruct (notify_pending_items_drained (lead_op k) r (lead_key k) (lead_entry k)
              (snapshot k) (lead_fail k) (lead_entry k)
              (notified (lead_item k) r c1) (fun _ => eq_refl))
    as (notes & c' & Hnotes & Hdrained & Hitems).
  destruct (OnIOComplete_outcome_exact r pending_op item c p Hp)
    as (Hfailed & Hdoomed & Hgiven).
  exists k, c1, evs1, notes, c'.
  split; [exact Hsettle|]. split; [|split; [|split; [|split; [|split]]]].
  - rewrite Hrun. unfold OnIOComplete_notify. unfold bind at 1.
    rewrite NotifyTransaction_spec, Hnotes, Hitem. reflexivity.
  - by rewrite <- Hsnap.
  - rewrite Hop, Hitem, Hsnap in Hdrained. exact Hdrained.
  - intros Hr.
    rewrite (OnIOComplete_settle_after _ _ _ _ _ _ key _ _ (Hfailed Hr) Hp Hreg)
      in Hsettle.
    by injection Hsettle as <- <- <-.
  - intros Hr Hdoom.
    rewrite (OnIOComplete_settle_after _ _ _ _ _ _ key _ _ (Hdoomed Hr Hdoom) Hp Hreg)
      in Hsettle.
    by injection Hsettle as <- <- <-.
  - intros Hr Hdoom d Hd. specialize (Hgiven Hr Hdoom d Hd).
    destruct (IsValid item).
    + rewrite (OnIOComplete_settle_after _ _ _ _ _ p key _ _ Hgiven Hp Hreg)
        in Hsettle.
      by injection Hsettle as <- <- <-.
    + assert (Hreg' : op_registered
                        (with_ops (<[pending_op := set_op_disk_entry None p]> (ops c)) c)
                        pending_op (set_op_disk_entry None p) key).
      { destruct Hreg as (Hr1 & Hr2 & _). split; [exact Hr1|].
        split; [exact Hr2|]. intros d' [=]. }
      rewrite (OnIOComplete_settle_after _ _ _ _ _ _ key _ _ Hgiven
                 (lookup_insert_eq _ _ _) Hreg') in Hsettle.
      injection Hsettle as <- <- <-. unfold op_removed. simpl.
      by rewrite delete_insert_eq.
Qed.

(** C4.  Completion of a backend call for an operation on an entry.
    [OnIOComplete] first settles the outcome, takes the queue out of the
    pending operation and deletes the operation; up to there no waiter is
    notified.  The notifications run from the state [c1] this leaves, over
    the queue as it was taken.  In [c1] the operation is out of the store
    and no key of the registry leads to it; so whatever key a request issued
    from a callback asks [GetPendingOp] for, it is given another operation,
    and for the key of the completed operation a new one, with no lead and
    an empty queue. *)
Theorem OnIOComplete_deletes_before_notifying (result : Z) (pending_op : OpId)
    (c : HttpCache) (p : PendingOp) (item : WorkItem) (key : string) :
  ops c !! pending_op = Some p ->
  op_writer p = Some item ->
  operation_ item <> WI_CREATE_BACKEND ->
  op_registered c pending_op p key ->
  (pending_op < next_op c)%nat ->
  (result = OK -> operation_ item <> WI_DOOM_ENTRY -> is_Some (op_disk_entry p)) ->
  exists k c1 evs1,
    OnIOComplete_settle result pending_op item c = Some (k, c1, evs1)
    /\ snapshot k = op_pending_queue p
    /\ forallb (fun ev => negb (is_notification ev)) evs1 = true
    /\ ops c1 !! pending_op = None
    /\ (forall key', pending_ops_ c1 !! key' <> Some pending_op)
    /\ OnIOComplete result pending_op c =
         match OnIOComplete_notify result k c1 with
         | Some (u, c2, evs2) => Some (u, c2, evs1 ++ evs2)
         | None => None
         end
    /\ (exists c2,
          GetPendingOp key c1 = Some (next_op c1, c2, []) /\
          next_op c1 <> pending_op /\
          ops c2 !! next_op c1 = Some new_PendingOp /\
          pending_ops_ c2 !! key = Some (next_op c1))
    /\ (forall key' op' c2 evs,
          GetPendingOp key' c1 = Some (op', c2, evs) -> op' <> pending_op).
Proof.
  intros Hp Hw Hnb Hreg Hfresh Hde.
  destruct (OnIOComplete_settle_registered result pending_op c p item key
              Hp Hw Hnb Hreg Hde)
    as (k & c1 & evs1 & Hsettle & (_ & _ & Hsnap) & Hev
        & (Hops1 & Hnone & Hnext1) & Hgone & Hrun).
  exists k, c1, evs1. split; [exact Hsettle|]. split; [exact Hsnap|].
  split; [exact Hev|]. split; [exact Hops1|].
  split; [exact Hgone|]. split; [exact Hrun|]. split.
  - unfold GetPendingOp. run_monad.
    rewrite Hnone. eexists. split; [reflexivity|]. simpl.
    rewrite !lookup_insert_eq. split; [lia|done].
  - intros key' op' c2 evs. unfold GetPendingOp. run_monad.
    destruct (pending_ops_ c1 !! key') as [j|] eqn:Hj.
    + intros [= <- _ _]. intros ->. by apply (Hgone key').
    + intros [= <- _ _]. lia.
Qed.

(** *** Cache keys *)

Lemma length_append (s t : string) :
  String.length (s +:+ t) = (String.length s + String.length t)%nat.
Proof. induction s as [|a s IH]; simpl; [done|by rewrite IH]. Qed.

Lemma append_cancel_r (t s1 s2 : string) : s1 +:+ t = s2 +:+ t -> s1 = s2.
Proof.
  revert s2. induction s1 as [|a s1 IH]; intros [|b s2] H; simpl in H.
  - reflexivity.
  - apply (f_equal String.length) in H. simpl in H.
    rewrite !length_append in H. simpl in H. lia.
  - apply (f_equal String.length) in H. simpl in H.
    rewrite !length_append in H. simpl in H. lia.
  - injection H as -> H. f_equal. by apply IH.
Qed.

Lemma int_add_no_overflow (g : Z) : 0 <= g -> g + 1 < 2 ^ 31 -> int_add g 1 = g + 1.
Proof.
  intros H0 H1. unfold int_add.
  rewrite Z.mod_small by lia. lia.
Qed.

Lemma GenerateCacheKey_playback (request : HttpRequestInfo) (c : HttpCache) :
  mode_ c <> NORMAL ->
  exists c',
    GenerateCacheKey request c =
      Some (IntToString (generation_of (SpecForRequest (request_url request)) c)
              +:+ request_method request +:+ SpecForRequest (request_url request),
            c', [])
    /\ mode_ c' = mode_ c
    /\ generation_of (SpecForRequest (request_url request)) c' =
         int_add (generation_of (SpecForRequest (request_url request)) c) 1.
Proof.
  intros Hmode. unfold GenerateCacheKey, generation_of. run_monad.
  rewrite bool_decide_false by done.
  destruct (playback_cache_map_ c) as [m|] eqn:Hm; repeat (rewrite ?Hm; simpl).
  - eexists. split; [reflexivity|]. simpl. by rewrite lookup_insert_eq.
  - eexists. split; [reflexivity|]. simpl. by rewrite lookup_insert_eq.
Qed.

Lemma generate_keys_from (method url : string) (requests : list HttpRequestInfo) :
  forall (c : HttpCache),
    mode_ c <> NORMAL ->
    Forall (fun request => request_method request = method /\
                           SpecForRequest (request_url request) = url) requests ->
    0 <= generation_of url c ->
    generation_of url c + Z.of_nat (length requests) < 2 ^ 31 ->
    exists c',
      generate_keys requests c =
        Some (map (fun i => IntToString (generation_of url c + Z.of_nat i)
                              +:+ method +:+ url)
                  (seq 0 (length requests)), c', [])
      /\ generation_of url c' = generation_of url c + Z.of_nat (length requests).
Proof.
  induction requests as [|request rest IH]; intros c Hmode Hall H0 Hlt.
  - exists c. split; [reflexivity|]. simpl. lia.
  - apply Forall_cons in Hall as [[Hmethod Hurl] Hall].
    destruct (GenerateCacheKey_playback request c Hmode) as (c1 & Hkey & Hmode1 & Hgen).
    rewrite Hurl, Hmethod in Hkey. rewrite Hurl in Hgen.
    simpl length in Hlt.
    rewrite int_add_no_overflow in Hgen by lia.
    destruct (IH c1) as (c' & Hrest & Hlast); [congruence|done|lia|lia|].
    exists c'. split; [|rewrite Hlast, Hgen; simpl length; lia].
    simpl. unfold bind at 1. rewrite Hkey.
    unfold bind at 1. rewrite Hrest. simpl.
    rewrite <- seq_shift, map_map, Z.add_0_r.
    erewrite (map_ext _ (fun i => IntToString (generation_of url c + Z.of_nat (S i))
                                    +:+ method +:+ url)); [reflexivity|].
    intros i. rewrite Hgen. do 2 f_equal. lia.
Qed.

(** C9.  In RECORD or PLAYBACK mode the key of a request is the decimal
    generation of its URL, then the method, then the URL, and every
    computation moves the generation of that URL on by one.  So the first [n]
    keys computed for one method and URL (the URL not seen before, [n] within
    the range of [int]) are tagged 0, 1, ..., n-1 in this order, and no two of
    them are equal. *)
Theorem GenerateCacheKey_generations (method url : string)
    (requests : list HttpRequestInfo) (c : HttpCache) :
  mode_ c = RECORD \/ mode_ c = PLAYBACK ->
  Forall (fun request => request_method request = method /\
                         SpecForRequest (request_url request) = url) requests ->
  (forall map, playback_cache_map_ c = Some map -> map !! url = None) ->
  Z.of_nat (length requests) < 2 ^ 31 ->
  let keys := map (fun i => IntToString (Z.of_nat i) +:+ method +:+ url)
                  (seq 0 (length requests)) in
  (exists c', generate_keys requests c = Some (keys, c', []) /\
              generation_of url c' = Z.of_nat (length requests))
  /\ NoDup keys.
Proof.
  intros Hmode Hall Hfresh Hlt keys.
  assert (Hg : generation_of url c = 0).
  { unfold generation_of. destruct (playback_cache_map_ c) as [m|]; [|done].
    by rewrite (Hfresh m eq_refl). }
  split.
  - destruct (generate_keys_from method url requests c) as (c' & Hrun & Hlast);
      [destruct Hmode; congruence|done|lia|lia|].
    rewrite Hg in Hrun, Hlast. exists c'. split; [exact Hrun|exact Hlast].
  - subst keys. apply NoDup_fmap_2.
    + intros i j Hij. apply append_cancel_r in Hij.
      unfold IntToString in Hij. apply (inj pretty) in Hij. lia.
    + apply NoDup_seq.
Qed.

(** *** Cancellation *)

Lemma RemovePendingTransactionFromEntry_spec (entry : EntryId) (trans : Transaction)
    (c : HttpCache) :
  is_Some (entries c !! entry) ->
  RemovePendingTransactionFromEntry entry trans c =
    Some (queued_in_entry c trans entry,
          if queued_in_entry c trans entry then remove_at (InEntry entry) trans c else c,
          []).
Proof.
  intros [e He]. unfold RemovePendingTransactionFromEntry, queued_in_entry, remove_at.
  run_monad. rewrite He. simpl. by case_bool_decide.
Qed.

Lemma erase_matching_existsb (trans : Transaction) (q : list WorkItem) :
  non_null (erase_matching trans q) = existsb (fun w => Matches w trans) q.
Proof.
  induction q as [|w q IH]; [done|]. simpl.
  destruct (Matches w trans); [done|]. simpl. rewrite <- IH.
  by destruct (erase_matching trans q).
Qed.

Lemma RemovePendingTransactionFromPendingOp_spec (pending_op : OpId)
    (trans : Transaction) (c : HttpCache) (p : PendingOp) :
  ops c !! pending_op = Some p ->
  is_Some (op_writer p) ->
  RemovePendingTransactionFromPendingOp pending_op trans c =
    Some (waits_in_op c trans pending_op,
          if waits_in_op c trans pending_op
          then remove_at (InPendingOp pending_op) trans c else c,
          []).
Proof.
  intros Hp [w Hw].
  unfold RemovePendingTransactionFromPendingOp, waits_in_op, remove_at, removed_from_op.
  run_monad. rewrite Hp. simpl. rewrite Hw. simpl.
  destruct (Matches w trans); [done|]. simpl.
  rewrite <- erase_matching_existsb.
  by destruct (erase_matching trans (op_pending_queue p)).
Qed.

Lemma remove_from_doomed_spec (trans : Transaction) (c : HttpCache) (ks : list EntryId) :
  (forall i, i ∈ ks -> is_Some (entries c !! i)) ->
  exists found,
    remove_from_doomed ks trans false c =
      Some (found,
            match List.find (queued_in_entry c trans) ks with
            | Some i => remove_at (InEntry i) trans c
            | None => c
            end, []).
Proof.
  induction ks as [|k ks IH]; intros Hks.
  - by exists false.
  - simpl. unfold bind at 1.
    rewrite RemovePendingTransactionFromEntry_spec by (apply Hks; left).
    destruct (queued_in_entry c trans k) eqn:Hq.
    + exists true. by destruct ks.
    + destruct IH as (found & IH); [intros i Hi; apply Hks; by right|].
      exists found. by rewrite IH.
Qed.

(** C6, as the code has it.  [RemovePendingTransaction] makes no call on a
    collaborator and takes the transaction out of the first place that holds
    it, the places being tried in this order: the pending queue of the active
    entry of its key; the backend-creation gate (the pending operation of the
    empty key), only while the backend is being built; the pending operation
    of its key; the pending queues of the doomed entries.  In a queue the
    first occurrence goes; the lead item of a pending operation stays in
    place and only loses its transaction and its out-slot
    ([removed_from_op]). *)
Theorem RemovePendingTransaction_search (trans : Transaction) (c : HttpCache) :
  pointers_valid c ->
  RemovePendingTransaction trans c =
    Some (tt, remove_at (where_is c trans) trans c, []).
Proof.
  intros (Hactive & Hdoomed & Hops).
  unfold RemovePendingTransaction, where_is, in_active_entry, in_gate, in_key_op,
    in_doomed.
  cbv beta iota zeta delta [bind get ret].
  assert (Hentry : forall (x : option EntryId) rest,
    (forall i, x = Some i -> is_Some (entries c !! i)) ->
    exists found : bool,
      match x with
      | Some i => RemovePendingTransactionFromEntry i trans
      | None => fun c0 : HttpCache => Some (false, c0, @nil Event)
      end c =
      Some (found, if found then remove_at (first_found (look_in_entry c trans x :: rest)) trans c
                   else c, []) /\
      (found = false -> first_found (look_in_entry c trans x :: rest) = first_found rest)).
  { intros [i|] rest Hi; simpl.
    - rewrite RemovePendingTransactionFromEntry_spec by (by apply Hi).
      exists (queued_in_entry c trans i).
      destruct (queued_in_entry c trans i); split; done.
    - exists false. split; done. }
  assert (Hop : forall (x : option OpId) rest,
    (forall j, x = Some j -> exists p, ops c !! j = Some p /\ is_Some (op_writer p)) ->
    exists found : bool,
      match x with
      | Some j => RemovePendingTransactionFromPendingOp j trans
      | None => fun c0 : HttpCache => Some (false, c0, @nil Event)
      end c =
      Some (found, if found then remove_at (first_found (look_in_op c trans x :: rest)) trans c
                   else c, []) /\
      (found = false -> first_found (look_in_op c trans x :: rest) = first_found rest)).
  { intros [j|] rest Hj; simpl.
    - destruct (Hj j eq_refl) as (p & Hp & Hw).
      rewrite (RemovePendingTransactionFromPendingOp_spec j trans c p Hp Hw).
      exists (waits_in_op c trans j).
      destruct (waits_in_op c trans j); split; done.
    - exists false. split; done. }
  edestruct (Hentry (active_entries_ c !! trans_key trans)) as (f1 & -> & Hf1);
    [intros i Hi; eapply Hactive, Hi|].
  destruct f1; [reflexivity|]. rewrite (Hf1 eq_refl). clear Hf1.
  destruct (building_backend_ c).
  - edestruct (Hop (pending_ops_ c !! empty_key)) as (f2 & -> & Hf2);
      [intros j Hj; eapply Hops, Hj|].
    destruct f2; [reflexivity|]. rewrite (Hf2 eq_refl). clear Hf2.
    edestruct (Hop (pending_ops_ c !! trans_key trans)) as (f3 & -> & Hf3);
      [intros j Hj; eapply Hops, Hj|].
    destruct f3; [reflexivity|]. rewrite (Hf3 eq_refl). clear Hf3.
    destruct (remove_from_doomed_spec trans c (doomed_entries_ c) Hdoomed)
      as (f4 & ->). simpl.
    by destruct (List.find _ _).
  - change (first_found (None :: ?r)) with (first_found r). cbv beta iota.
    edestruct (Hop (pending_ops_ c !! trans_key trans)) as (f3 & -> & Hf3);
      [intros j Hj; eapply Hops, Hj|].
    destruct f3; [reflexivity|]. rewrite (Hf3 eq_refl). clear Hf3.
    destruct (remove_from_doomed_spec trans c (doomed_entries_ c) Hdoomed)
      as (f4 & ->). simpl.
    by destruct (List.find _ _).
Qed.

(** *** Requests *)

Local Arguments DeletePendingOp : simpl never.
Local Arguments OnIOComplete_notify : simpl never.

(** The pending operation a request allocates is not yet in the registry. *)
Definition next_op_fresh (c : HttpCache) : Prop :=
  forall k, pending_ops_ c !! k <> Some (next_op c).

(** C8, as the code has it.  [GetBackend] answers OK and hands out the
    backend when the backend is live.  Otherwise it answers ERR_FAILED when
    there is no factory; ERR_IO_PENDING, the request being queued at the gate,
    when the creation of the backend is under way; and else it calls the
    factory and answers what the factory answers: ERR_IO_PENDING when the
    factory completes later, and the result of the factory when it completes
    at once, the backend slot being written before the return and the
    callback of the caller not being run. *)
Theorem GetBackend_answers (backend : BackendSlot) (callback : UserCallback)
    (rv : Z) (b : option Backend) (c : HttpCache) :
  (forall d, disk_cache_ c = Some d ->
     GetBackend backend callback rv b c = Some (OK, c, [EvSetBackend backend (Some d)]))
  /\
  (disk_cache_ c = None -> backend_factory_ c = false ->
     GetBackend backend callback rv b c = Some (ERR_FAILED, c, []))
  /\
  (forall j p,
     disk_cache_ c = None -> backend_factory_ c = true ->
     pending_ops_ c !! empty_key = Some j -> ops c !! j = Some p ->
     is_Some (op_writer p) ->
     GetBackend backend callback rv b c =
       Some (ERR_IO_PENDING,
             with_ops (<[j := set_op_pending_queue
                                (op_pending_queue p ++
                                 [mkWorkItem WI_CREATE_BACKEND None None
                                             (Some callback) (Some backend)]) p]>
                         (ops c))
               (with_building_backend true c), []))
  /\
  (disk_cache_ c = None -> backend_factory_ c = true ->
   pending_ops_ c !! empty_key = None -> next_op_fresh c ->
   exists c',
     GetBackend backend callback rv b c =
       Some (rv, c',
             EvFactoryCreateBackend (next_op c) ::
             (if rv =? ERR_IO_PENDING then [] else [EvSetBackend backend b]))
     /\ (rv = ERR_IO_PENDING ->
           building_backend_ c' = true /\
           pending_ops_ c' !! empty_key = Some (next_op c) /\
           ops c' !! next_op c =
             Some (mkPendingOp None b
                     (Some (mkWorkItem WI_CREATE_BACKEND None None
                                       (Some callback) (Some backend)))
                     true []))
     /\ (rv <> ERR_IO_PENDING ->
           building_backend_ c' = false /\ backend_factory_ c' = false /\
           disk_cache_ c' = (if rv =? OK then b else None) /\
           pending_ops_ c' !! empty_key = None /\
           ops c' !! next_op c = None)).
Proof.
  split; [|split; [|split]].
  - intros d Hd. unfold GetBackend. run_monad. by rewrite Hd.
  - intros Hd Hf. unfold GetBackend, CreateBackend. run_monad. by rewrite Hd, Hf.
  - intros j p Hd Hf Hj Hp [w Hw]. unfold GetBackend, CreateBackend, GetPendingOp.
    run_monad. rewrite Hd, Hf. simpl. rewrite Hj. simpl. rewrite Hp. simpl.
    rewrite Hw. reflexivity.
  - intros Hd Hf Hnone Hfresh.
    unfold GetBackend, CreateBackend, GetPendingOp, issue. run_monad.
    rewrite Hd, Hf. simpl. rewrite Hnone. simpl. run_lookups.
    destruct (Z.eqb_spec rv ERR_IO_PENDING) as [Hrv|Hrv]; simpl.
    + eexists. split; [reflexivity|]. split; [|done]. intros _. simpl.
      by rewrite !lookup_insert_eq.
    + run_lookups.
      unfold BackendCallback_Run, OnIOComplete. run_monad. run_lookups.
      unfold OnBackendCreated, DoCallback, NotifyTransaction. run_monad.
      run_lookups. rewrite Hf. simpl. run_lookups.
      assert (Hdel : forall c0 p0,
        pending_ops_ c0 = <[empty_key := next_op c]> (pending_ops_ c) ->
        ops c0 !! next_op c = Some p0 -> op_disk_entry p0 = None ->
        DeletePendingOp (next_op c) c0 =
          Some (tt, with_ops (delete (next_op c) (ops c0))
                      (with_pending_ops (delete empty_key (pending_ops_ c0)) c0), [])).
      { intros c0 p0 Hc0 Hp0 Hde. apply DeletePendingOp_registered with (p := p0);
          [done|].
        unfold op_registered. rewrite Hc0, Hde.
        split; [by rewrite lookup_insert_eq|]. split; [|done]. intros k Hk.
        destruct (decide (k = empty_key)) as [|Hne]; [done|].
        rewrite lookup_insert_ne in Hk by done. by apply Hfresh in Hk. }
      destruct (Z.eqb_spec rv OK) as [Hok|Hok]; simpl; run_lookups;
        (erewrite Hdel; [|reflexivity|simpl; rewrite lookup_insert_eq; reflexivity|reflexivity]);
        simpl; (eexists; split; [reflexivity|]); (split; [done|]); intros _; simpl;
        rewrite !lookup_delete_eq; done.
Qed.

(** What the backend may hand back for a request on [key]: an entry when it
    answers OK, and never the entry of another key. *)
Definition backend_answer (key : string) (rv : Z) (d : option DiskEntry) : Prop :=
  (rv = OK -> is_Some d) /\ (forall de, d = Some de -> de_key de = key).

(** The state [issue] leaves when the request on [key], put by [item] on the
    new operation [j], completes at once with [rv]. *)
Definition completed_at_once (key : string) (rv : Z) (d : option DiskEntry)
    (c c' : HttpCache) : Prop :=
  pending_ops_ c' !! key = None /\
  ops c' !! next_op c = None /\
  (rv = OK ->
     exists de, d = Some de /\
       active_entries_ c' !! key = Some (next_entry c) /\
       entries c' !! next_entry c = Some (new_ActiveEntry de)) /\
  (rv <> OK -> active_entries_ c' = active_entries_ c /\ entries c' = entries c).

Lemma issue_entry_request (opn : WorkItemOperation) (key : string) (slot : EntrySlot)
    (trans : Transaction) (call : Event) (rv : Z) (d : option DiskEntry)
    (c c0 : HttpCache) :
  opn = WI_OPEN_ENTRY \/ opn = WI_CREATE_ENTRY ->
  next_op_fresh c ->
  backend_answer key rv d ->
  c0 = with_pending_ops (<[key := next_op c]> (pending_ops_ c))
         (with_next_op (S (next_op c))
            (with_ops (<[next_op c := new_PendingOp]> (ops c)) c)) ->
  let item := mkWorkItem opn (Some trans) (Some slot) None None in
  exists c',
    issue (next_op c) new_PendingOp item call (set_op_disk_entry d)
          ClearTransaction rv c0 =
      Some (rv, c',
            call :: (if rv =? ERR_IO_PENDING then []
                     else [EvSetEntry slot (if rv =? OK then Some (next_entry c)
                                            else None)]))
    /\ (rv = ERR_IO_PENDING ->
          pending_ops_ c' !! key = Some (next_op c) /\
          ops c' !! next_op c = Some (mkPendingOp d None (Some item) true []))
    /\ (rv <> ERR_IO_PENDING -> completed_at_once key rv d c c').
Proof.
  intros Hopn Hfresh [Hok Hkey] -> item. subst item.
  unfold issue. run_monad. run_lookups.
  destruct (Z.eqb_spec rv ERR_IO_PENDING) as [Hrv|Hrv]; simpl.
  { eexists. split; [reflexivity|]. split; [|done]. intros _. simpl.
    by rewrite !lookup_insert_eq. }
  run_lookups.
  unfold BackendCallback_Run, OnIOComplete. run_monad. run_lookups.
  assert (Hdel : forall c0 p0,
    pending_ops_ c0 = <[key := next_op c]> (pending_ops_ c) ->
    ops c0 !! next_op c = Some p0 -> op_disk_entry p0 = d \/ op_disk_entry p0 = None ->
    DeletePendingOp (next_op c) c0 =
      Some (tt, with_ops (delete (next_op c) (ops c0))
                  (with_pending_ops (delete key (pending_ops_ c0)) c0), [])).
  { intros c0 p0 Hc0 Hp0 Hde. apply DeletePendingOp_registered with (p := p0);
      [done|].
    unfold op_registered. rewrite Hc0.
    split; [by rewrite lookup_insert_eq|]. split.
    - intros k Hk. destruct (decide (k = key)) as [|Hne]; [done|].
      rewrite lookup_insert_ne in Hk by done. by apply Hfresh in Hk.
    - intros de Hd'. left. apply Hkey. destruct Hde as [Hde|Hde]; congruence. }
  assert (Hnb : bool_decide (opn = WI_CREATE_BACKEND) = false)
    by (destruct Hopn; subst; reflexivity).
  rewrite Hnb.
  unfold OnIOComplete_settle, OnIOComplete_outcome, ActivateEntry,
    OnIOComplete_notify, NotifyTransaction.
  run_monad.
  assert (Hnd : bool_decide (opn = WI_DOOM_ENTRY) = false)
    by (destruct Hopn; subst; reflexivity).
  rewrite Hnd.
  destruct (Z.eqb_spec rv OK) as [Hrvok|Hrvok]; simpl; run_lookups.
  - destruct (Hok Hrvok) as (de & ->). simpl. run_lookups.
    erewrite Hdel; [|reflexivity|simpl; rewrite lookup_insert_eq; reflexivity|by left].
    simpl. eexists. split; [reflexivity|]. split; [done|]. intros _.
    unfold completed_at_once. simpl.
    rewrite !lookup_delete_eq. rewrite (Hkey de eq_refl).
    rewrite !lookup_insert_eq. split; [done|]. split; [done|].
    split; [|done]. intros _. by exists de.
  - erewrite Hdel; [|reflexivity|simpl; rewrite lookup_insert_eq; reflexivity|by left].
    simpl. eexists. split; [reflexivity|]. split; [done|]. intros _.
    unfold completed_at_once. simpl.
    rewrite !lookup_delete_eq. done.
Qed.

(** C7, as the code has it.  [OpenEntry] answers OK and hands out the
    entry when the key has an active entry.  Otherwise [OpenEntry] makes an
    OPEN_ENTRY work item and [CreateEntry] a CREATE_ENTRY work item, and
    (a) with a pending operation under way for the key the item is appended
        to its queue and the answer is ERR_IO_PENDING;
    (b) with none, the item becomes the lead of a new pending operation, the
        backend is called, and the answer is that of the backend:
        ERR_IO_PENDING when the backend completes later (the operation stays
        registered and the transaction is notified then), and the result of
        the backend when it completes at once; in that case the operation is
        finished before the return, the out-slot is written (with the new
        active entry on OK) and the callback of the transaction is not
        run. *)
Local Arguments issue : simpl never.

Theorem OpenEntry_CreateEntry_answers (key : string) (slot : EntrySlot)
    (trans : Transaction) (rv : Z) (d : option DiskEntry) (c : HttpCache) :
  let open_item := mkWorkItem WI_OPEN_ENTRY (Some trans) (Some slot) None None in
  let create_item := mkWorkItem WI_CREATE_ENTRY (Some trans) (Some slot) None None in
  let queued j p item :=
    Some (ERR_IO_PENDING,
          with_ops (<[j := set_op_pending_queue (op_pending_queue p ++ [item]) p]>
                      (ops c)) c, @nil Event) in
  let answered :=
    if rv =? ERR_IO_PENDING then []
    else [EvSetEntry slot (if rv =? OK then Some (next_entry c) else None)] in
  let issued c' item :=
    (rv = ERR_IO_PENDING ->
       pending_ops_ c' !! key = Some (next_op c) /\
       ops c' !! next_op c = Some (mkPendingOp d None (Some item) true [])) /\
    (rv <> ERR_IO_PENDING -> completed_at_once key rv d c c') in
  (forall e, active_entries_ c !! key = Some e ->
     OpenEntry key slot trans rv d c = Some (OK, c, [EvSetEntry slot (Some e)]))
  /\
  (forall j p,
     pending_ops_ c !! key = Some j -> ops c !! j = Some p ->
     is_Some (op_writer p) ->
     (active_entries_ c !! key = None ->
        OpenEntry key slot trans rv d c = queued j p open_item) /\
     CreateEntry key slot trans rv d c = queued j p create_item)
  /\
  (pending_ops_ c !! key = None -> is_Some (disk_cache_ c) ->
   next_op_fresh c -> backend_answer key rv d ->
   (active_entries_ c !! key = None ->
      exists c',
        OpenEntry key slot trans rv d c =
          Some (rv, c', EvBackendOpenEntry key (next_op c) :: answered) /\
        issued c' open_item) /\
   (exists c',
      CreateEntry key slot trans rv d c =
        Some (rv, c', EvBackendCreateEntry key (next_op c) :: answered) /\
      issued c' create_item)).
Proof.
  intros open_item create_item queued answered issued.
  split; [|split].
  - intros e He. unfold OpenEntry, FindActiveEntry. run_monad. by rewrite He.
  - intros j p Hj Hp [w Hw]. split.
    + intros Hnone. unfold OpenEntry, FindActiveEntry, GetPendingOp. run_monad.
      rewrite Hnone. simpl. rewrite Hj. simpl. rewrite Hp. simpl. by rewrite Hw.
    + unfold CreateEntry, GetPendingOp. run_monad.
      rewrite Hj. simpl. rewrite Hp. simpl. by rewrite Hw.
  - intros Hnone [b Hb] Hfresh Hanswer. split.
    + intros Hactive.
      destruct (issue_entry_request WI_OPEN_ENTRY key slot trans
                  (EvBackendOpenEntry key (next_op c)) rv d c _
                  (or_introl eq_refl) Hfresh Hanswer eq_refl)
        as (c' & Hissue & Hissued).
      exists c'. split; [|exact Hissued].
      unfold OpenEntry, FindActiveEntry, GetPendingOp.
      cbv beta iota zeta delta [bind get ret modify load_op deref].
      rewrite Hactive, Hnone. simpl. rewrite lookup_insert_eq. simpl.
      rewrite Hb. simpl. rewrite Hissue. reflexivity.
    + destruct (issue_entry_request WI_CREATE_ENTRY key slot trans
                  (EvBackendCreateEntry key (next_op c)) rv d c _
                  (or_intror eq_refl) Hfresh Hanswer eq_refl)
        as (c' & Hissue & Hissued).
      exists c'. split; [|exact Hissued].
      unfold CreateEntry, GetPendingOp.
      cbv beta iota zeta delta [bind get ret modify load_op deref].
      rewrite Hnone. simpl. rewrite lookup_insert_eq. simpl.
      rewrite Hb. simpl. rewrite Hissue. reflexivity.
Qed.

(** *** Invariant A *)

Lemma reachable_run_calls (calls : list Call) :
  forall c c' evs,
    reachable c -> run_calls calls c = Some (tt, c', evs) -> reachable c'.
Proof.
  induction calls as [|call rest IH]; intros c c' evs Hc; simpl.
  - by intros [= <- _].
  - unfold bind. destruct (perform call c) as [[[[] c1] ev1]|] eqn:Hcall; [|done].
    destruct (run_calls rest c1) as [[[[] c2] ev2]|] eqn:Hrest; [|done].
    intros [= <- _]. eapply IH; [|exact Hrest].
    eapply reachable_call; [exact Hc|exact Hcall].
Qed.

Lemma keeps_ret {A} (a : A) (Q : A -> Prop) : Q a -> keeps (ret a) Q.
Proof. intros Ha c a' c' evs Hc [= <- <- _]. done. Qed.

Lemma keeps_bind {A B} (m : M A) (f : A -> M B) (Q : A -> Prop) (R : B -> Prop) :
  keeps m Q -> (forall a, Q a -> keeps (f a) R) -> keeps (bind m f) R.
Proof.
  intros Hm Hf c b c' evs Hc. unfold bind.
  destruct (m c) as [[[a c1] ev1]|] eqn:Hmc; [|done].
  destruct (Hm _ _ _ _ Hc Hmc) as [Hc1 Ha].
  destruct (f a c1) as [[[b' c2] ev2]|] eqn:Hfa; [|done].
  intros [= <- <- _]. exact (Hf a Ha _ _ _ _ Hc1 Hfa).
Qed.

Lemma keeps_get (Q : HttpCache -> Prop) :
  (forall c, InvariantA c -> Q c) -> keeps get Q.
Proof. intros HQ c a c' evs Hc [= <- <- _]. auto. Qed.

Lemma keeps_modify (f : HttpCache -> HttpCache) (Q : unit -> Prop) :
  (forall c, InvariantA c -> InvariantA (f c)) -> Q tt -> keeps (modify f) Q.
Proof. intros Hf HQ c a c' evs Hc [= <- <- _]. auto. Qed.

Lemma keeps_emit (e : Event) (Q : unit -> Prop) : Q tt -> keeps (emit e) Q.
Proof. intros HQ c a c' evs Hc [= <- <- _]. auto. Qed.

Lemma keeps_undefined {A} (Q : A -> Prop) : keeps undefined Q.
Proof. intros c a c' evs Hc [=]. Qed.

Lemma keeps_deref {A} (p : option A) (Q : A -> Prop) :
  (forall a, p = Some a -> Q a) -> keeps (deref p) Q.
Proof. intros HQ c a c' evs Hc. destruct p; [|done]. intros [= <- <- _]. auto. Qed.

Lemma keeps_when (b : bool) (m : M unit) (Q : unit -> Prop) :
  keeps m Q -> Q tt -> keeps (when b m) Q.
Proof. intros Hm HQ. destruct b; [done|]. by apply keeps_ret. Qed.

Lemma keeps_load_entry (i : EntryId) (Q : ActiveEntry -> Prop) :
  (forall e, entry_ok e -> Q e) -> keeps (load_entry i) Q.
Proof.
  intros HQ c a c' evs Hc. unfold load_entry. run_monad.
  destruct (entries c !! i) as [e|] eqn:He; [|done].
  intros [= <- <- _]. split; [done|]. apply HQ. by apply (Hc i).
Qed.

Lemma InvariantA_insert (i : EntryId) (v : ActiveEntry) (c c' : HttpCache) :
  entries c' = <[i := v]> (entries c) -> entry_ok v -> InvariantA c -> InvariantA c'.
Proof.
  intros Hc' Hv Hc j e. rewrite Hc'.
  destruct (decide (i = j)) as [<-|Hne].
  - rewrite lookup_insert_eq. by intros [= <-].
  - rewrite lookup_insert_ne by done. apply Hc.
Qed.

Lemma InvariantA_delete (i : EntryId) (c c' : HttpCache) :
  entries c' = delete i (entries c) -> InvariantA c -> InvariantA c'.
Proof.
  intros Hc' Hc j e. rewrite Hc'. intros [_ He]%lookup_delete_Some. by apply (Hc j).
Qed.

Lemma keeps_store_entry (i : EntryId) (v : ActiveEntry) (Q : unit -> Prop) :
  entry_ok v -> Q tt -> keeps (store_entry i v) Q.
Proof.
  intros Hv HQ. apply keeps_modify; [|done]. intros c Hc.
  by apply (InvariantA_insert i v c).
Qed.

Lemma keeps_load_op (j : OpId) (Q : PendingOp -> Prop) :
  (forall p, Q p) -> keeps (load_op j) Q.
Proof.
  intros HQ c a c' evs Hc. unfold load_op. run_monad.
  destruct (ops c !! j); [|done]. intros [= <- <- _]. auto.
Qed.

Lemma keeps_store_op (j : OpId) (v : PendingOp) (Q : unit -> Prop) :
  Q tt -> keeps (store_op j v) Q.
Proof. intros HQ. apply keeps_modify; [|done]. intros c Hc. exact Hc. Qed.

Lemma keeps_PostTask (t : Task) (Q : unit -> Prop) : Q tt -> keeps (PostTask t) Q.
Proof. intros HQ. apply keeps_modify; [|done]. intros c Hc. exact Hc. Qed.

Create HintDb keeps.

(** The transactions and the embedder act on the cache through its
    operations only, so what they do in a callback keeps the invariant. *)
Hypothesis react_keeps : forall ev c, InvariantA c -> InvariantA (react ev c).

Ltac solve_entry_ok :=
  unfold entry_ok in *; simpl in *; use_tests;
  repeat match goal with
  | H : non_null ?w = false |- _ => destruct w; [discriminate H|clear H]
  | H : non_null ?w = true |- _ => destruct w; [clear H|discriminate H]
  end;
  simpl in *; intros; try congruence; try done; try (intuition congruence).

Ltac keeps_leaf :=
  let H := fresh "Hinv" in
  first
  [ apply keeps_undefined
  | exact (keeps_ret _ (fun _ => True) I)
  | apply keeps_get; first [intros ? H; exact H | intros; exact I]
  | exact (keeps_emit _ (fun _ => True) I)
  | apply keeps_deref; first [intros ? H; exact H | intros; exact I]
  | apply keeps_load_entry; first [intros ? H; exact H | intros; exact I]
  | apply keeps_load_op; intros; exact I
  | exact (keeps_store_op _ _ (fun _ => True) I)
  | exact (keeps_PostTask _ (fun _ => True) I)
  | apply (fun H => keeps_store_entry _ _ (fun _ => True) H I); solve [solve_entry_ok]
  | apply (fun H => keeps_modify _ (fun _ => True) H I);
      intros ? H;
      first [exact H
            | eapply InvariantA_insert; [reflexivity | solve [solve_entry_ok] | exact H]
            | eapply InvariantA_delete; [reflexivity | exact H]
            | apply react_keeps; exact H]
  | solve [eauto with keeps] ].

Ltac keeps_step :=
  match goal with
  | |- keeps (bind _ _) _ => eapply keeps_bind; [|intros ? ?]
  | |- keeps (when _ _) _ => apply (fun H => keeps_when _ _ (fun _ => True) H I)
  | |- keeps (if ?b then _ else _) _ => destruct b eqn:?
  | |- keeps (match ?x with _ => _ end) _ => destruct x eqn:?
  | |- _ => keeps_leaf
  end.

Ltac keeps_auto := cbv zeta; repeat keeps_step.

Abbreviation keeps_ m := (keeps m (fun _ => True)).

Lemma keeps_update_entry i f :
  (forall e, entry_ok e -> entry_ok (f e)) -> keeps_ (update_entry i f).
Proof. intros Hf. unfold update_entry. keeps_auto. apply keeps_store_entry; auto. Qed.

Lemma keeps_update_op j f : keeps_ (update_op j f).
Proof. unfold update_op. keeps_auto. Qed.

Lemma keeps_Run t r : keeps_ (Run t r).
Proof. unfold Run. keeps_auto. Qed.

Lemma keeps_UserRun cb r : keeps_ (UserRun cb r).
Proof. unfold UserRun. keeps_auto. Qed.

Local Hint Resolve keeps_update_op keeps_Run keeps_UserRun : keeps.

Lemma keeps_NotifyTransaction w r e : keeps_ (NotifyTransaction w r e).
Proof. unfold NotifyTransaction. keeps_auto. Qed.

Lemma keeps_DoCallback w r b : keeps_ (DoCallback w r b).
Proof. unfold DoCallback. keeps_auto. Qed.

Lemma keeps_FindActiveEntry k : keeps_ (FindActiveEntry k).
Proof. unfold FindActiveEntry. keeps_auto. Qed.

Lemma keeps_ActivateEntry k d : keeps_ (ActivateEntry k d).
Proof. unfold ActivateEntry. keeps_auto. Qed.

Lemma keeps_delete_entry i : keeps_ (delete_entry i).
Proof. unfold delete_entry. keeps_auto. Qed.

Local Hint Resolve keeps_NotifyTransaction keeps_DoCallback keeps_FindActiveEntry
  keeps_ActivateEntry keeps_delete_entry : keeps.

Lemma keeps_DestroyEntry i : keeps_ (DestroyEntry i).
Proof.
  unfold DestroyEntry, FinalizeDoomedEntry, DeactivateEntry, SlowDeactivateEntry.
  keeps_auto.
Qed.

Lemma keeps_GetPendingOp k : keeps_ (GetPendingOp k).
Proof. unfold GetPendingOp. keeps_auto. Qed.

Lemma keeps_DeletePendingOp j : keeps_ (DeletePendingOp j).
Proof. unfold DeletePendingOp. keeps_auto. Qed.

Lemma keeps_ProcessPendingQueue i : keeps_ (ProcessPendingQueue i).
Proof. unfold ProcessPendingQueue. keeps_auto. Qed.

Local Hint Resolve keeps_DestroyEntry keeps_GetPendingOp keeps_DeletePendingOp
  keeps_ProcessPendingQueue : keeps.

Lemma keeps_AddTransactionToEntry i t : keeps_ (AddTransactionToEntry i t).
Proof. unfold AddTransactionToEntry. keeps_auto. Qed.

Lemma keeps_run_all q r : keeps_ (run_all q r).
Proof. induction q; simpl; keeps_auto. Qed.

Local Hint Resolve keeps_AddTransactionToEntry keeps_run_all : keeps.

Lemma keeps_DoneWritingToEntry i success : keeps_ (DoneWritingToEntry i success).
Proof.
  unfold DoneWritingToEntry. keeps_auto.
  all: try (apply keeps_update_entry; intros; solve_entry_ok).
Qed.

Lemma keeps_DoneReadingFromEntry i t : keeps_ (DoneReadingFromEntry i t).
Proof.
  unfold DoneReadingFromEntry. keeps_auto.
  apply (fun H => keeps_store_entry _ _ (fun _ => True) H I).
  unfold entry_ok in *. simpl. intros Hw.
  match goal with H : _ -> readers _ = [] |- _ => by rewrite (H Hw) end.
Qed.

Local Hint Resolve keeps_DoneWritingToEntry keeps_DoneReadingFromEntry : keeps.

Lemma keeps_DoneWithEntry i t cancel : keeps_ (DoneWithEntry i t cancel).
Proof. unfold DoneWithEntry. keeps_auto. Qed.

Lemma keeps_ConvertWriterToReader i : keeps_ (ConvertWriterToReader i).
Proof. unfold ConvertWriterToReader. keeps_auto. Qed.

Lemma keeps_OnProcessPendingQueue i : keeps_ (OnProcessPendingQueue i).
Proof.
  unfold OnProcessPendingQueue. keeps_auto.
  all: try (apply keeps_update_entry; intros; solve_entry_ok).
Qed.

Local Hint Resolve keeps_DoneWithEntry keeps_ConvertWriterToReader
  keeps_OnProcessPendingQueue : keeps.

Lemma keeps_RemovePendingTransactionFromEntry i t :
  keeps_ (RemovePendingTransactionFromEntry i t).
Proof. unfold RemovePendingTransactionFromEntry. keeps_auto. Qed.

Lemma keeps_RemovePendingTransactionFromPendingOp j t :
  keeps_ (RemovePendingTransactionFromPendingOp j t).
Proof. unfold RemovePendingTransactionFromPendingOp. keeps_auto. Qed.

Local Hint Resolve keeps_RemovePendingTransactionFromEntry
  keeps_RemovePendingTransactionFromPendingOp : keeps.

Lemma keeps_remove_from_doomed ks t found : keeps_ (remove_from_doomed ks t found).
Proof. revert found. induction ks; intros found; simpl; keeps_auto. Qed.

Local Hint Resolve keeps_remove_from_doomed : keeps.

Lemma keeps_RemovePendingTransaction t : keeps_ (RemovePendingTransaction t).
Proof. unfold RemovePendingTransaction. keeps_auto. Qed.

Lemma keeps_OnBackendCreated r j : keeps_ (OnBackendCreated r j).
Proof. unfold OnBackendCreated. keeps_auto. Qed.

Lemma keeps_notify_queued op r k item fail entry :
  keeps_ (notify_queued op r k item fail entry).
Proof. unfold notify_queued. keeps_auto. Qed.

Local Hint Resolve keeps_RemovePendingTransaction keeps_OnBackendCreated
  keeps_notify_queued : keeps.

Lemma keeps_notify_pending_items op r k items fail entry :
  keeps_ (notify_pending_items op r k items fail entry).
Proof. revert fail entry. induction items; intros fail entry; simpl; keeps_auto. Qed.

Local Hint Resolve keeps_notify_pending_items : keeps.

Lemma keeps_OnIOComplete r j : keeps_ (OnIOComplete r j).
Proof.
  unfold OnIOComplete, OnIOComplete_settle, OnIOComplete_outcome, OnIOComplete_notify.
  keeps_auto.
Qed.

Local Hint Resolve keeps_OnIOComplete : keeps.

Lemma keeps_issue j p item call fill clear rv :
  keeps_ (issue j p item call fill clear rv).
Proof. unfold issue, BackendCallback_Run. keeps_auto. Qed.

Local Hint Resolve keeps_issue : keeps.

Lemma keeps_CreateBackend backend callback rv b :
  keeps_ (CreateBackend backend callback rv b).
Proof. unfold CreateBackend. keeps_auto. Qed.

Local Hint Resolve keeps_CreateBackend : keeps.

Lemma keeps_AsyncDoomEntry k t rv : keeps_ (AsyncDoomEntry k t rv).
Proof. unfold AsyncDoomEntry. keeps_auto. Qed.

Local Hint Resolve keeps_AsyncDoomEntry : keeps.

Lemma keeps_perform call : keeps_ (perform call).
Proof.
  destruct call; unfold perform, set_mode, GetBackend, CreateTransaction,
    GetBackendForTransaction, GenerateCacheKey, OpenEntry, CreateEntry, DoomEntry,
    backend_completes, BackendCallback_Run, run_task;
    keeps_auto.
Qed.

Lemma keeps_run_calls calls : keeps_ (run_calls calls).
Proof.
  induction calls as [|call rest IH]; simpl; [keeps_auto|].
  eapply keeps_bind; [apply keeps_perform|]. intros _ _. exact IH.
Qed.

(** C2.  Invariant A: an entry that has a writer has no reader.  It holds
    of every entry, active or doomed, of every cache that can be reached from
    a new one, and each of the operations that write the writer or the
    readers of an entry ([AddTransactionToEntry], [DoneWithEntry],
    [ConvertWriterToReader], the drain [OnProcessPendingQueue]) keeps it. *)
Theorem invariant_A :
  (forall c, reachable c ->
     InvariantA c /\
     forall key i e,
       active_entries_ c !! key = Some i -> entries c !! i = Some e ->
       writer e <> None -> readers e = [])
  /\ (forall entry trans, keeps (AddTransactionToEntry entry trans) (fun _ => True))
  /\ (forall entry trans cancel, keeps (DoneWithEntry entry trans cancel) (fun _ => True))
  /\ (forall entry, keeps (ConvertWriterToReader entry) (fun _ => True))
  /\ (forall entry, keeps (OnProcessPendingQueue entry) (fun _ => True)).
Proof.
  split; [|auto using keeps_AddTransactionToEntry, keeps_DoneWithEntry,
             keeps_ConvertWriterToReader, keeps_OnProcessPendingQueue].
  assert (Hreach : forall c, reachable c -> InvariantA c).
  { induction 1 as [factory|c call c' evs Hc IH Hcall].
    - intros i e. unfold new_HttpCache. simpl. by rewrite lookup_empty.
    - by destruct (keeps_perform call _ _ _ _ IH Hcall). }
  intros c Hc. split; [by apply Hreach|].
  intros key i e _ He. by apply (Hreach c Hc i e).
Qed.

(** ** Further properties of the coordination core *)

(** *** The doomed set and the table of active entries *)

Lemma elem_of_set_insert (x y : nat) (l : list nat) :
  y ∈ set_insert x l <-> y = x \/ y ∈ l.
Proof.
  clear_unused.
  induction l as [|z l IH]; simpl.
  - rewrite elem_of_cons, elem_of_nil. tauto.
  - repeat case_decide; rewrite ?elem_of_cons, ?IH; try subst z; tauto.
Qed.

Lemma erase_first_set_insert (x : nat) (l : list nat) :
  x ∉ l -> erase_first x (set_insert x l) = l.
Proof.
  clear_unused.
  induction l as [|z l IH]; simpl; intros Hx.
  - by rewrite decide_True.
  - apply not_elem_of_cons in Hx as [Hne Hx].
    rewrite (decide_False (P := x = z)) by done.
    case_decide; simpl.
    + by rewrite decide_True.
    + rewrite (decide_False (P := x = z)) by done. by rewrite IH.
Qed.

(** X1.  [DoomEntry] on a key that has an active entry answers OK without
    calling the backend: the disk entry is doomed, the entry leaves the table
    of active entries, so that the key leads to no entry any more, and joins
    the doomed set with its flag set; its writer, readers and pending queue
    stay, and nothing else of the cache changes. *)
Theorem DoomEntry_active (key : string) (trans : Transaction) (rv : Z)
    (c : HttpCache) (entry : EntryId) (e : ActiveEntry) (d : DiskEntry) :
  active_entries_ c !! key = Some entry ->
  entries c !! entry = Some e ->
  disk_entry e = Some d ->
  exists c',
    DoomEntry key trans rv c = Some (OK, c', [EvDoom d])
    /\ FindActiveEntry key c' = Some (None, c', [])
    /\ active_entries_ c' = delete key (active_entries_ c)
    /\ (forall i, i ∈ doomed_entries_ c' <-> i = entry \/ i ∈ doomed_entries_ c)
    /\ entries c' = <[entry := set_doomed true e]> (entries c)
    /\ pending_ops_ c' = pending_ops_ c /\ ops c' = ops c /\ posted c' = posted c
    /\ disk_cache_ c' = disk_cache_ c.
Proof.
  intros Hk He Hd.
  unfold DoomEntry, FindActiveEntry. run_monad. unfold EntryId in *.
  rewrite Hk. simpl. rewrite He. simpl. rewrite Hd. simpl.
  eexists. split; [reflexivity|]. simpl.
  rewrite lookup_delete_eq. split; [done|]. split; [done|].
  split; [intros i; apply elem_of_set_insert|done].
Qed.

(** X2.  A doomed entry is finalised, not deactivated: when the entry that
    [DoomEntry] has just doomed is destroyed, its disk entry is closed, the
    entry leaves the doomed set and the store, and the table of active
    entries is not looked at.  Dooming and destroying an entry thus leaves
    the cache as it was, less the entry and its key. *)
Theorem DoomEntry_then_DestroyEntry (key : string) (trans : Transaction) (rv : Z)
    (c : HttpCache) (entry : EntryId) (e : ActiveEntry) (d : DiskEntry) :
  active_entries_ c !! key = Some entry ->
  entries c !! entry = Some e ->
  disk_entry e = Some d ->
  entry ∉ doomed_entries_ c ->
  (DoomEntry key trans rv ;; DestroyEntry entry) c =
    Some (tt, with_entries (delete entry (entries c))
                (with_active_entries (delete key (active_entries_ c)) c),
          [EvDoom d; EvClose d]).
Proof.
  intros Hk He Hd Hnew.
  unfold DoomEntry, DestroyEntry, FinalizeDoomedEntry, delete_entry. run_monad.
  unfold EntryId in *.
  rewrite Hk. simpl. rewrite He. simpl. rewrite Hd. simpl.
  run_lookups.
  rewrite bool_decide_true by (apply elem_of_set_insert; by left).
  run_lookups. rewrite Hd. simpl.
  rewrite erase_first_set_insert by done.
  rewrite delete_insert_eq. by destruct c.
Qed.

(** X3.  At most one pending operation per key: [GetPendingOp] answers the
    operation registered under the key when there is one, and leaves the
    cache alone; otherwise it registers a new operation with no lead and an
    empty queue.  Asked again for the same key, it answers the same operation
    and changes nothing; the operations of the other keys are not touched. *)
Theorem GetPendingOp_one_per_key (key : string) (c : HttpCache) :
  exists op c1,
    GetPendingOp key c = Some (op, c1, [])
    /\ pending_ops_ c1 !! key = Some op
    /\ GetPendingOp key c1 = Some (op, c1, [])
    /\ (forall op0, pending_ops_ c !! key = Some op0 -> op = op0 /\ c1 = c)
    /\ (pending_ops_ c !! key = None ->
          op = next_op c /\ ops c1 !! op = Some new_PendingOp /\
          next_op c1 = S (next_op c))
    /\ (forall k, k <> key -> pending_ops_ c1 !! k = pending_ops_ c !! k)
    /\ (forall j, j <> op -> ops c1 !! j = ops c !! j).
Proof.
  clear_unused.
  unfold GetPendingOp. run_monad.
  destruct (pending_ops_ c !! key) as [op0|] eqn:Hk.
  - exists op0, c. rewrite Hk. settle_cases.
  - eexists _, _. split; [reflexivity|]. simpl.
    rewrite !lookup_insert_eq. split; [done|]. split; [done|].
    split; [done|]. split; [done|].
    split; intros k Hne; by rewrite lookup_insert_ne.
Qed.

(** X4.  Activation and deactivation are inverse to each other.
    [ActivateEntry] under the key of the disk entry makes a new entry with no
    writer, no reader and an empty queue, which [FindActiveEntry] then
    answers for that key; [DeactivateEntry] closes the disk entry and takes
    the entry out again, also when the disk entry has the empty key and the
    table is searched by address.  The tables are then as before. *)
Theorem ActivateEntry_DeactivateEntry (d : DiskEntry) (c : HttpCache) :
  active_entries_ c !! de_key d = None ->
  (forall k, active_entries_ c !! k <> Some (next_entry c)) ->
  entries c !! next_entry c = None ->
  exists c1,
    ActivateEntry (de_key d) d c = Some (next_entry c, c1, [])
    /\ FindActiveEntry (de_key d) c1 = Some (Some (next_entry c), c1, [])
    /\ entries c1 !! next_entry c = Some (new_ActiveEntry d)
    /\ DeactivateEntry (next_entry c) c1 =
         Some (tt, with_next_entry (S (next_entry c)) c, [EvClose d]).
Proof.
  clear_unused.
  intros Hk Hfresh Hnew.
  unfold ActivateEntry, FindActiveEntry, DeactivateEntry, SlowDeactivateEntry,
    delete_entry.
  run_monad. eexists. split; [reflexivity|]. simpl.
  rewrite !lookup_insert_eq. split; [done|]. split; [done|]. simpl.
  case_bool_decide as Hempty; simpl.
  - destruct (find_by_value_is_Some (next_entry c)
                (<[de_key d := next_entry c]> (active_entries_ c)) (de_key d))
      as (k & Hfind); [by rewrite lookup_insert_eq|].
    rewrite Hfind. simpl. run_lookups.
    apply find_by_value_Some in Hfind.
    destruct (decide (k = de_key d)) as [->|Hne].
    + unfold with_entries, with_active_entries, with_next_entry. simpl.
      rewrite !delete_insert_id by done. by destruct c.
    + rewrite lookup_insert_ne in Hfind by done. by apply Hfresh in Hfind.
  - run_lookups.
    unfold with_entries, with_active_entries, with_next_entry. simpl.
    rewrite !delete_insert_id by done. by destruct c.
Qed.

(** *** The lock of an entry, step by step *)

(** The cache with the entry at [entry] replaced. *)
Definition put_entry (entry : EntryId) (v : ActiveEntry) (c : HttpCache) : HttpCache :=
  with_entries (<[entry := v]> (entries c)) c.

(** Successive arrivals at one entry. *)
Fixpoint add_all (entry : EntryId) (ts : list Transaction) : M (list Z) :=
  match ts with
  | [] => ret []
  | t :: ts' =>
      rv <- AddTransactionToEntry entry t;
      rvs <- add_all entry ts';
      ret (rv :: rvs)
  end.

Lemma put_entry_twice (entry : EntryId) (u v : ActiveEntry) (c : HttpCache) :
  put_entry entry v (put_entry entry u c) = put_entry entry v c.
Proof. unfold put_entry, with_entries. simpl. by rewrite insert_insert_eq. Qed.

Lemma put_entry_same (entry : EntryId) (v : ActiveEntry) (c : HttpCache) :
  entries c !! entry = Some v -> put_entry entry v c = c.
Proof.
  intros H. unfold put_entry, with_entries. rewrite insert_id by done. by destruct c.
Qed.

Lemma AddTransactionToEntry_queued (entry : EntryId) (trans : Transaction)
    (c : HttpCache) (e : ActiveEntry) :
  entries c !! entry = Some e ->
  non_null (writer e) || will_process_pending_queue e = true ->
  AddTransactionToEntry entry trans c =
    Some (ERR_IO_PENDING,
          put_entry entry (set_pending_queue (pending_queue e ++ [trans]) e) c, []).
Proof.
  clear_unused. intros He Hbusy. unfold AddTransactionToEntry. run_monad.
  unfold EntryId in *. rewrite He. simpl. rewrite Hbusy. reflexivity.
Qed.

Lemma AddTransactionToEntry_writer (entry : EntryId) (trans : Transaction)
    (c : HttpCache) (e : ActiveEntry) :
  entries c !! entry = Some e ->
  writer e = None -> will_process_pending_queue e = false ->
  wants_write (trans_mode trans) = true -> readers e = [] ->
  AddTransactionToEntry entry trans c =
    Some (OK, put_entry entry (set_writer (Some trans) e) c, []).
Proof.
  clear_unused. intros He Hw Hwp Hmode Hr.
  unfold AddTransactionToEntry, ProcessPendingQueue. run_monad.
  unfold EntryId in *. rewrite He. simpl. rewrite Hw, Hwp, Hmode, Hr. simpl.
  run_lookups. reflexivity.
Qed.

Lemma AddTransactionToEntry_reader (entry : EntryId) (trans : Transaction)
    (c : HttpCache) (e : ActiveEntry) :
  entries c !! entry = Some e ->
  writer e = None -> will_process_pending_queue e = false ->
  wants_write (trans_mode trans) = false ->
  AddTransactionToEntry entry trans c =
    Some (OK,
          (if bool_decide (pending_queue e = [])
           then put_entry entry (set_readers (readers e ++ [trans]) e) c
           else with_posted (posted c ++ [TaskOnProcessPendingQueue entry])
                  (put_entry entry
                     (set_will_process true (set_readers (readers e ++ [trans]) e)) c)),
          []).
Proof.
  clear_unused. intros He Hw Hwp Hmode.
  unfold AddTransactionToEntry, ProcessPendingQueue. run_monad.
  unfold EntryId in *. rewrite He. simpl. rewrite Hw, Hwp, Hmode. simpl.
  run_lookups. rewrite Hw. simpl.
  case_bool_decide; simpl; [reflexivity|].
  run_lookups. rewrite Hwp. simpl.
  unfold put_entry, with_entries, with_posted. simpl.
  by rewrite insert_insert_eq.
Qed.

(** X5.  Arrivals queue up in arrival order.  While the entry has a writer
    or a drain is scheduled, every transaction that asks for the entry,
    reader or writer, is answered ERR_IO_PENDING and appended to the pending
    queue behind those that came before it; nobody is admitted, no task is
    posted and no callback runs. *)
Theorem AddTransactionToEntry_arrival_order (entry : EntryId) (ts : list Transaction) :
  forall (c : HttpCache) (e : ActiveEntry),
    entries c !! entry = Some e ->
    writer e <> None \/ will_process_pending_queue e = true ->
    add_all entry ts c =
      Some (map (fun _ => ERR_IO_PENDING) ts,
            put_entry entry (set_pending_queue (pending_queue e ++ ts) e) c, []).
Proof.
  clear_unused.
  induction ts as [|t ts IH]; intros c e He Hbusy.
  - simpl. rewrite app_nil_r.
    replace (set_pending_queue (pending_queue e) e) with e by (by destruct e).
    by rewrite put_entry_same.
  - simpl. unfold bind at 1.
    rewrite (AddTransactionToEntry_queued entry t c e He)
      by (destruct Hbusy as [Hw| ->]; [by destruct (writer e)|apply orb_true_r]).
    unfold bind at 1.
    rewrite (IH _ (set_pending_queue (pending_queue e ++ [t]) e)).
    + simpl. rewrite put_entry_twice, <- app_assoc. reflexivity.
    + unfold put_entry. simpl. by rewrite lookup_insert_eq.
    + exact Hbusy.
Qed.

Lemma bind_run {A B} (m : M A) (f : A -> M B) (c c1 : HttpCache) (a : A)
    (ev1 : list Event) :
  m c = Some (a, c1, ev1) ->
  bind m f c = match f a c1 with
               | Some (b, c2, ev2) => Some (b, c2, ev1 ++ ev2)
               | None => None
               end.
Proof. intros H. unfold bind. by rewrite H. Qed.

Lemma run_nil {A} (x : option (A * HttpCache * list Event)) :
  match x with
  | Some (a, c, evs) => Some (a, c, [] ++ evs)
  | None => None
  end = x.
Proof. by destruct x as [[[? ?] ?]|]. Qed.

Lemma load_entry_run (entry : EntryId) (c : HttpCache) (e : ActiveEntry) :
  entries c !! entry = Some e -> load_entry entry c = Some (e, c, []).
Proof. intros He. unfold load_entry. run_monad. unfold EntryId in *. by rewrite He. Qed.

Lemma store_entry_run (entry : EntryId) (v : ActiveEntry) (c : HttpCache) :
  store_entry entry v c = Some (tt, put_entry entry v c, []).
Proof. reflexivity. Qed.

Lemma update_entry_run (entry : EntryId) (f : ActiveEntry -> ActiveEntry)
    (c : HttpCache) (e : ActiveEntry) :
  entries c !! entry = Some e ->
  update_entry entry f c = Some (tt, put_entry entry (f e) c, []).
Proof.
  intros He. unfold update_entry. by rewrite (bind_run _ _ _ _ _ _ (load_entry_run _ _ _ He)).
Qed.

Lemma put_entry_lookup (entry : EntryId) (v : ActiveEntry) (c : HttpCache) :
  entries (put_entry entry v c) !! entry = Some v.
Proof. unfold put_entry. simpl. by rewrite lookup_insert_eq. Qed.

Lemma ProcessPendingQueue_run (entry : EntryId) (c : HttpCache) (e : ActiveEntry) :
  entries c !! entry = Some e ->
  ProcessPendingQueue entry c =
    Some (tt,
          (if will_process_pending_queue e then c
           else with_posted (posted c ++ [TaskOnProcessPendingQueue entry])
                  (put_entry entry (set_will_process true e) c)), []).
Proof.
  intros He. unfold ProcessPendingQueue.
  rewrite (bind_run _ _ _ _ _ _ (load_entry_run _ _ _ He)).
  by destruct (will_process_pending_queue e).
Qed.

Lemma destroyed_put_entry (entry : EntryId) (v e : ActiveEntry) (k : string)
    (c : HttpCache) :
  doomed v = doomed e ->
  destroyed (put_entry entry v c) entry v k = destroyed c entry e k.
Proof.
  intros Hd. unfold destroyed, put_entry, with_entries. rewrite Hd.
  destruct (doomed e); simpl; by rewrite delete_insert_eq.
Qed.

(** Reads a field of an entry that has just been written. *)
Ltac entry_fields :=
  cbn [disk_entry writer readers pending_queue will_process_pending_queue doomed
       set_writer set_readers set_pending_queue set_will_process set_doomed].

Local Arguments AddTransactionToEntry : simpl never.
Local Arguments DestroyEntry : simpl never.
Local Arguments ProcessPendingQueue : simpl never.

(** The drain finds nobody waiting and nobody reading: the entry goes. *)
Lemma OnProcessPendingQueue_destroys (entry : EntryId) (c : HttpCache)
    (e : ActiveEntry) (d : DiskEntry) :
  entries c !! entry = Some e ->
  pending_queue e = [] -> readers e = [] ->
  disk_entry e = Some d ->
  entry_registered c entry e ->
  exists k,
    (doomed e = false -> active_entries_ c !! k = Some entry) /\
    OnProcessPendingQueue entry c = Some (tt, destroyed c entry e k, [EvClose d]).
Proof.
  intros He Hq Hr Hd Hreg.
  destruct (DestroyEntry_registered entry
              (put_entry entry (set_will_process false e) c)
              (set_will_process false e) d) as (k & Hk & Hdestroy).
  { apply put_entry_lookup. }
  { exact Hd. }
  { unfold entry_registered in *. by destruct e. }
  exists k. split; [exact Hk|].
  unfold OnProcessPendingQueue.
  rewrite (bind_run _ _ _ _ _ _ (update_entry_run _ _ _ _ He)).
  rewrite (bind_run _ _ _ _ _ _ (load_entry_run _ _ _ (put_entry_lookup _ _ _))).
  entry_fields. rewrite Hq, Hr.
  rewrite bool_decide_true by done. unfold when.
  rewrite Hdestroy. simpl.
  by rewrite (destroyed_put_entry entry _ e).
Qed.

(** The drain, once it has cleared the flag and read the entry back. *)
Lemma OnProcessPendingQueue_body (entry : EntryId) (c : HttpCache) (e : ActiveEntry) :
  entries c !! entry = Some e ->
  OnProcessPendingQueue entry c =
    match pending_queue e with
    | [] => when (bool_decide (readers e = [])) (DestroyEntry entry)
    | next :: rest =>
        if wants_write (trans_mode next) && negb (bool_decide (readers e = []))
        then ret tt
        else
          store_entry entry (set_pending_queue rest (set_will_process false e)) ;;
          rv <- AddTransactionToEntry entry next;
          when (negb (rv =? ERR_IO_PENDING)) (Run next rv)
    end (put_entry entry (set_will_process false e) c).
Proof.
  intros He. unfold OnProcessPendingQueue.
  rewrite (bind_run _ _ _ _ _ _ (update_entry_run _ _ _ _ He)).
  rewrite (bind_run _ _ _ _ _ _ (load_entry_run _ _ _ (put_entry_lookup _ _ _))).
  entry_fields. by rewrite !run_nil.
Qed.

(** X6.  One run of the drain, for an entry without a writer.  The flag of
    the scheduled drain is cleared, and then:
    (1) with an empty queue and a reader left, nothing else happens;
    (2) with an empty queue and no reader, the entry is destroyed;
    (3) when the transaction at the head of the queue wants to write and a
        reader is left, it keeps waiting, and so does everybody behind it;
    (4) otherwise the head, and only the head, leaves the queue, is admitted
        (as the writer, or next to the readers) and has its callback run
        with OK; when it was admitted as a reader and the queue is not yet
        empty, the next drain is scheduled. *)
Theorem OnProcessPendingQueue_step (entry : EntryId) (c : HttpCache) (e : ActiveEntry) :
  entries c !! entry = Some e ->
  writer e = None ->
  let e0 := set_will_process false e in
  (pending_queue e = [] -> readers e <> [] ->
     OnProcessPendingQueue entry c = Some (tt, put_entry entry e0 c, []))
  /\
  (forall d,
     pending_queue e = [] -> readers e = [] -> disk_entry e = Some d ->
     entry_registered c entry e ->
     exists k,
       (doomed e = false -> active_entries_ c !! k = Some entry) /\
       OnProcessPendingQueue entry c = Some (tt, destroyed c entry e k, [EvClose d]))
  /\
  (forall next rest,
     pending_queue e = next :: rest ->
     wants_write (trans_mode next) = true -> readers e <> [] ->
     OnProcessPendingQueue entry c = Some (tt, put_entry entry e0 c, []))
  /\
  (forall next rest,
     pending_queue e = next :: rest ->
     wants_write (trans_mode next) = true -> readers e = [] ->
     OnProcessPendingQueue entry c =
       Some (tt,
             react (EvRun next OK)
               (put_entry entry (set_writer (Some next) (set_pending_queue rest e0)) c),
             [EvRun next OK]))
  /\
  (forall next rest,
     pending_queue e = next :: rest ->
     wants_write (trans_mode next) = false ->
     let e1 := set_readers (readers e ++ [next]) (set_pending_queue rest e0) in
     OnProcessPendingQueue entry c =
       Some (tt,
             react (EvRun next OK)
               (if bool_decide (rest = []) then put_entry entry e1 c
                else with_posted (posted c ++ [TaskOnProcessPendingQueue entry])
                       (put_entry entry (set_will_process true e1) c)),
             [EvRun next OK])).
Proof.
  intros He Hw e0.
  pose proof (OnProcessPendingQueue_body entry c e He) as Hstart.
  subst e0.
  split; [|split; [|split; [|split]]].
  - intros Hq Hr. rewrite Hstart.
    rewrite Hq.
    by rewrite bool_decide_false.
  - intros d Hq Hr Hd Hreg. by apply OnProcessPendingQueue_destroys.
  - intros next rest Hq Hmode Hr. rewrite Hstart.
    rewrite Hq, Hmode.
    by rewrite bool_decide_false.
  - intros next rest Hq Hmode Hr. rewrite Hstart.
    rewrite Hq, Hmode, Hr.
    rewrite bool_decide_true by done. cbn [andb negb].
    rewrite (bind_run _ _ _ _ _ _ (store_entry_run _ _ _)).
    rewrite put_entry_twice.
    rewrite (bind_run _ _ _ _ _ _
               (AddTransactionToEntry_writer entry next _
                  (set_pending_queue rest (set_will_process false e))
                  (put_entry_lookup _ _ _) Hw eq_refl Hmode Hr)).
    rewrite put_entry_twice. reflexivity.
  - intros next rest Hq Hmode e1. rewrite Hstart.
    rewrite Hq, Hmode. cbn [andb negb].
    rewrite (bind_run _ _ _ _ _ _ (store_entry_run _ _ _)).
    rewrite put_entry_twice.
    rewrite (bind_run _ _ _ _ _ _
               (AddTransactionToEntry_reader entry next _
                  (set_pending_queue rest (set_will_process false e))
                  (put_entry_lookup _ _ _) Hw eq_refl Hmode)).
    simpl. case_bool_decide; simpl; rewrite ?put_entry_twice; reflexivity.
Qed.

Local Arguments OnProcessPendingQueue : simpl never.
Local Arguments DoneWritingToEntry : simpl never.
Local Arguments DoneReadingFromEntry : simpl never.

Lemma run_task_drain (entry : EntryId) (rest : list Task) (c : HttpCache) :
  posted c = TaskOnProcessPendingQueue entry :: rest ->
  run_task c = OnProcessPendingQueue entry (with_posted rest c).
Proof.
  intros Hposted. unfold run_task, bind, get, modify. rewrite Hposted.
  by rewrite !run_nil.
Qed.



(** X8.  A writer that turns into a reader.  [ConvertWriterToReader] moves
    the writer to the readers and schedules a drain.  When the drain runs, a
    reader at the head of the queue is admitted next to the former writer
    and called back with OK (and the drain is scheduled again when somebody
    is left in the queue), while a writer at the head keeps waiting, with
    everybody behind it, because the entry has a reader. *)
Theorem ConvertWriterToReader_then_drain (entry : EntryId) (c : HttpCache)
    (e : ActiveEntry) (w : Transaction) :
  entries c !! entry = Some e ->
  writer e = Some w -> readers e = [] ->
  will_process_pending_queue e = false ->
  posted c = [] ->
  let e1 := set_readers [w] (set_writer None e) in
  ConvertWriterToReader entry c =
    Some (tt, with_posted [TaskOnProcessPendingQueue entry]
                (put_entry entry (set_will_process true e1) c), [])
  /\
  ((pending_queue e = [] \/
    exists next rest, pending_queue e = next :: rest /\
                      wants_write (trans_mode next) = true) ->
   (ConvertWriterToReader entry ;; run_task) c = Some (tt, put_entry entry e1 c, []))
  /\
  (forall next rest,
     pending_queue e = next :: rest -> wants_write (trans_mode next) = false ->
     let e2 := set_readers [w; next] (set_pending_queue rest (set_writer None e)) in
     (ConvertWriterToReader entry ;; run_task) c =
       Some (tt,
             react (EvRun next OK)
               (if bool_decide (rest = []) then put_entry entry e2 c
                else with_posted [TaskOnProcessPendingQueue entry]
                       (put_entry entry (set_will_process true e2) c)),
             [EvRun next OK])).
Proof.
  intros He Hw Hr Hwp Hposted e1.
  assert (Hconvert : ConvertWriterToReader entry c =
            Some (tt, with_posted [TaskOnProcessPendingQueue entry]
                        (put_entry entry (set_will_process true e1) c), [])).
  { unfold ConvertWriterToReader.
    rewrite (bind_run _ _ _ _ _ _ (load_entry_run _ _ _ He)).
    rewrite Hw. unfold deref at 1.
    rewrite (bind_run _ _ c c w [] eq_refl).
    rewrite (bind_run _ _ _ _ _ _ (store_entry_run _ _ _)).
    rewrite (ProcessPendingQueue_run entry _ _ (put_entry_lookup _ _ _)).
    entry_fields. change (posted (put_entry _ _ c)) with (posted c).
    rewrite Hwp, Hr, Hposted. simpl. by rewrite put_entry_twice. }
  assert (Hdrain : (ConvertWriterToReader entry ;; run_task) c =
            OnProcessPendingQueue entry (put_entry entry (set_will_process true e1) c)).
  { rewrite (bind_run _ _ _ _ _ _ Hconvert).
    rewrite (run_task_drain entry []) by reflexivity.
    replace (with_posted [] (with_posted [TaskOnProcessPendingQueue entry]
               (put_entry entry (set_will_process true e1) c)))
      with (put_entry entry (set_will_process true e1) c)
      by (destruct c; simpl in Hposted; by subst).
    by rewrite run_nil. }
  split; [exact Hconvert|]. rewrite Hdrain.
  rewrite (OnProcessPendingQueue_body entry _ _ (put_entry_lookup _ _ _)).
  subst e1. entry_fields. rewrite put_entry_twice.
  replace (set_will_process false
             (set_will_process true (set_readers [w] (set_writer None e))))
    with (set_readers [w] (set_writer None e))
    by (destruct e; simpl in *; by subst).
  split.
  - intros [Hq|(next & rest & Hq & Hmode)]; rewrite Hq; [done|].
    by rewrite Hmode.
  - intros next rest Hq Hmode. rewrite Hq, Hmode. cbn [andb].
    rewrite (bind_run _ _ _ _ _ _ (store_entry_run _ _ _)).
    rewrite put_entry_twice.
    rewrite (bind_run _ _ _ _ _ _
               (AddTransactionToEntry_reader entry next _
                  (set_pending_queue rest (set_readers [w] (set_writer None e)))
                  (put_entry_lookup _ _ _) eq_refl Hwp Hmode)).
    simpl. replace (posted c) with (@nil Task). simpl.
    case_bool_decide; simpl; rewrite ?put_entry_twice; reflexivity.
Qed.

Lemma DoneWritingToEntry_failure (entry : EntryId) (c : HttpCache)
    (e : ActiveEntry) (d : DiskEntry) :
  entries c !! entry = Some e ->
  disk_entry e = Some d ->
  entry_registered c entry e ->
  exists k,
    (doomed e = false -> active_entries_ c !! k = Some entry) /\
    DoneWritingToEntry entry false c =
      Some (tt,
            after_callbacks (pending_queue e) ERR_CACHE_RACE (destroyed c entry e k),
            EvDoom d :: EvClose d ::
              map (fun t => EvRun t ERR_CACHE_RACE) (pending_queue e)).
Proof.
  intros He Hd Hreg.
  destruct (DestroyEntry_registered entry
              (put_entry entry (set_pending_queue [] (set_writer None e)) c)
              (set_pending_queue [] (set_writer None e)) d) as (k & Hk & Hdestroy).
  { apply put_entry_lookup. }
  { exact Hd. }
  { unfold entry_registered in *. by destruct e. }
  exists k. split; [exact Hk|].
  unfold DoneWritingToEntry.
  rewrite (bind_run _ _ _ _ _ _ (update_entry_run _ _ _ _ He)).
  rewrite (bind_run _ _ _ _ _ _ (load_entry_run _ _ _ (put_entry_lookup _ _ _))).
  rewrite (bind_run _ _ _ _ _ _ (store_entry_run _ _ _)).
  rewrite put_entry_twice. entry_fields. rewrite Hd. unfold deref.
  rewrite (bind_run _ _ _ _ d [] eq_refl).
  rewrite (bind_run _ _ _ _ tt [EvDoom d] eq_refl).
  rewrite (bind_run _ _ _ _ _ _ Hdestroy).
  rewrite run_all_spec. simpl.
  by rewrite (destroyed_put_entry entry _ e).
Qed.

(** X9.  How [DoneWithEntry] releases the writer of an entry.  The release
    counts as a success only when the transaction was cancelled and could
    mark the entry as truncated: then the writer slot is cleared, a drain is
    scheduled and the entry stays.  A release without [cancel] does not ask
    for the truncation flag and counts as a failure, like a cancellation that
    could not mark the entry: the disk entry is doomed, the entry destroyed,
    and every transaction of its queue called back with ERR_CACHE_RACE. *)
Theorem DoneWithEntry_writer_release (entry : EntryId) (trans : Transaction)
    (cancel : bool) (c : HttpCache) (e : ActiveEntry) (w : Transaction)
    (d : DiskEntry) :
  entries c !! entry = Some e ->
  writer e = Some w ->
  will_process_pending_queue e = false ->
  disk_entry e = Some d ->
  entry_registered c entry e ->
  if cancel && AddTruncatedFlag trans then
    DoneWithEntry entry trans cancel c =
      Some (tt,
            with_posted (posted c ++ [TaskOnProcessPendingQueue entry])
              (put_entry entry (set_will_process true (set_writer None e)) c),
            [EvAddTruncatedFlag trans])
  else
    exists k,
      (doomed e = false -> active_entries_ c !! k = Some entry) /\
      DoneWithEntry entry trans cancel c =
        Some (tt,
              after_callbacks (pending_queue e) ERR_CACHE_RACE (destroyed c entry e k),
              (if cancel then [EvAddTruncatedFlag trans] else []) ++
              EvDoom d :: EvClose d ::
                map (fun t => EvRun t ERR_CACHE_RACE) (pending_queue e)).
Proof.
  intros He Hw Hwp Hd Hreg.
  assert (Hstart :
    DoneWithEntry entry trans cancel c =
      bind (if cancel
            then bind (emit (EvAddTruncatedFlag trans))
                      (fun _ => ret (AddTruncatedFlag trans))
            else ret false)
           (fun success => DoneWritingToEntry entry success) c).
  { unfold DoneWithEntry.
    rewrite (bind_run _ _ _ _ _ _ (load_entry_run _ _ _ He)).
    rewrite Hwp, Hw. cbn [andb non_null]. by rewrite run_nil. }
  rewrite Hstart. clear Hstart.
  destruct (DoneWritingToEntry_failure entry c e d He Hd Hreg) as (k & Hk & Hfail).
  destruct cancel; cbn [andb].
  - rewrite (bind_run _ _ c c (AddTruncatedFlag trans) [EvAddTruncatedFlag trans] eq_refl).
    destruct (AddTruncatedFlag trans).
    + unfold DoneWritingToEntry.
      rewrite (bind_run _ _ _ _ _ _ (update_entry_run _ _ _ _ He)).
      rewrite (ProcessPendingQueue_run entry _ _ (put_entry_lookup _ _ _)).
      entry_fields. rewrite Hwp. simpl. by rewrite put_entry_twice.
    + exists k. split; [exact Hk|]. by rewrite Hfail.
  - exists k. split; [exact Hk|].
    rewrite (bind_run _ _ c c false [] eq_refl). by rewrite Hfail.
Qed.

(** *** The completion protocol, once it fails the requests *)

(** The cache with the pending operation at [pending_op] replaced. *)
Definition put_op (pending_op : OpId) (v : PendingOp) (c : HttpCache) : HttpCache :=
  with_ops (<[pending_op := v]> (ops c)) c.

(** The calls that fail every item of a queue with ERR_CACHE_RACE, and the
    state the callbacks among them leave. *)
Definition race_events (items : list WorkItem) : list Event :=
  flat_map (fun w => notify_events w ERR_CACHE_RACE None) items.
Definition after_race (items : list WorkItem) (c : HttpCache) : HttpCache :=
  foldl (fun c w => notified w ERR_CACHE_RACE c) c items.

Lemma load_op_run (pending_op : OpId) (c : HttpCache) (p : PendingOp) :
  ops c !! pending_op = Some p -> load_op pending_op c = Some (p, c, []).
Proof. intros Hp. unfold load_op. run_monad. unfold OpId in *. by rewrite Hp. Qed.

Lemma store_op_run (pending_op : OpId) (v : PendingOp) (c : HttpCache) :
  store_op pending_op v c = Some (tt, put_op pending_op v c, []).
Proof. reflexivity. Qed.

Lemma update_op_run (pending_op : OpId) (f : PendingOp -> PendingOp)
    (c : HttpCache) (p : PendingOp) :
  ops c !! pending_op = Some p ->
  update_op pending_op f c = Some (tt, put_op pending_op (f p) c, []).
Proof.
  intros Hp. unfold update_op. by rewrite (bind_run _ _ _ _ _ _ (load_op_run _ _ _ Hp)).
Qed.

Lemma put_op_lookup (pending_op : OpId) (v : PendingOp) (c : HttpCache) :
  ops (put_op pending_op v c) !! pending_op = Some v.
Proof. unfold put_op. simpl. by rewrite lookup_insert_eq. Qed.

Lemma put_op_twice (pending_op : OpId) (u v : PendingOp) (c : HttpCache) :
  put_op pending_op v (put_op pending_op u c) = put_op pending_op v c.
Proof. unfold put_op, with_ops. simpl. by rewrite insert_insert_eq. Qed.

Lemma op_removed_put_op (pending_op : OpId) (v : PendingOp) (key : string)
    (c : HttpCache) :
  op_removed pending_op key (put_op pending_op v c) = op_removed pending_op key c.
Proof. unfold op_removed, put_op, with_ops. simpl. by rewrite delete_insert_eq. Qed.

Lemma DeletePendingOp_put_op (pending_op : OpId) (v p : PendingOp) (key : string)
    (c : HttpCache) :
  op_registered c pending_op p key ->
  op_disk_entry v = op_disk_entry p \/ op_disk_entry v = None ->
  DeletePendingOp pending_op (put_op pending_op v c) =
    Some (tt, op_removed pending_op key c, []).
Proof.
  intros (Hr1 & Hr2 & Hr3) Hd.
  rewrite (DeletePendingOp_registered (put_op pending_op v c) pending_op v key).
  - fold (op_removed pending_op key (put_op pending_op v c)).
    by rewrite op_removed_put_op.
  - apply put_op_lookup.
  - split; [exact Hr1|]. split; [exact Hr2|].
    intros d Hv. destruct Hd as [Hd|Hd]; rewrite Hd in Hv; [by apply Hr3|done].
Qed.

(** Once the protocol fails the requests, it fails all that follow. *)
Lemma notify_pending_items_failing (lead : WorkItemOperation) (r : Z) (key : string)
    (items : list WorkItem) :
  forall (entry : option EntryId) (c : HttpCache),
    notify_pending_items lead r key items true entry c =
      Some (tt, after_race items c, race_events items).
Proof.
  induction items as [|item rest IH]; intros entry c; [reflexivity|].
  simpl. unfold bind at 1.
  assert (Hstep : exists entry',
    notify_queued lead r key item true entry c =
      Some ((true, entry'), notified item ERR_CACHE_RACE c,
            notify_events item ERR_CACHE_RACE None)).
  { unfold notify_queued, FindActiveEntry.
    cbv beta iota zeta delta [bind ret get].
    case_bool_decide; simpl.
    - rewrite NotifyTransaction_spec. simpl. rewrite app_nil_r. by eexists.
    - destruct (r =? OK); simpl.
      + destruct (active_entries_ c !! key); simpl;
          rewrite NotifyTransaction_spec; simpl; rewrite app_nil_r; by eexists.
      + rewrite NotifyTransaction_spec. simpl. rewrite app_nil_r. by eexists. }
  destruct Hstep as (entry' & ->). simpl. rewrite IH. reflexivity.
Qed.

Local Arguments notify_pending_items : simpl never.
Local Arguments OnIOComplete_outcome : simpl never.

(** X10.  Nobody gets an entry that is being doomed.  When the backend
    completes a DOOM_ENTRY with OK, the pending operation is deleted, the
    transaction that asked for the doom is called back with OK, and then
    every item that was queued behind it, whatever its operation, is
    notified with ERR_CACHE_RACE and no entry, in the order of the queue. *)
Theorem OnIOComplete_doom_races (pending_op : OpId) (c : HttpCache)
    (p : PendingOp) (item : WorkItem) (key : string) :
  ops c !! pending_op = Some p ->
  op_writer p = Some item ->
  operation_ item = WI_DOOM_ENTRY ->
  op_registered c pending_op p key ->
  OnIOComplete OK pending_op c =
    Some (tt,
          after_race (op_pending_queue p)
            (notified item OK (op_removed pending_op key c)),
          notify_events item OK None ++ race_events (op_pending_queue p)).
Proof.
  intros Hp Hw Hop Hreg.
  unfold OnIOComplete.
  rewrite (bind_run _ _ _ _ _ _ (load_op_run _ _ _ Hp)).
  rewrite Hw. unfold deref at 1. rewrite (bind_run _ _ c c item [] eq_refl).
  rewrite Hop. rewrite bool_decide_false by done.
  assert (Hsettle : OnIOComplete_settle OK pending_op item c =
            Some (mkCompletion WI_DOOM_ENTRY item None empty_key true
                    (op_pending_queue p),
                  op_removed pending_op key c, [])).
  { unfold OnIOComplete_settle.
    assert (Hout : OnIOComplete_outcome OK pending_op item c =
                     Some ((true, None, empty_key), c, [])).
    { unfold OnIOComplete_outcome. rewrite Hop. reflexivity. }
    rewrite (bind_run _ _ _ _ _ _ Hout).
    rewrite (bind_run _ _ _ _ _ _ (load_op_run _ _ _ Hp)).
    rewrite (bind_run _ _ _ _ _ _ (store_op_run _ _ _)).
    rewrite (bind_run _ _ _ _ _ _
               (DeletePendingOp_put_op pending_op (set_op_pending_queue [] p) p key c
                  Hreg (or_introl eq_refl))).
    rewrite Hop. reflexivity. }
  rewrite (bind_run _ _ _ _ _ _ Hsettle).
  unfold OnIOComplete_notify. cbn [lead_item lead_entry lead_op lead_key lead_fail snapshot].
  rewrite (bind_run _ _ _ _ _ _ (NotifyTransaction_spec _ _ _ _)).
  rewrite notify_pending_items_failing. reflexivity.
Qed.

(** X11.  A cancelled request is discarded when its answer comes.  When
    the transaction that leads an OPEN_ENTRY or a CREATE_ENTRY is taken out
    of the pending operation and the backend later completes the call with OK
    and a disk entry, no active entry is made: the disk entry is closed,
    after being doomed when it had just been created; the callback of the
    cancelled transaction is not run and its out-slot is not written; the
    pending operation is deleted; and every item queued behind the lead is
    notified with ERR_CACHE_RACE. *)
Theorem cancelled_lead_discarded (pending_op : OpId) (t : Transaction)
    (c : HttpCache) (p : PendingOp) (w : WorkItem) (key : string) (d : DiskEntry) :
  ops c !! pending_op = Some p ->
  op_writer p = Some w ->
  trans_ w = Some t -> callback_ w = None ->
  operation_ w = WI_OPEN_ENTRY \/ operation_ w = WI_CREATE_ENTRY ->
  op_registered c pending_op p key ->
  (RemovePendingTransactionFromPendingOp pending_op t ;;
   backend_completes pending_op (set_op_disk_entry (Some d)) OK) c =
    Some (tt,
          after_race (op_pending_queue p) (op_removed pending_op key c),
          (if bool_decide (operation_ w = WI_CREATE_ENTRY) then [EvDoom d] else [])
          ++ EvClose d :: race_events (op_pending_queue p)).
Proof.
  intros Hp Hw Ht Hcb Hop Hreg.
  set (item := ClearEntry (ClearTransaction w)).
  set (p1 := set_op_writer (Some item) p).
  set (p2 := set_op_disk_entry (Some d) p1).
  assert (Hremove : RemovePendingTransactionFromPendingOp pending_op t c =
                      Some (true, put_op pending_op p1 c, [])).
  { unfold RemovePendingTransactionFromPendingOp.
    rewrite (bind_run _ _ _ _ _ _ (load_op_run _ _ _ Hp)).
    rewrite Hw. unfold deref at 1. rewrite (bind_run _ _ c c w [] eq_refl).
    unfold Matches. rewrite bool_decide_true by done.
    by rewrite (bind_run _ _ _ _ _ _ (store_op_run _ _ _)). }
  rewrite (bind_run _ _ _ _ _ _ Hremove).
  unfold backend_completes, BackendCallback_Run.
  rewrite (bind_run _ _ _ _ _ _ (update_op_run _ _ _ _ (put_op_lookup _ _ _))).
  rewrite put_op_twice. fold p2.
  assert (Hnb : bool_decide (operation_ item = WI_CREATE_BACKEND) = false).
  { apply bool_decide_eq_false. subst item. simpl. by destruct Hop as [-> | ->]. }
  assert (Hnd : bool_decide (operation_ item = WI_DOOM_ENTRY) = false).
  { apply bool_decide_eq_false. subst item. simpl. by destruct Hop as [-> | ->]. }
  assert (Hinvalid : IsValid item = false).
  { subst item. unfold IsValid. simpl. by rewrite Hcb. }
  unfold OnIOComplete.
  rewrite (bind_run _ _ _ _ _ _ (load_op_run _ _ _ (put_op_lookup _ _ _))).
  change (op_writer p2) with (Some item).
  unfold deref at 1. rewrite (bind_run _ _ _ _ item [] eq_refl).
  rewrite Hnb.
  assert (Hsettle : OnIOComplete_settle OK pending_op item (put_op pending_op p2 c) =
            Some (mkCompletion (operation_ w) item None empty_key true
                    (op_pending_queue p),
                  op_removed pending_op key c,
                  (if bool_decide (operation_ w = WI_CREATE_ENTRY) then [EvDoom d] else [])
                  ++ [EvClose d])).
  { unfold OnIOComplete_settle.
    assert (Hout : OnIOComplete_outcome OK pending_op item (put_op pending_op p2 c) =
              Some ((true, None, empty_key),
                    put_op pending_op (set_op_disk_entry None p2) c,
                    (if bool_decide (operation_ w = WI_CREATE_ENTRY) then [EvDoom d]
                     else []) ++ [EvClose d])).
    { unfold OnIOComplete_outcome. cbn [Z.eqb OK]. rewrite Hnd.
      rewrite (bind_run _ _ _ _ _ _ (load_op_run _ _ _ (put_op_lookup _ _ _))).
      change (op_disk_entry p2) with (Some d).
      unfold deref at 1. rewrite (bind_run _ _ _ _ d [] eq_refl).
      rewrite Hinvalid.
      change (operation_ item) with (operation_ w).
      destruct (bool_decide (operation_ w = WI_CREATE_ENTRY));
        unfold when; run_monad; unfold put_op, with_ops; simpl;
        by rewrite insert_insert_eq. }
    rewrite (bind_run _ _ _ _ _ _ Hout).
    rewrite (bind_run _ _ _ _ _ _ (load_op_run _ _ _ (put_op_lookup _ _ _))).
    rewrite (bind_run _ _ _ _ _ _ (store_op_run _ _ _)).
    rewrite put_op_twice.
    rewrite (bind_run _ _ _ _ _ _
               (DeletePendingOp_put_op pending_op
                  (set_op_pending_queue [] (set_op_disk_entry None p2)) p key c
                  Hreg (or_intror eq_refl))).
    simpl. by rewrite !app_nil_r. }
  rewrite (bind_run _ _ _ _ _ _ Hsettle).
  unfold OnIOComplete_notify. cbn [lead_item lead_entry lead_op lead_key lead_fail snapshot].
  rewrite (bind_run _ _ _ _ _ _ (NotifyTransaction_spec _ _ _ _)).
  rewrite notify_pending_items_failing.
  assert (Hquiet : notify_events item OK None = [] /\
                   forall c0, notified item OK c0 = c0).
  { subst item. unfold notify_events, notified. simpl. done. }
  destruct Hquiet as [-> ->]. simpl.
  by rewrite <- !app_assoc.
Qed.

(** *** The backend-creation gate *)

(** The cache once [OnBackendCreated] has released the factory and, on
    success, installed the backend; nothing changes when the factory is
    already gone. *)
Definition backend_installed (result : Z) (b : option Backend) (c : HttpCache)
    : HttpCache :=
  if backend_factory_ c then
    if result =? OK then with_disk_cache b (with_backend_factory false c)
    else with_backend_factory false c
  else c.

(** What the lead item of the gate is told: its backend slot is written, and
    the callback of the embedder runs or, when the item has none, that of its
    transaction. *)
Definition gate_events (item : WorkItem) (result : Z) (b : option Backend)
    : list Event :=
  match backend_ item with Some slot => [EvSetBackend slot b] | None => [] end ++
  match callback_ item with
  | Some cb => [EvUserRun cb result]
  | None => notify_events item result None
  end.

Definition gate_notified (item : WorkItem) (result : Z) (c : HttpCache) : HttpCache :=
  match callback_ item with
  | Some cb => react (EvUserRun cb result) c
  | None => notified item result c
  end.

(** The message loop runs [n] tasks. *)
Fixpoint run_tasks (n : nat) : M unit :=
  match n with
  | O => ret tt
  | S n' => run_task ;; run_tasks n'
  end.

Lemma gate_notify_run (item : WorkItem) (result : Z) (b : option Backend)
    (c : HttpCache) :
  bind (DoCallback item result b)
       (fun called => when (negb called) (NotifyTransaction item result None)) c =
    Some (tt, gate_notified item result c, gate_events item result b).
Proof.
  unfold DoCallback, UserRun, gate_notified, gate_events.
  destruct (backend_ item), (callback_ item); run_monad;
    rewrite ?NotifyTransaction_spec; simpl; rewrite ?app_nil_r; reflexivity.
Qed.

Lemma install_run (result : Z) (b : option Backend) (c : HttpCache) :
  when (backend_factory_ c)
       (modify (with_backend_factory false) ;;
        when (result =? OK) (modify (with_disk_cache b))) c =
    Some (tt, backend_installed result b c, []).
Proof.
  unfold backend_installed.
  destruct (backend_factory_ c), (result =? OK); reflexivity.
Qed.

Lemma backend_installed_put_op (result : Z) (b : option Backend) (j : OpId)
    (v : PendingOp) (c : HttpCache) :
  backend_installed result b (put_op j v c) = put_op j v (backend_installed result b c).
Proof.
  unfold backend_installed. simpl.
  destruct (backend_factory_ c), (result =? OK); reflexivity.
Qed.

Lemma backend_installed_twice (result : Z) (b b' : option Backend) (c : HttpCache) :
  backend_installed result b' (backend_installed result b c) =
    backend_installed result b c.
Proof.
  unfold backend_installed.
  destruct (backend_factory_ c) eqn:Hf, (result =? OK); simpl; try reflexivity;
    by rewrite Hf.
Qed.

Local Arguments DoCallback : simpl never.
Local Arguments OnBackendCreated : simpl never.

(** [OnBackendCreated] down to the notification of the lead. *)
Lemma OnBackendCreated_body (result : Z) (pending_op : OpId) (c : HttpCache)
    (p : PendingOp) (item : WorkItem) :
  ops c !! pending_op = Some p ->
  op_writer p = Some item ->
  OnBackendCreated result pending_op c =
    match
      match op_pending_queue p with
      | pending_item :: rest =>
          store_op pending_op
            (set_op_writer (Some pending_item)
               (set_op_pending_queue rest (set_op_callback false p))) ;;
          PostTask (TaskOnBackendCreated result pending_op)
      | [] =>
          modify (with_building_backend false) ;;
          DeletePendingOp pending_op
      end (put_op pending_op (set_op_callback false p)
             (backend_installed result (op_backend p) c))
    with
    | Some (_, c1, evs) =>
        Some (tt, gate_notified item result c1,
              evs ++ gate_events item result (op_backend p))
    | None => None
    end.
Proof.
  intros Hp Hw. unfold OnBackendCreated.
  rewrite (bind_run _ _ _ _ _ _ (load_op_run _ _ _ Hp)).
  rewrite Hw. unfold deref at 1. rewrite (bind_run _ _ c c item [] eq_refl).
  rewrite (bind_run _ _ _ _ _ _ (store_op_run _ _ _)).
  rewrite (bind_run _ _ _ _ _ [] (eq_refl : get _ = Some (_, _, []))).
  rewrite (bind_run _ _ _ _ _ _ (install_run _ _ _)).
  rewrite backend_installed_put_op.
  rewrite (bind_run _ _ _ _ _ _ (load_op_run _ _ _ (put_op_lookup _ _ _))).
  cbn [op_pending_queue set_op_callback].
  rewrite !run_nil.
  assert (Htail : forall (m : M unit) (c0 : HttpCache),
    bind m (fun _ =>
      bind (DoCallback item result (op_backend p))
           (fun called => when (negb called) (NotifyTransaction item result None))) c0 =
    match m c0 with
    | Some (_, c1, evs) =>
        Some (tt, gate_notified item result c1,
              evs ++ gate_events item result (op_backend p))
    | None => None
    end).
  { intros m c0. unfold bind at 1.
    destruct (m c0) as [[[[] c1] evs]|]; [by rewrite gate_notify_run|done]. }
  apply Htail.
Qed.

Lemma backend_installed_frame (result : Z) (b : option Backend) (c : HttpCache) :
  pending_ops_ (backend_installed result b c) = pending_ops_ c /\
  ops (backend_installed result b c) = ops c /\
  posted (backend_installed result b c) = posted c /\
  building_backend_ (backend_installed result b c) = building_backend_ c /\
  backend_factory_ (backend_installed result b c) = false /\
  disk_cache_ (backend_installed result b c) =
    (if backend_factory_ c && (result =? OK) then b else disk_cache_ c).
Proof.
  unfold backend_installed.
  destruct (backend_factory_ c) eqn:Hf, (result =? OK); simpl; auto 10.
Qed.

Lemma OnBackendCreated_last (result : Z) (pending_op : OpId) (c : HttpCache)
    (p : PendingOp) (item : WorkItem) :
  ops c !! pending_op = Some p ->
  op_writer p = Some item ->
  op_pending_queue p = [] ->
  op_registered c pending_op p empty_key ->
  OnBackendCreated result pending_op c =
    Some (tt,
          gate_notified item result
            (op_removed pending_op empty_key
               (with_building_backend false
                  (backend_installed result (op_backend p) c))),
          gate_events item result (op_backend p)).
Proof.
  intros Hp Hw Hq Hreg.
  rewrite (OnBackendCreated_body result pending_op c p item Hp Hw). rewrite Hq.
  rewrite (bind_run _ _ _ _ tt [] (eq_refl : modify _ _ = Some (_, _, []))).
  change (with_building_backend false
            (put_op pending_op (set_op_callback false p)
               (backend_installed result (op_backend p) c)))
    with (put_op pending_op (set_op_callback false p)
            (with_building_backend false
               (backend_installed result (op_backend p) c))).
  rewrite (DeletePendingOp_put_op pending_op (set_op_callback false p) p empty_key).
  - reflexivity.
  - destruct Hreg as (Hr1 & Hr2 & Hr3).
    destruct (backend_installed_frame result (op_backend p) c) as (Hpo & _).
    unfold op_registered. simpl. rewrite Hpo. done.
  - by left.
Qed.

Lemma OnBackendCreated_next (result : Z) (pending_op : OpId) (c : HttpCache)
    (p : PendingOp) (item w : WorkItem) (rest : list WorkItem) :
  ops c !! pending_op = Some p ->
  op_writer p = Some item ->
  op_pending_queue p = w :: rest ->
  OnBackendCreated result pending_op c =
    Some (tt,
          gate_notified item result
            (with_posted (posted c ++ [TaskOnBackendCreated result pending_op])
               (put_op pending_op
                  (mkPendingOp (op_disk_entry p) (op_backend p) (Some w) false rest)
                  (backend_installed result (op_backend p) c))),
          gate_events item result (op_backend p)).
Proof.
  intros Hp Hw Hq.
  rewrite (OnBackendCreated_body result pending_op c p item Hp Hw). rewrite Hq.
  rewrite (bind_run _ _ _ _ _ _ (store_op_run _ _ _)).
  rewrite put_op_twice. unfold PostTask, modify.
  destruct (backend_installed_frame result (op_backend p) c) as (_ & _ & Hposted & _).
  simpl. rewrite Hposted. reflexivity.
Qed.

(** X12.  The gate serves one waiter per turn of the message loop, and
    settles its own state before it calls anybody.  [OnBackendCreated]
    notifies the lead item only.  By the time the callback runs, the factory
    is released, the backend is installed if the factory was still there and
    the result is OK, and either the next item of the queue has become the
    lead and a task is posted to serve it with the same result, or, the
    queue being empty, the creation is over: [building_backend_] is cleared
    and the pending operation is deleted. *)
Theorem OnBackendCreated_one_per_tick (result : Z) (pending_op : OpId)
    (c : HttpCache) (p : PendingOp) (item : WorkItem) :
  ops c !! pending_op = Some p ->
  op_writer p = Some item ->
  op_registered c pending_op p empty_key ->
  exists c1,
    OnBackendCreated result pending_op c =
      Some (tt, gate_notified item result c1, gate_events item result (op_backend p))
    /\ backend_factory_ c1 = false
    /\ disk_cache_ c1 =
         (if backend_factory_ c && (result =? OK) then op_backend p else disk_cache_ c)
    /\ match op_pending_queue p with
       | [] =>
           building_backend_ c1 = false /\
           pending_ops_ c1 !! empty_key = None /\
           ops c1 !! pending_op = None /\
           posted c1 = posted c
       | w :: rest =>
           building_backend_ c1 = building_backend_ c /\
           pending_ops_ c1 = pending_ops_ c /\
           ops c1 !! pending_op =
             Some (mkPendingOp (op_disk_entry p) (op_backend p) (Some w) false rest) /\
           posted c1 = posted c ++ [TaskOnBackendCreated result pending_op]
       end.
Proof.
  intros Hp Hw Hreg.
  destruct (backend_installed_frame result (op_backend p) c)
    as (Hpo & Hops & Hposted & Hbuilding & Hfactory & Hdisk).
  destruct (op_pending_queue p) as [|w rest] eqn:Hq.
  - eexists. split; [exact (OnBackendCreated_last result pending_op c p item
                              Hp Hw Hq Hreg)|].
    simpl. rewrite !lookup_delete_eq. auto 10.
  - eexists. split; [exact (OnBackendCreated_next result pending_op c p item w rest
                              Hp Hw Hq)|].
    simpl. rewrite lookup_insert_eq. auto 10.
Qed.

Lemma run_task_gate (result : Z) (pending_op : OpId) (rest : list Task)
    (c : HttpCache) :
  posted c = TaskOnBackendCreated result pending_op :: rest ->
  run_task c = OnBackendCreated result pending_op (with_posted rest c).
Proof.
  intros Hposted. unfold run_task, bind, get, modify. rewrite Hposted.
  by rewrite !run_nil.
Qed.

Lemma bind_assoc {A B C} (m : M A) (f : A -> M B) (g : B -> M C) (c : HttpCache) :
  bind (bind m f) g c = bind m (fun a => bind (f a) g) c.
Proof.
  unfold bind. destruct (m c) as [[[a c1] ev1]|]; [|done].
  destruct (f a c1) as [[[b c2] ev2]|]; [|done].
  destruct (g b c2) as [[[x c3] ev3]|]; [|done].
  by rewrite app_assoc.
Qed.

(** X13.  The gate hands the answer of the factory to everybody, in order.
    With callbacks that leave the cache alone, [OnBackendCreated] followed by
    as many turns of the message loop as items are queued notifies the lead
    and then every queued item once, in the order of the queue, all with the
    same result and backend; after the last of them the creation is over and
    the pending operation is gone. *)
Theorem backend_creation_drains (result : Z) (pending_op : OpId)
    (Hquiet : forall ev c, react ev c = c) (queue : list WorkItem) :
  forall (c : HttpCache) (p : PendingOp) (item : WorkItem),
    ops c !! pending_op = Some p ->
    op_writer p = Some item ->
    op_pending_queue p = queue ->
    op_registered c pending_op p empty_key ->
    posted c = [] ->
    (OnBackendCreated result pending_op ;; run_tasks (length queue)) c =
      Some (tt,
            op_removed pending_op empty_key
              (with_building_backend false
                 (backend_installed result (op_backend p) c)),
            flat_map (fun w => gate_events w result (op_backend p)) (item :: queue)).
Proof.
  assert (Hnotified : forall w c0, gate_notified w result c0 = c0).
  { intros w c0. unfold gate_notified, notified.
    destruct (callback_ w), (trans_ w); by rewrite ?Hquiet. }
  induction queue as [|w rest IH]; intros c p item Hp Hw Hq Hreg Hposted.
  - rewrite (bind_run _ _ _ _ _ _
               (OnBackendCreated_last result pending_op c p item Hp Hw Hq Hreg)).
    rewrite Hnotified. simpl. by rewrite !app_nil_r.
  - rewrite (bind_run _ _ _ _ _ _
               (OnBackendCreated_next result pending_op c p item w rest Hp Hw Hq)).
    rewrite Hnotified, Hposted.
    set (p' := mkPendingOp (op_disk_entry p) (op_backend p) (Some w) false rest).
    set (c' := put_op pending_op p' (backend_installed result (op_backend p) c)).
    assert (Hc' : with_posted []
                    (with_posted [TaskOnBackendCreated result pending_op] c') = c').
    { subst c'. destruct (backend_installed_frame result (op_backend p) c)
        as (_ & _ & Hposted' & _).
      rewrite Hposted in Hposted'.
      unfold put_op, with_ops, with_posted. simpl.
      destruct (backend_installed result (op_backend p) c). simpl in *.
      by rewrite Hposted'. }
    assert (Hrun : run_tasks (length (w :: rest))
                     (with_posted [TaskOnBackendCreated result pending_op] c') =
                   (OnBackendCreated result pending_op ;; run_tasks (length rest)) c').
    { cbn [length run_tasks]. unfold bind at 1.
      rewrite (run_task_gate result pending_op []) by reflexivity.
      by rewrite Hc'. }
    cbn [app].
    rewrite Hrun.
    destruct (backend_installed_frame result (op_backend p) c)
      as (Hpo & Hops & Hposted' & Hbuilding & Hfactory & Hdisk).
    rewrite (IH c' p' w).
    + simpl. f_equal. f_equal.
      subst c' p'. cbn [op_backend].
      rewrite backend_installed_put_op, backend_installed_twice.
      change (with_building_backend false (put_op pending_op ?v ?x))
        with (put_op pending_op v (with_building_backend false x)).
      by rewrite op_removed_put_op.
    + subst c'. apply put_op_lookup.
    + reflexivity.
    + reflexivity.
    + destruct Hreg as (Hr1 & Hr2 & Hr3). subst c'. unfold op_registered. simpl.
      rewrite Hpo. done.
    + subst c'. simpl. by rewrite Hposted'.
Qed.

Lemma CreateBackend_starts (backend : option BackendSlot)
    (callback : option UserCallback) (b : option Backend) (c : HttpCache) :
  backend_factory_ c = true ->
  pending_ops_ c !! empty_key = None ->
  CreateBackend backend callback ERR_IO_PENDING b c =
    Some (ERR_IO_PENDING,
          put_op (next_op c)
            (mkPendingOp None b
               (Some (mkWorkItem WI_CREATE_BACKEND None None callback backend))
               true [])
            (with_pending_ops (<[empty_key := next_op c]> (pending_ops_ c))
               (with_next_op (S (next_op c)) (with_building_backend true c))),
          [EvFactoryCreateBackend (next_op c)]).
Proof.
  intros Hf Hnone. unfold CreateBackend, GetPendingOp, issue. run_monad.
  rewrite Hf. simpl. rewrite Hnone. simpl. run_lookups.
  unfold put_op, with_ops. simpl. by rewrite !insert_insert_eq.
Qed.

Lemma GetBackendForTransaction_queued (trans : Transaction) (c : HttpCache)
    (j : OpId) (p : PendingOp) :
  disk_cache_ c = None ->
  building_backend_ c = true ->
  pending_ops_ c !! empty_key = Some j ->
  ops c !! j = Some p ->
  GetBackendForTransaction trans c =
    Some (ERR_IO_PENDING,
          put_op j (set_op_pending_queue
                      (op_pending_queue p ++
                       [mkWorkItem WI_CREATE_BACKEND (Some trans) None None None]) p) c,
          []).
Proof.
  clear_unused.
  intros Hd Hb Hj Hp. unfold GetBackendForTransaction, GetPendingOp. run_monad.
  unfold OpId in *.
  rewrite Hd. simpl. rewrite Hb. simpl. rewrite Hj. simpl. rewrite Hp. reflexivity.
Qed.

(** X14.  A transaction that arrives while the backend is being created.
    [CreateTransaction] starts the creation without waiting for it, and
    [GetBackendForTransaction] then queues the transaction at the gate and
    answers ERR_IO_PENDING.  When the factory completes, the first turn of
    [OnBackendCreated] installs the backend (on OK) and notifies nobody,
    because the creation was started without a callback; the transaction is
    called back, with the result of the factory, by the task this turn
    posts, and the gate is closed by then. *)
Theorem lazy_backend_creation (t : Transaction) (b : option Backend) (result : Z)
    (c : HttpCache) :
  disk_cache_ c = None ->
  backend_factory_ c = true ->
  pending_ops_ c !! empty_key = None ->
  next_op_fresh c ->
  posted c = [] ->
  exists c1 c2,
    (CreateTransaction ERR_IO_PENDING None ;; GetBackendForTransaction t) c =
      Some (ERR_IO_PENDING, c1, [EvFactoryCreateBackend (next_op c)])
    /\ backend_completes (next_op c) (set_op_backend b) result c1 =
         Some (tt, c2, [])
    /\ disk_cache_ c2 = (if result =? OK then b else None)
    /\ posted c2 = [TaskOnBackendCreated result (next_op c)]
    /\ exists c3,
         run_task c2 = Some (tt, react (EvRun t result) c3, [EvRun t result])
         /\ disk_cache_ c3 = (if result =? OK then b else None)
         /\ backend_factory_ c3 = false
         /\ building_backend_ c3 = false
         /\ pending_ops_ c3 !! empty_key = None
         /\ ops c3 !! next_op c = None
         /\ posted c3 = [].
Proof.
  intros Hd Hf Hnone Hfresh Hposted.
  set (j := next_op c).
  set (lead := mkWorkItem WI_CREATE_BACKEND None None None None).
  set (waiter := mkWorkItem WI_CREATE_BACKEND (Some t) None None None).
  set (c0 := with_pending_ops (<[empty_key := j]> (pending_ops_ c))
               (with_next_op (S j) (with_building_backend true c))).
  set (p1 := mkPendingOp None None (Some lead) true [waiter]).
  assert (Hstart :
    (CreateTransaction ERR_IO_PENDING None ;; GetBackendForTransaction t) c =
      Some (ERR_IO_PENDING, put_op j p1 c0, [EvFactoryCreateBackend j])).
  { assert (Hcreate : CreateTransaction ERR_IO_PENDING None c =
              Some (OK, put_op j (mkPendingOp None None (Some lead) true []) c0,
                    [EvFactoryCreateBackend j])).
    { unfold CreateTransaction.
      rewrite (bind_run _ _ c c c [] eq_refl).
      rewrite Hd. cbn [non_null negb when].
      rewrite bind_assoc.
      rewrite (bind_run _ _ _ _ _ _
                 (CreateBackend_starts None None None c Hf Hnone)).
      reflexivity. }
    rewrite (bind_run _ _ _ _ _ _ Hcreate).
    rewrite (GetBackendForTransaction_queued t (put_op j _ c0) j _
               Hd eq_refl (lookup_insert_eq _ _ _) (put_op_lookup _ _ _)).
    by rewrite put_op_twice. }
  assert (Hreg : forall p, op_disk_entry p = None -> forall c',
            pending_ops_ c' = pending_ops_ c0 -> op_registered c' j p empty_key).
  { intros p Hp c' Hc'. unfold op_registered. rewrite Hc', Hp. subst c0. simpl.
    split; [by rewrite lookup_insert_eq|]. split; [|done].
    intros k Hk. destruct (decide (k = empty_key)) as [|Hne]; [done|].
    rewrite lookup_insert_ne in Hk by done. by apply Hfresh in Hk. }
  set (p2 := set_op_backend b p1).
  set (p3 := mkPendingOp None b (Some waiter) false []).
  set (c2 := with_posted [TaskOnBackendCreated result j]
               (put_op j p3 (backend_installed result b c0))).
  assert (Hfirst : backend_completes j (set_op_backend b) result (put_op j p1 c0) =
                     Some (tt, c2, [])).
  { unfold backend_completes, BackendCallback_Run.
    rewrite (bind_run _ _ _ _ _ _ (update_op_run _ _ _ _ (put_op_lookup _ _ _))).
    rewrite put_op_twice. fold p2. unfold OnIOComplete.
    rewrite (bind_run _ _ _ _ _ _ (load_op_run _ _ _ (put_op_lookup _ _ _))).
    change (op_writer p2) with (Some lead). unfold deref at 1.
    rewrite (bind_run _ _ _ _ lead [] eq_refl).
    rewrite bool_decide_true by reflexivity.
    rewrite (OnBackendCreated_next result j (put_op j p2 c0) p2 lead waiter []
               (put_op_lookup _ _ _) eq_refl eq_refl).
    rewrite backend_installed_put_op, put_op_twice.
    subst c2. simpl. subst c0. simpl. rewrite Hposted. reflexivity. }
  destruct (backend_installed_frame result b c0)
    as (Hpo & Hops & Hposted0 & Hbuilding & Hfactory & Hdisk).
  assert (Hdisk0 : disk_cache_ (backend_installed result b c0) =
                     (if result =? OK then b else None)).
  { rewrite Hdisk. subst c0. simpl. rewrite Hf, Hd. reflexivity. }
  exists (put_op j p1 c0), c2.
  split; [exact Hstart|]. split; [exact Hfirst|].
  split; [exact Hdisk0|]. split; [reflexivity|].
  exists (op_removed j empty_key
            (with_building_backend false (backend_installed result b c0))).
  split.
  - rewrite (run_task_gate result j []) by reflexivity.
    rewrite (OnBackendCreated_last result j _ p3 waiter).
    + subst c2. cbn [op_backend p3].
      change (with_posted [] (with_posted ?l (put_op j p3 ?x)))
        with (put_op j p3 (with_posted [] x)).
      replace (with_posted [] (backend_installed result b c0))
        with (backend_installed result b c0).
      * rewrite backend_installed_put_op, backend_installed_twice.
        change (with_building_backend false (put_op j p3 ?x))
          with (put_op j p3 (with_building_backend false x)).
        by rewrite op_removed_put_op.
      * destruct (backend_installed result b c0). simpl in *.
        subst c0. simpl in *. by rewrite Hposted0, Hposted.
    + subst c2. simpl. by rewrite lookup_insert_eq.
    + reflexivity.
    + reflexivity.
    + apply Hreg; [reflexivity|]. subst c2. simpl. exact Hpo.
  - simpl. rewrite !lookup_delete_eq. rewrite Hposted0.
    subst c0. simpl. auto 10.
Qed.

(** *** Cache keys, again *)

(** The upload identifier a request counts with: 0 when it carries no upload
    data. *)
Definition upload_identifier (request : HttpRequestInfo) : Z :=
  match upload_data request with Some identifier => identifier | None => 0 end.

(** X15.  Cache keys in NORMAL mode.  Computing a key changes nothing in
    the cache, and two requests for the same URL get the same key exactly
    when they carry the same upload identifier, a request without upload
    data counting like one with identifier 0: an upload never shares the
    entry of a plain request or of another upload. *)
Theorem GenerateCacheKey_upload_distinct (r1 r2 : HttpRequestInfo) (c : HttpCache) :
  mode_ c = NORMAL ->
  SpecForRequest (request_url r1) = SpecForRequest (request_url r2) ->
  exists k1 k2,
    GenerateCacheKey r1 c = Some (k1, c, []) /\
    GenerateCacheKey r2 c = Some (k2, c, []) /\
    (k1 = k2 <-> upload_identifier r1 = upload_identifier r2).
Proof.
  clear_unused.
  intros Hmode Hurl.
  assert (Hkey : forall r,
    GenerateCacheKey r c =
      Some (if upload_identifier r =? 0 then SpecForRequest (request_url r)
            else Int64ToString (upload_identifier r) +:+ "/"
                 +:+ SpecForRequest (request_url r), c, [])).
  { intros r. unfold GenerateCacheKey, upload_identifier. run_monad.
    rewrite bool_decide_true by done.
    destruct (upload_data r) as [i|]; [|reflexivity].
    by destruct (i =? 0). }
  eexists _, _. split; [apply Hkey|]. split; [apply Hkey|].
  rewrite Hurl.
  assert (Hlonger : forall (i : Z) (url : string),
    url <> Int64ToString i +:+ "/" +:+ url).
  { intros i url Heq. apply (f_equal String.length) in Heq.
    rewrite !length_append in Heq. simpl in Heq. lia. }
  destruct (Z.eqb_spec (upload_identifier r1) 0) as [H1|H1],
           (Z.eqb_spec (upload_identifier r2) 0) as [H2|H2].
  - split; [congruence|done].
  - split; [intros Heq; by apply Hlonger in Heq|congruence].
  - split; [intros Heq; symmetry in Heq; by apply Hlonger in Heq|congruence].
  - split; [|by intros ->].
    intros Heq. apply append_cancel_r in Heq.
    unfold Int64ToString in Heq. by apply (inj pretty) in Heq.
Qed.


(** *** Well-formed caches *)

(** What holds of every entry: it has a disk entry, and while it has a
    writer it has no reader and no drain is scheduled for it. *)
Definition entry_sound (e : ActiveEntry) : Prop :=
  is_Some (disk_entry e) /\
  (writer e <> None -> readers e = [] /\ will_process_pending_queue e = false).

(** [std::set] keeps its elements in ascending order, each once. *)
Fixpoint ascending (l : list nat) : Prop :=
  match l with
  | [] => True
  | x :: l' => (forall y, y ∈ l' -> (x < y)%nat) /\ ascending l'
  end.

(** The store of entries [E], the table of active entries [A], the doomed
    set [D] and the next address [N] fit together: every entry is sound and
    was allocated; a key of the table leads to a live entry that is not
    doomed and whose disk entry has that key; a member of the doomed set is
    a live entry that is doomed. *)
Definition well_formed_tables (E : gmap EntryId ActiveEntry) (A : gmap string EntryId)
    (D : list EntryId) (N : EntryId) : Prop :=
  (forall i e, E !! i = Some e -> entry_sound e /\ (i < N)%nat) /\
  (forall k i, A !! k = Some i ->
     exists e d, E !! i = Some e /\ disk_entry e = Some d /\ de_key d = k /\
                 doomed e = false) /\
  (forall i, i ∈ D -> exists e, E !! i = Some e /\ doomed e = true) /\
  ascending D.

Definition WellFormed (c : HttpCache) : Prop :=
  well_formed_tables (entries c) (active_entries_ c) (doomed_entries_ c) (next_entry c).

Lemma ascending_set_insert (x : nat) (l : list nat) :
  ascending l -> ascending (set_insert x l).
Proof.
  clear_unused.
  induction l as [|z l IH]; simpl.
  - intros _. split; [|done]. by intros y Hy%elem_of_nil.
  - intros [Hz Hl]. repeat case_decide; simpl.
    + done.
    + split; [|done]. intros y [->|Hy]%elem_of_cons; [done|].
      specialize (Hz y Hy). lia.
    + split; [|by apply IH].
      intros y [->|Hy]%elem_of_set_insert; [lia|by apply Hz].
Qed.

Lemma elem_of_erase_first (x y : nat) (l : list nat) :
  ascending l -> y ∈ erase_first x l <-> y ∈ l /\ y <> x.
Proof.
  clear_unused.
  induction l as [|z l IH]; simpl.
  - intros _. rewrite elem_of_nil. tauto.
  - intros [Hz Hl]. case_decide as Hxz.
    + subst z. rewrite elem_of_cons. split.
      * intros Hy. split; [by right|]. specialize (Hz y Hy). lia.
      * intros [[->|Hy] Hne]; done.
    + rewrite !elem_of_cons, (IH Hl). split.
      * intros [->|[Hy Hne]]; [split; [by left|congruence]|split; [by right|done]].
      * intros [[->|Hy] Hne]; [by left|by right].
Qed.

Lemma ascending_erase_first (x : nat) (l : list nat) :
  ascending l -> ascending (erase_first x l).
Proof.
  clear_unused.
  induction l as [|z l IH]; simpl; [done|].
  intros [Hz Hl]. case_decide; [done|]. simpl. split; [|by apply IH].
  intros y [Hy _]%elem_of_erase_first; [by apply Hz|done].
Qed.

Lemma well_formed_put E A D N (i : EntryId) (e v : ActiveEntry) :
  well_formed_tables E A D N ->
  E !! i = Some e ->
  disk_entry v = disk_entry e -> doomed v = doomed e ->
  (entry_sound e -> entry_sound v) ->
  well_formed_tables (<[i := v]> E) A D N.
Proof.
  clear_unused.
  intros (H1 & H2 & H3 & H4) He Hdisk Hdoomed Hsound.
  destruct (H1 i e He) as [Hse Hlt].
  split; [|split; [|split]]; [| | |done].
  - intros j e' Hj. destruct (decide (i = j)) as [<-|Hne].
    + rewrite lookup_insert_eq in Hj. injection Hj as <-. auto.
    + rewrite lookup_insert_ne in Hj by done. by apply H1.
  - intros k j Hk. destruct (H2 k j Hk) as (e' & d & He' & Hd & Hkey & Hnd).
    destruct (decide (i = j)) as [<-|Hne].
    + exists v, d. rewrite lookup_insert_eq. split; [done|].
      rewrite Hdisk, Hdoomed. rewrite He in He'. injection He' as <-. done.
    + exists e', d. by rewrite lookup_insert_ne.
  - intros j Hj. destruct (H3 j Hj) as (e' & He' & Hd).
    destruct (decide (i = j)) as [<-|Hne].
    + exists v. rewrite lookup_insert_eq. split; [done|].
      rewrite Hdoomed. rewrite He in He'. by injection He' as <-.
    + exists e'. by rewrite lookup_insert_ne.
Qed.

Lemma well_formed_activate E A D N (d : DiskEntry) :
  well_formed_tables E A D N ->
  well_formed_tables (<[N := new_ActiveEntry d]> E) (<[de_key d := N]> A) D (S N).
Proof.
  clear_unused.
  intros (H1 & H2 & H3 & H4).
  split; [|split; [|split]]; [| | |done].
  - intros j e' Hj. destruct (decide (N = j)) as [<-|Hne].
    + rewrite lookup_insert_eq in Hj. injection Hj as <-.
      split; [|lia]. split; [by eexists|done].
    + rewrite lookup_insert_ne in Hj by done.
      destruct (H1 j e' Hj). split; [done|lia].
  - intros k j Hk. destruct (decide (de_key d = k)) as [<-|Hne].
    + rewrite lookup_insert_eq in Hk. injection Hk as <-.
      exists (new_ActiveEntry d), d. by rewrite lookup_insert_eq.
    + rewrite lookup_insert_ne in Hk by done.
      destruct (H2 k j Hk) as (e' & d' & He' & Hd).
      exists e', d'. rewrite lookup_insert_ne; [done|].
      destruct (H1 j e' He'). lia.
  - intros j Hj. destruct (H3 j Hj) as (e' & He' & Hd).
    exists e'. rewrite lookup_insert_ne; [done|].
    destruct (H1 j e' He'). lia.
Qed.

Lemma well_formed_deactivate E A D N (i : EntryId) (e : ActiveEntry) (d : DiskEntry) :
  well_formed_tables E A D N ->
  E !! i = Some e -> disk_entry e = Some d -> doomed e = false ->
  well_formed_tables (delete i E) (delete (de_key d) A) D N.
Proof.
  clear_unused.
  intros (H1 & H2 & H3 & H4) He Hd Hnd.
  split; [|split; [|split]]; [| | |done].
  - intros j e' [_ Hj]%lookup_delete_Some. by apply H1.
  - intros k j [Hk Hj]%lookup_delete_Some.
    destruct (H2 k j Hj) as (e' & d' & He' & Hd' & Hkey & Hnd').
    exists e', d'. split; [|done]. apply lookup_delete_Some. split; [|done].
    intros <-. rewrite He in He'. injection He' as <-. congruence.
  - intros j Hj. destruct (H3 j Hj) as (e' & He' & Hd').
    exists e'. split; [|done]. apply lookup_delete_Some. split; [|done].
    intros <-. rewrite He in He'. injection He' as <-. congruence.
Qed.

Lemma well_formed_deactivate_found E A D N (i : EntryId) (e : ActiveEntry)
    (k : string) :
  well_formed_tables E A D N ->
  A !! k = Some i -> E !! i = Some e ->
  well_formed_tables (delete i E) (delete k A) D N.
Proof.
  intros HW Hk He.
  destruct (proj1 (proj2 HW) k i Hk) as (e' & d & He' & Hd & <- & Hnd).
  rewrite He in He'. injection He' as <-.
  by apply (well_formed_deactivate E A D N i e d).
Qed.

Lemma well_formed_finalize E A D N (i : EntryId) :
  well_formed_tables E A D N ->
  i ∈ D ->
  well_formed_tables (delete i E) A (erase_first i D) N.
Proof.
  clear_unused.
  intros (H1 & H2 & H3 & H4) Hi.
  destruct (H3 i Hi) as (e & He & Hd).
  split; [|split; [|split]]; [| | |by apply ascending_erase_first].
  - intros j e' [_ Hj]%lookup_delete_Some. by apply H1.
  - intros k j Hk.
    destruct (H2 k j Hk) as (e' & d' & He' & Hd' & Hkey & Hnd').
    exists e', d'. split; [|done]. apply lookup_delete_Some. split; [|done].
    intros <-. rewrite He in He'. injection He' as <-. congruence.
  - intros j [Hj Hne]%elem_of_erase_first; [|done].
    destruct (H3 j Hj) as (e' & He' & Hd').
    exists e'. split; [|done]. apply lookup_delete_Some. by split.
Qed.

Lemma well_formed_doom E A D N (k : string) (i : EntryId) (e : ActiveEntry) :
  well_formed_tables E A D N ->
  A !! k = Some i -> E !! i = Some e ->
  well_formed_tables (<[i := set_doomed true e]> E) (delete k A) (set_insert i D) N.
Proof.
  clear_unused.
  intros (H1 & H2 & H3 & H4) Hk He.
  destruct (H1 i e He) as [Hse Hlt].
  destruct (H2 k i Hk) as (e0 & d0 & He0 & Hd0 & Hkey0 & Hnd0).
  rewrite He in He0. injection He0 as <-.
  split; [|split; [|split]]; [| | |by apply ascending_set_insert].
  - intros j e' Hj. destruct (decide (i = j)) as [<-|Hne].
    + rewrite lookup_insert_eq in Hj. injection Hj as <-. split; [|done].
      by destruct e.
    + rewrite lookup_insert_ne in Hj by done. by apply H1.
  - intros k' j [Hk' Hj]%lookup_delete_Some.
    destruct (H2 k' j Hj) as (e' & d' & He' & Hd' & Hkey & Hnd').
    exists e', d'. rewrite lookup_insert_ne; [done|].
    intros <-. rewrite He in He'. injection He' as <-. congruence.
  - intros j Hj. destruct (decide (i = j)) as [<-|Hne].
    + exists (set_doomed true e). by rewrite lookup_insert_eq.
    + apply elem_of_set_insert in Hj as [->|Hj]; [done|].
      destruct (H3 j Hj) as (e' & He' & Hd').
      exists e'. by rewrite lookup_insert_ne.
Qed.

(** *** A logic of the member functions

    [hoare P m Q]: from a cache that satisfies [P], whenever [m] answers,
    its answer and the cache it leaves satisfy [Q]. *)

Definition hoare {A} (P : HttpCache -> Prop) (m : M A) (Q : A -> HttpCache -> Prop)
    : Prop :=
  forall c a c' evs, P c -> m c = Some (a, c', evs) -> Q a c'.

Lemma hoare_ret {A} P (a : A) (Q : A -> HttpCache -> Prop) :
  (forall c, P c -> Q a c) -> hoare P (ret a) Q.
Proof. intros H c a' c' evs HP [= <- <- _]. auto. Qed.

Lemma hoare_get P (Q : HttpCache -> HttpCache -> Prop) :
  (forall c, P c -> Q c c) -> hoare P get Q.
Proof. intros H c a' c' evs HP [= <- <- _]. auto. Qed.

Lemma hoare_modify P (f : HttpCache -> HttpCache) (Q : unit -> HttpCache -> Prop) :
  (forall c, P c -> Q tt (f c)) -> hoare P (modify f) Q.
Proof. intros H c a' c' evs HP [= <- <- _]. auto. Qed.

Lemma hoare_emit P (e : Event) (Q : unit -> HttpCache -> Prop) :
  (forall c, P c -> Q tt c) -> hoare P (emit e) Q.
Proof. intros H c a' c' evs HP [= <- <- _]. auto. Qed.

Lemma hoare_undefined {A} P (Q : A -> HttpCache -> Prop) : hoare P undefined Q.
Proof. intros c a c' evs HP [=]. Qed.

Lemma hoare_deref {A} P (p : option A) (Q : A -> HttpCache -> Prop) :
  (forall a, p = Some a -> forall c, P c -> Q a c) -> hoare P (deref p) Q.
Proof. intros H c a c' evs HP. destruct p; [|done]. intros [= <- <- _]. auto. Qed.

Lemma hoare_bind {A B} P (m : M A) (f : A -> M B) Q R :
  hoare P m Q -> (forall a, hoare (Q a) (f a) R) -> hoare P (bind m f) R.
Proof.
  intros Hm Hf c b c' evs HP. unfold bind.
  destruct (m c) as [[[a c1] ev1]|] eqn:Hmc; [|done].
  destruct (f a c1) as [[[b' c2] ev2]|] eqn:Hfa; [|done].
  intros [= <- <- _]. exact (Hf a _ _ _ _ (Hm _ _ _ _ HP Hmc) Hfa).
Qed.

Lemma hoare_bind_assoc {A B C} P (m : M A) (f : A -> M B) (g : B -> M C) R :
  hoare P (bind m (fun a => bind (f a) g)) R -> hoare P (bind (bind m f) g) R.
Proof. intros H c x c' evs HP Hrun. rewrite bind_assoc in Hrun. eauto. Qed.

Lemma hoare_bind_ret {A B} P (a : A) (f : A -> M B) R :
  hoare P (f a) R -> hoare P (bind (ret a) f) R.
Proof.
  intros H c b c' evs HP Hrun. apply (H c b c' evs HP).
  unfold bind, ret in Hrun.
  destruct (f a c) as [[[b' c2] ev2]|]; [|done]. by injection Hrun as <- <- <-.
Qed.

Lemma hoare_bind_get {B} P (f : HttpCache -> M B) R :
  (forall c0, hoare (fun c => P c /\ c = c0) (f c0) R) -> hoare P (bind get f) R.
Proof.
  intros H c b c' evs HP Hrun. apply (H c c b c' evs); [by split|].
  unfold bind, get in Hrun.
  destruct (f c c) as [[[b' c2] ev2]|]; [|done]. by injection Hrun as <- <- <-.
Qed.

Lemma hoare_bind_modify {B} P (g : HttpCache -> HttpCache) (f : unit -> M B) R :
  hoare (fun c' => exists c, P c /\ c' = g c) (f tt) R -> hoare P (bind (modify g) f) R.
Proof.
  intros H c b c' evs HP Hrun. apply (H (g c) b c' evs); [by exists c|].
  unfold bind, modify in Hrun.
  destruct (f tt (g c)) as [[[b' c2] ev2]|]; [|done]. by injection Hrun as <- <- <-.
Qed.

Lemma hoare_bind_emit {B} P (e : Event) (f : unit -> M B) R :
  hoare P (f tt) R -> hoare P (bind (emit e) f) R.
Proof.
  intros H c b c' evs HP Hrun.
  unfold bind, emit in Hrun.
  destruct (f tt c) as [[[b' c2] ev2]|] eqn:Hf; [|done].
  injection Hrun as <- <- _. exact (H c b' c2 ev2 HP Hf).
Qed.

Lemma hoare_bind_undefined {A B} P (f : A -> M B) R : hoare P (bind undefined f) R.
Proof. intros c a c' evs HP [=]. Qed.

Lemma hoare_bind_deref {A B} P (p : option A) (f : A -> M B) R :
  (forall a, p = Some a -> hoare P (f a) R) -> hoare P (bind (deref p) f) R.
Proof.
  intros H c b c' evs HP. destruct p as [a|]; [|done].
  intros Hrun. eapply (H a eq_refl); [exact HP|].
  unfold bind, deref, ret in *. simpl in Hrun.
  destruct (f a c) as [[[b' c2] ev2]|]; [|done]. by injection Hrun as <- <- <-.
Qed.

Lemma hoare_bind_call {A B} P (g : M A) (f : A -> M B) R :
  hoare WellFormed g (fun _ => WellFormed) ->
  (forall c, P c -> WellFormed c) ->
  (forall a, hoare WellFormed (f a) R) ->
  hoare P (bind g f) R.
Proof.
  intros Hg HP Hf. eapply hoare_bind; [|exact Hf].
  intros c a c' evs Hc. apply Hg. by apply HP.
Qed.

Lemma hoare_call {A} P (g : M A) :
  hoare WellFormed g (fun _ => WellFormed) ->
  (forall c, P c -> WellFormed c) ->
  hoare P g (fun _ => WellFormed).
Proof. intros Hg HP c a c' evs Hc. apply Hg. by apply HP. Qed.

Create HintDb wf.

(** The transactions and the embedder act on the cache through its
    operations only, so what they do in a callback keeps it well formed. *)
Hypothesis react_well_formed : forall ev c, WellFormed c -> WellFormed (react ev c).

Ltac unpack :=
  repeat match goal with
  | H : _ /\ _ |- _ => destruct H
  | H : exists _, _ |- _ => destruct H
  end.

Ltac solve_entry_sound :=
  unfold entry_sound in *; simpl in *; intros; unpack;
  repeat match goal with
  | H : context [writer ?a] |- _ =>
      is_var a;
      lazymatch goal with
      | _ : writer a = _ |- _ => fail
      | _ => destruct (writer a) eqn:?; simpl in *
      end
  | |- context [writer ?a] =>
      is_var a;
      lazymatch goal with
      | _ : writer a = _ |- _ => fail
      | _ => destruct (writer a) eqn:?; simpl in *
      end
  end;
  repeat match goal with
  | H : ?P -> _ /\ _ |- _ =>
      let HP := fresh in
      assert (HP : P) by congruence; specialize (H HP); destruct H
  end;
  repeat match goal with
  | H : readers ?a = [] |- _ => is_var a; rewrite H in *; clear H
  end;
  simpl in *;
  try match goal with H : _ ∈ [] |- _ => by apply elem_of_nil in H end;
  try done; try congruence; try (intuition congruence).

Ltac wf_tables :=
  lazymatch goal with
  | |- well_formed_tables (<[_ := new_ActiveEntry _]> _) (<[_ := _]> _) _ (S _) =>
      eapply well_formed_activate; eassumption
  | |- well_formed_tables (<[_ := set_doomed true _]> _) (delete _ _) (set_insert _ _) _ =>
      eapply well_formed_doom; eassumption
  | |- well_formed_tables (delete _ _) (delete _ _) _ _ =>
      first [ eapply well_formed_deactivate; eassumption
            | eapply well_formed_deactivate_found; eassumption ]
  | |- well_formed_tables (delete _ _) _ (erase_first _ _) _ =>
      eapply well_formed_finalize; eassumption
  | |- well_formed_tables (<[_ := _]> _) _ _ _ =>
      eapply well_formed_put;
        [ wf_tables
        | first [eassumption | apply lookup_insert_eq]
        | reflexivity
        | reflexivity
        | solve [solve_entry_sound] ]
  | |- _ => eassumption
  end.

Ltac wf_leaf :=
  cbv beta; intros; unpack; subst;
  try (apply react_well_formed);
  unfold WellFormed in *; simpl in *;
  repeat match goal with
  | H : <[?i := _]> _ !! ?i = Some _ |- _ => rewrite lookup_insert_eq in H
  | H : find_by_value _ _ = Some _ |- _ => apply find_by_value_Some in H
  end;
  simplify_eq; use_tests;
  repeat match goal with
  | HW : well_formed_tables ?E _ _ _, H : ?E !! ?i = Some ?a |- _ =>
      lazymatch goal with
      | _ : entry_sound a |- _ => fail
      | _ => pose proof (proj1 (proj1 HW i a H))
      end
  end;
  wf_tables.

Ltac hoare_step :=
  lazymatch goal with
  | |- hoare _ (bind (bind _ _) _) _ => apply hoare_bind_assoc
  | |- hoare _ (bind (ret _) _) _ => apply hoare_bind_ret
  | |- hoare _ (bind get _) _ => apply hoare_bind_get; intros ?
  | |- hoare _ (bind (modify _) _) _ => apply hoare_bind_modify
  | |- hoare _ (bind (emit _) _) _ => apply hoare_bind_emit
  | |- hoare _ (bind undefined _) _ => apply hoare_bind_undefined
  | |- hoare _ (bind (deref _) _) _ => apply hoare_bind_deref; intros ? ?
  | |- hoare _ (bind (if ?b then _ else _) _) _ => destruct b eqn:?
  | |- hoare _ (bind (match ?x with _ => _ end) _) _ => destruct x eqn:?
  | |- hoare _ (bind _ _) _ =>
      eapply hoare_bind_call; [solve [eauto with wf] | wf_leaf | intros ?]
  | |- hoare _ (if ?b then _ else _) _ => destruct b eqn:?
  | |- hoare _ (match ?x with _ => _ end) _ => destruct x eqn:?
  | |- hoare _ (ret _) _ => apply hoare_ret; wf_leaf
  | |- hoare _ get _ => apply hoare_get; wf_leaf
  | |- hoare _ (modify _) _ => apply hoare_modify; wf_leaf
  | |- hoare _ (emit _) _ => apply hoare_emit; wf_leaf
  | |- hoare _ undefined _ => apply hoare_undefined
  | |- hoare _ (deref _) _ => apply hoare_deref; intros ? ?; wf_leaf
  | |- hoare _ _ _ => eapply hoare_call; [solve [eauto with wf] | wf_leaf]
  end.

(** Unfolds the accessors of the stores down to [get] and [modify]. *)
Ltac hoare_auto :=
  cbv beta zeta delta
    [load_entry store_entry update_entry load_op store_op update_op PostTask when];
  repeat hoare_step.

Abbreviation preserves m := (hoare WellFormed m (fun _ => WellFormed)).

Lemma preserves_Run t r : preserves (Run t r).
Proof. unfold Run. hoare_auto. Qed.

Lemma preserves_UserRun cb r : preserves (UserRun cb r).
Proof. unfold UserRun. hoare_auto. Qed.

Local Hint Resolve preserves_Run preserves_UserRun : wf.

Lemma preserves_NotifyTransaction w r e : preserves (NotifyTransaction w r e).
Proof. unfold NotifyTransaction. hoare_auto. Qed.

Lemma preserves_DoCallback w r b : preserves (DoCallback w r b).
Proof. unfold DoCallback. hoare_auto. Qed.

Lemma preserves_FindActiveEntry k : preserves (FindActiveEntry k).
Proof. unfold FindActiveEntry. hoare_auto. Qed.

Lemma preserves_ActivateEntry d : preserves (ActivateEntry (de_key d) d).
Proof. unfold ActivateEntry. hoare_auto. Qed.

Local Hint Resolve preserves_NotifyTransaction preserves_DoCallback
  preserves_FindActiveEntry preserves_ActivateEntry : wf.

Lemma preserves_DestroyEntry i : preserves (DestroyEntry i).
Proof.
  unfold DestroyEntry, FinalizeDoomedEntry, DeactivateEntry, SlowDeactivateEntry,
    delete_entry.
  hoare_auto.
Qed.

Lemma preserves_GetPendingOp k : preserves (GetPendingOp k).
Proof. unfold GetPendingOp. hoare_auto. Qed.

Lemma preserves_DeletePendingOp j : preserves (DeletePendingOp j).
Proof. unfold DeletePendingOp. hoare_auto. Qed.

Local Hint Resolve preserves_DestroyEntry preserves_GetPendingOp
  preserves_DeletePendingOp : wf.

Lemma preserves_AddTransactionToEntry i t : preserves (AddTransactionToEntry i t).
Proof. unfold AddTransactionToEntry, ProcessPendingQueue. hoare_auto. Qed.

Lemma preserves_run_all q r : preserves (run_all q r).
Proof. induction q; simpl; hoare_auto. Qed.

Local Hint Resolve preserves_AddTransactionToEntry preserves_run_all : wf.

Lemma preserves_DoneWritingToEntry i success : preserves (DoneWritingToEntry i success).
Proof. unfold DoneWritingToEntry, ProcessPendingQueue. hoare_auto. Qed.

Lemma preserves_DoneReadingFromEntry i t : preserves (DoneReadingFromEntry i t).
Proof. unfold DoneReadingFromEntry, ProcessPendingQueue. hoare_auto. Qed.

Local Hint Resolve preserves_DoneWritingToEntry preserves_DoneReadingFromEntry : wf.

Lemma preserves_DoneWithEntry i t cancel : preserves (DoneWithEntry i t cancel).
Proof. unfold DoneWithEntry. hoare_auto. Qed.

Lemma preserves_ConvertWriterToReader i : preserves (ConvertWriterToReader i).
Proof. unfold ConvertWriterToReader, ProcessPendingQueue. hoare_auto. Qed.

Lemma preserves_OnProcessPendingQueue i : preserves (OnProcessPendingQueue i).
Proof. unfold OnProcessPendingQueue. hoare_auto. Qed.

Local Hint Resolve preserves_DoneWithEntry preserves_ConvertWriterToReader
  preserves_OnProcessPendingQueue : wf.

Lemma preserves_RemovePendingTransactionFromEntry i t :
  preserves (RemovePendingTransactionFromEntry i t).
Proof. unfold RemovePendingTransactionFromEntry. hoare_auto. Qed.

Lemma preserves_RemovePendingTransactionFromPendingOp j t :
  preserves (RemovePendingTransactionFromPendingOp j t).
Proof. unfold RemovePendingTransactionFromPendingOp. hoare_auto. Qed.

Local Hint Resolve preserves_RemovePendingTransactionFromEntry
  preserves_RemovePendingTransactionFromPendingOp : wf.

Lemma preserves_remove_from_doomed ks t found :
  preserves (remove_from_doomed ks t found).
Proof. revert found. induction ks; intros found; simpl; hoare_auto. Qed.

Local Hint Resolve preserves_remove_from_doomed : wf.

Lemma preserves_RemovePendingTransaction t : preserves (RemovePendingTransaction t).
Proof. unfold RemovePendingTransaction. hoare_auto. Qed.

Lemma preserves_OnBackendCreated r j : preserves (OnBackendCreated r j).
Proof. unfold OnBackendCreated. hoare_auto. Qed.

Lemma preserves_notify_queued op r k item fail entry :
  preserves (notify_queued op r k item fail entry).
Proof. unfold notify_queued. hoare_auto. Qed.

Local Hint Resolve preserves_RemovePendingTransaction preserves_OnBackendCreated
  preserves_notify_queued : wf.

Lemma preserves_notify_pending_items op r k items fail entry :
  preserves (notify_pending_items op r k items fail entry).
Proof.
  revert fail entry. induction items as [|item items IH]; intros fail entry.
  - change (preserves (ret tt)). hoare_auto.
  - change (preserves (st <- notify_queued op r k item fail entry;
                       notify_pending_items op r k items (fst st) (snd st))).
    hoare_auto.
Qed.

Local Hint Resolve preserves_notify_pending_items : wf.

Lemma preserves_OnIOComplete r j : preserves (OnIOComplete r j).
Proof.
  unfold OnIOComplete, OnIOComplete_settle, OnIOComplete_outcome, OnIOComplete_notify.
  hoare_auto.
Qed.

Local Hint Resolve preserves_OnIOComplete : wf.

Lemma preserves_issue j p item call fill clear rv :
  preserves (issue j p item call fill clear rv).
Proof. unfold issue, BackendCallback_Run. hoare_auto. Qed.

Local Hint Resolve preserves_issue : wf.

Lemma preserves_CreateBackend backend callback rv b :
  preserves (CreateBackend backend callback rv b).
Proof. unfold CreateBackend. hoare_auto. Qed.

Local Hint Resolve preserves_CreateBackend : wf.

Lemma preserves_AsyncDoomEntry k t rv : preserves (AsyncDoomEntry k t rv).
Proof. unfold AsyncDoomEntry. hoare_auto. Qed.

Local Hint Resolve preserves_AsyncDoomEntry : wf.

Lemma preserves_perform call : preserves (perform call).
Proof.
  destruct call; unfold perform, set_mode, GetBackend, CreateTransaction,
    GetBackendForTransaction, GenerateCacheKey, OpenEntry, CreateEntry, DoomEntry,
    backend_completes, BackendCallback_Run, run_task;
    hoare_auto.
Qed.

Lemma reachable_WellFormed (c : HttpCache) : reachable c -> WellFormed c.
Proof.
  induction 1 as [factory|c call c' evs Hc IH Hcall].
  - unfold WellFormed, well_formed_tables, new_HttpCache. simpl.
    split; [|split; [|split]]; [| | |done].
    + intros i e. by rewrite lookup_empty.
    + intros k i. by rewrite lookup_empty.
    + intros i Hi. by apply elem_of_nil in Hi.
  - exact (preserves_perform call _ _ _ _ IH Hcall).
Qed.

Lemma preserves_run_calls calls : preserves (run_calls calls).
Proof.
  induction calls as [|call rest IH]; simpl; [hoare_auto|].
  eapply hoare_bind; [apply preserves_perform|]. intros []. exact IH.
Qed.

Lemma ascending_NoDup (l : list nat) : ascending l -> NoDup l.
Proof.
  induction l as [|x l IH]; simpl; [constructor|].
  intros [Hx Hl]. constructor; [|by apply IH].
  intros Hin. specialize (Hx x Hin). lia.
Qed.

(** X17.  What the [DCHECK]s of the lock say holds of every entry, active
    or doomed, of every cache that can be reached from a new one: the entry
    has its disk entry, and while it has a writer it has no reader and no
    drain is scheduled for it.  So a drain that was scheduled finds the entry
    without a writer, and a writer that releases the entry finds no drain
    pending. *)
Theorem reachable_entries_sound (c : HttpCache) :
  reachable c ->
  forall i e,
    entries c !! i = Some e ->
    is_Some (disk_entry e)
    /\ (writer e <> None -> readers e = [] /\ will_process_pending_queue e = false)
    /\ (will_process_pending_queue e = true -> writer e = None).
Proof.
  intros Hc i e He.
  destruct (reachable_WellFormed c Hc) as (H1 & _).
  destruct (H1 i e He) as [[Hd Hw] _].
  split; [exact Hd|]. split; [exact Hw|].
  intros Hwp. destruct (writer e) as [w|] eqn:Hwe; [|done].
  destruct Hw as [_ Hw]; [done|]. congruence.
Qed.

(** X18.  The tables of every reachable cache hold no dangling pointer, and
    a doomed entry cannot be found by key.  A key of the table of active
    entries leads to a live entry that is not doomed, is not in the doomed
    set and whose disk entry has that very key, so that no entry is in the
    table twice; a member of the doomed set is a live entry with its doomed
    flag set that no key leads to; and the doomed set holds no entry twice. *)
Theorem reachable_tables (c : HttpCache) :
  reachable c ->
  (forall key i,
     active_entries_ c !! key = Some i ->
     exists e d,
       entries c !! i = Some e /\ disk_entry e = Some d /\ de_key d = key /\
       doomed e = false /\ i ∉ doomed_entries_ c)
  /\ (forall i,
        i ∈ doomed_entries_ c ->
        exists e,
          entries c !! i = Some e /\ doomed e = true /\
          forall key, active_entries_ c !! key <> Some i)
  /\ (forall key1 key2 i,
        active_entries_ c !! key1 = Some i -> active_entries_ c !! key2 = Some i ->
        key1 = key2)
  /\ NoDup (doomed_entries_ c).
Proof.
  intros Hc.
  destruct (reachable_WellFormed c Hc) as (H1 & H2 & H3 & H4).
  split; [|split; [|split]].
  - intros key i Hk. destruct (H2 key i Hk) as (e & d & He & Hd & Hkey & Hnd).
    exists e, d. repeat (split; [done|]).
    intros Hi. destruct (H3 i Hi) as (e' & He' & Hd'). congruence.
  - intros i Hi. destruct (H3 i Hi) as (e & He & Hd).
    exists e. repeat (split; [done|]).
    intros key Hk. destruct (H2 key i Hk) as (e' & d & He' & _ & _ & Hnd). congruence.
  - intros key1 key2 i Hk1 Hk2.
    destruct (H2 key1 i Hk1) as (e1 & d1 & He1 & Hd1 & <- & _).
    destruct (H2 key2 i Hk2) as (e2 & d2 & He2 & Hd2 & <- & _).
    congruence.
  - by apply ascending_NoDup.
Qed.

(** *** Cancellation, again *)

Lemma erase_first_others (t : nat) (l : list nat) :
  filter (fun u => u <> t) (erase_first t l) = filter (fun u => u <> t) l.
Proof.
  clear_unused.
  induction l as [|x l IH]; simpl; [done|].
  case_decide as Hx.
  - subst x. by rewrite filter_cons_False by (by intros []).
  - rewrite !filter_cons. by rewrite IH.
Qed.

Lemma erase_first_length (t : nat) (l : list nat) :
  t ∈ l -> S (length (erase_first t l)) = length l.
Proof.
  clear_unused.
  induction l as [|x l IH]; simpl.
  - by intros Hin%elem_of_nil.
  - intros Hin. case_decide as Hx; [done|]. simpl. f_equal. apply IH.
    apply elem_of_cons in Hin as [->|Hin]; done.
Qed.

(** X19.  Cancelling a transaction that waits in the queue of an entry
    takes one occurrence of it out of the queue and nothing else: the other
    transactions keep their places, and the writer and the readers are not
    touched.  When the transaction does not wait there, the answer is false
    and the cache is not changed. *)
Theorem RemovePendingTransactionFromEntry_keeps_order (entry : EntryId)
    (trans : Transaction) (c : HttpCache) (e : ActiveEntry) :
  entries c !! entry = Some e ->
  exists q,
    RemovePendingTransactionFromEntry entry trans c =
      Some (bool_decide (trans ∈ pending_queue e),
            (if bool_decide (trans ∈ pending_queue e)
             then put_entry entry (set_pending_queue q e) c else c), [])
    /\ filter (fun u => u <> trans) q =
         filter (fun u => u <> trans) (pending_queue e)
    /\ (trans ∈ pending_queue e -> S (length q) = length (pending_queue e))
    /\ (trans ∉ pending_queue e -> q = pending_queue e).
Proof.
  clear_unused.
  intros He. exists (erase_first trans (pending_queue e)).
  split; [|split; [|split]].
  - unfold RemovePendingTransactionFromEntry.
    rewrite (bind_run _ _ _ _ _ _ (load_entry_run _ _ _ He)).
    by case_bool_decide.
  - apply erase_first_others.
  - apply erase_first_length.
  - intros Hnot. induction (pending_queue e) as [|x l IH]; simpl; [done|].
    apply not_elem_of_cons in Hnot as [Hne Hnot].
    rewrite decide_False by done. by rewrite IH.
Qed.

End Core.

(** ** The properties at work on the sample caches *)

Lemma AddTransactionToEntry_admission_witness :
  exists rv e' tasks,
    AddTransactionToEntry sample_mode 0%nat 3%nat (cache_with contended_entry) =
      Some (rv, with_posted (posted (cache_with contended_entry) ++ tasks)
                  (with_entries (<[0%nat := e']> (entries (cache_with contended_entry)))
                                (cache_with contended_entry)), [])
    /\ rv = OK /\ readers e' = [1; 3]%nat
    /\ will_process_pending_queue e' = true
    /\ tasks = [TaskOnProcessPendingQueue 0%nat].
Proof.
  destruct (AddTransactionToEntry_admission sample_mode 0%nat 3%nat
              (cache_with contended_entry) contended_entry eq_refl)
    as (rv & e' & tasks & Hrun & _ & _ & Hread & Hdrain).
  destruct (Hread eq_refl eq_refl eq_refl) as (Hrv & Hw & Hr & Hq & _).
  specialize (Hdrain Hrv). rewrite Hw, Hq in Hdrain. simpl in Hdrain.
  exists rv, e', tasks. tauto.
Defined.

Lemma DoneWithEntry_drain_scheduled_witness :
  DoneWithEntry sample_flag no_reaction 0%nat 2%nat true (cache_with draining_entry) =
    Some (tt, cache_with draining_entry, []).
Proof.
  apply (DoneWithEntry_drain_scheduled sample_flag no_reaction 0%nat 2%nat true
           (cache_with draining_entry) draining_entry); reflexivity.
Defined.

Lemma DoneWritingToEntry_release_witness :
  entry_registered (cache_with written_entry) 0%nat written_entry /\
  (exists c',
     DoneWritingToEntry no_reaction 0%nat true (cache_with written_entry) =
       Some (tt, c', []) /\
     entries c' !! 0%nat = Some (set_will_process true (set_writer None written_entry)) /\
     posted c' = [TaskOnProcessPendingQueue 0%nat]) /\
  (exists k,
     DoneWritingToEntry no_reaction 0%nat false (cache_with written_entry) =
       Some (tt,
             after_callbacks no_reaction [3; 5]%nat ERR_CACHE_RACE
               (destroyed (cache_with written_entry) 0%nat written_entry k),
             [EvDoom sample_disk; EvClose sample_disk;
              EvRun 3%nat ERR_CACHE_RACE; EvRun 5%nat ERR_CACHE_RACE])).
Proof.
  assert (Hreg : entry_registered (cache_with written_entry) 0%nat written_entry).
  { exists sample_disk. split; reflexivity. }
  split; [exact Hreg|].
  destruct (DoneWritingToEntry_release no_reaction 0%nat (cache_with written_entry)
              written_entry eq_refl) as [Hsuccess Hfailure].
  split; [exact Hsuccess|].
  destruct (Hfailure sample_disk eq_refl Hreg) as (k & _ & Hrun & _).
  exists k. exact Hrun.
Defined.

Lemma open_op_registered :
  op_registered (cache_with_op open_op) 0%nat open_op "k".
Proof.
  split; [reflexivity|]. split; [|intros d [=]].
  intros k Hk. simpl in Hk.
  apply lookup_singleton_Some in Hk. by destruct Hk.
Qed.

Lemma create_op_registered :
  op_registered (cache_with_op create_op) 0%nat create_op "k".
Proof.
  split; [reflexivity|]. split; [|intros d [= <-]; by left].
  intros k Hk. simpl in Hk.
  apply lookup_singleton_Some in Hk. by destruct Hk.
Qed.

(** The OPEN_ENTRY of transaction 2 fails: the CREATE_ENTRY queued behind it
    is told of the race.  The CREATE_ENTRY of transaction 2 succeeds: it is
    given the new entry, the CREATE_ENTRY queued behind it fails, and the
    OPEN_ENTRY behind that one is given the same entry. *)
Lemma OnIOComplete_notify_table_witness :
  (exists c',
     OnIOComplete no_reaction ERR_FAILED 0%nat (cache_with_op open_op) =
       Some (tt, c', [EvSetEntry 20%nat None; EvRun 2%nat ERR_FAILED;
                      EvSetEntry 40%nat None; EvRun 4%nat ERR_CACHE_RACE]))
  /\ (exists c',
       OnIOComplete no_reaction OK 0%nat (cache_with_op create_op) =
         Some (tt, c', [EvSetEntry 20%nat (Some 0%nat); EvRun 2%nat OK;
                        EvSetEntry 40%nat None; EvRun 4%nat ERR_CACHE_CREATE_FAILURE;
                        EvSetEntry 60%nat (Some 0%nat); EvRun 6%nat OK])).
Proof.
  split.
  - destruct (OnIOComplete_notify_table no_reaction ERR_FAILED 0%nat
                (cache_with_op open_op) open_op
                (mkWorkItem WI_OPEN_ENTRY (Some 2%nat) (Some 20%nat) None None) "k"
                eq_refl eq_refl)
      as (k & c1 & evs1 & notes & c' & _ & Hrun & _ & Hdrained & Hfailed & _).
    + discriminate.
    + exact open_op_registered.
    + intros [=].
    + destruct Hfailed as (Hfail & Hentry & Hkey & Hc1 & Hevs); [discriminate|].
      exists c'. rewrite Hrun, Hentry, Hevs.
      rewrite Hfail, Hentry, Hkey, Hc1 in Hdrained.
      inversion Hdrained as [|? ? ? ? res ent fail' notes' ? Hrow Hrest]; subst.
      inversion Hrest; subst.
      vm_compute in Hrow. destruct Hrow as (-> & -> & ->).
      reflexivity.
  - destruct (OnIOComplete_notify_table no_reaction OK 0%nat
                (cache_with_op create_op) create_op
                (mkWorkItem WI_CREATE_ENTRY (Some 2%nat) (Some 20%nat) None None) "k"
                eq_refl eq_refl)
      as (k & c1 & evs1 & notes & c' & _ & Hrun & _ & Hdrained & _ & _ & Hgiven).
    + discriminate.
    + exact create_op_registered.
    + intros _ _. by eexists.
    + destruct (Hgiven eq_refl ltac:(discriminate) sample_disk eq_refl)
        as (Hfail & Hentry & Hkey & Hc1 & Hevs).
      exists c'. rewrite Hrun, Hentry, Hevs.
      rewrite Hfail, Hentry, Hkey, Hc1 in Hdrained.
      inversion Hdrained as [|? ? ? ? res ent fail' notes' ? Hrow Hrest]; subst.
      vm_compute in Hrow. destruct Hrow as (-> & -> & ->).
      inversion Hrest as [|? ? ? ? res ent fail' notes'' ? Hrow' Hrest']; subst.
      vm_compute in Hrow'. destruct Hrow' as (-> & -> & ->).
      inversion Hrest'; subst.
      reflexivity.
Defined.

Lemma OnIOComplete_deletes_before_notifying_witness :
  exists k c1 evs1,
    OnIOComplete_settle ERR_FAILED 0%nat
      (mkWorkItem WI_OPEN_ENTRY (Some 2%nat) (Some 20%nat) None None)
      (cache_with_op open_op) = Some (k, c1, evs1)
    /\ snapshot k = [mkWorkItem WI_CREATE_ENTRY (Some 4%nat) (Some 40%nat) None None]
    /\ ops c1 !! 0%nat = None
    /\ pending_ops_ c1 !! "k" <> Some 0%nat.
Proof.
  destruct (OnIOComplete_deletes_before_notifying no_reaction ERR_FAILED 0%nat
              (cache_with_op open_op) open_op
              (mkWorkItem WI_OPEN_ENTRY (Some 2%nat) (Some 20%nat) None None) "k")
    as (k & c1 & evs1 & Hsettle & Hsnap & _ & Hops & Hgone & _).
  - reflexivity.
  - reflexivity.
  - discriminate.
  - exact open_op_registered.
  - simpl. lia.
  - intros [=].
  - exists k, c1, evs1. split; [exact Hsettle|]. split; [exact Hsnap|].
    split; [exact Hops|]. apply Hgone.
Defined.

Lemma GenerateCacheKey_generations_witness :
  (exists c',
     generate_keys sample_spec [sample_request; sample_request; sample_request]
                   recording_cache =
       Some (["0GEThttp://a/"; "1GEThttp://a/"; "2GEThttp://a/"], c', []) /\
     generation_of "http://a/" c' = 3)
  /\ NoDup ["0GEThttp://a/"; "1GEThttp://a/"; "2GEThttp://a/"].
Proof.
  apply (GenerateCacheKey_generations sample_spec "GET" "http://a/"
           [sample_request; sample_request; sample_request] recording_cache).
  - left. reflexivity.
  - repeat constructor.
  - intros map [=].
  - simpl. lia.
Defined.

Lemma gate_and_key_op_valid : pointers_valid gate_and_key_op.
Proof.
  split; [|split].
  - intros k i Hk. simpl in Hk. by rewrite lookup_empty in Hk.
  - intros i Hi. simpl in Hi. by apply elem_of_nil in Hi.
  - intros k j Hk. simpl in Hk.
    apply lookup_insert_Some in Hk as [[_ <-]|[_ Hk]].
    + eexists. split; [reflexivity|]. by eexists.
    + apply lookup_singleton_Some in Hk as [_ <-].
      eexists. split; [reflexivity|]. by eexists.
Qed.

(** Transaction 7 is cancelled: it is taken out of the queue of the gate, and
    the pending operation of its key keeps it as its lead. *)
Lemma RemovePendingTransaction_search_witness :
  exists c',
    RemovePendingTransaction sample_key 7%nat gate_and_key_op = Some (tt, c', []) /\
    op_pending_queue <$> ops c' !! 0%nat = Some [] /\
    (op_writer <$> ops c' !! 1%nat) =
      Some (Some (mkWorkItem WI_OPEN_ENTRY (Some 7%nat) (Some 70%nat) None None)).
Proof.
  exists (remove_at (where_is sample_key gate_and_key_op 7%nat) 7%nat gate_and_key_op).
  split.
  - apply (RemovePendingTransaction_search sample_key 7%nat gate_and_key_op).
    exact gate_and_key_op_valid.
  - split; vm_compute; reflexivity.
Defined.

(** C6, as the design document has it, fails on the same cache: going by the
    listed order the transaction would be found in the pending operation of
    its key first, whose lead would lose its transaction, and the gate would
    keep the queued item. *)
Lemma RemovePendingTransaction_not_in_listed_order :
  pointers_valid gate_and_key_op /\
  where_is_listed sample_key gate_and_key_op 7%nat = InPendingOp 1%nat /\
  where_is sample_key gate_and_key_op 7%nat = InPendingOp 0%nat /\
  RemovePendingTransaction sample_key 7%nat gate_and_key_op <>
    Some (tt, remove_at (where_is_listed sample_key gate_and_key_op 7%nat) 7%nat
                gate_and_key_op, []).
Proof.
  split; [exact gate_and_key_op_valid|].
  split; [vm_compute; reflexivity|]. split; [vm_compute; reflexivity|].
  intros H.
  apply (f_equal (fun r => match r with
                           | Some (_, c, _) => op_pending_queue <$> ops c !! 0%nat
                           | None => None
                           end)) in H.
  vm_compute in H. discriminate H.
Qed.

(** C7, as the design document has it, fails when the backend completes at
    once: no entry is active for the key, and the answer is the result of the
    backend, OK for [OpenEntry] here and ERR_FAILED for [CreateEntry]. *)
Lemma OpenEntry_CreateEntry_not_always_pending :
  active_entries_ idle_cache !! "k" = None /\
  (exists c',
     OpenEntry no_reaction "k" 20%nat 2%nat OK (Some sample_disk) idle_cache =
       Some (OK, c', [EvBackendOpenEntry "k" 0%nat; EvSetEntry 20%nat (Some 0%nat)])) /\
  (exists c',
     CreateEntry no_reaction "k" 20%nat 2%nat ERR_FAILED None idle_cache =
       Some (ERR_FAILED, c', [EvBackendCreateEntry "k" 0%nat; EvSetEntry 20%nat None])) /\
  OK <> ERR_IO_PENDING /\ ERR_FAILED <> ERR_IO_PENDING.
Proof.
  split; [reflexivity|].
  split; [eexists; vm_compute; reflexivity|].
  split; [eexists; vm_compute; reflexivity|].
  split; discriminate.
Qed.

Lemma idle_cache_fresh : next_op_fresh idle_cache.
Proof. intros k. simpl. by rewrite lookup_empty. Qed.

Lemma OpenEntry_CreateEntry_answers_witness :
  (exists c',
     OpenEntry no_reaction "k" 20%nat 2%nat OK (Some sample_disk) idle_cache =
       Some (OK, c', [EvBackendOpenEntry "k" 0%nat; EvSetEntry 20%nat (Some 0%nat)]) /\
     completed_at_once "k" OK (Some sample_disk) idle_cache c') /\
  CreateEntry no_reaction "k" 40%nat 4%nat ERR_IO_PENDING None (cache_with_op open_op) =
    Some (ERR_IO_PENDING,
          with_ops (<[0%nat := set_op_pending_queue
                                 (op_pending_queue open_op ++
                                  [mkWorkItem WI_CREATE_ENTRY (Some 4%nat) (Some 40%nat)
                                              None None]) open_op]>
                      (ops (cache_with_op open_op)))
                   (cache_with_op open_op), []).
Proof.
  split.
  - destruct (OpenEntry_CreateEntry_answers no_reaction "k" 20%nat 2%nat OK
                (Some sample_disk) idle_cache) as (_ & _ & Hlead).
    destruct Hlead as [Hopen _].
    + reflexivity.
    + by eexists.
    + exact idle_cache_fresh.
    + split; [by eexists|]. by intros de [= <-].
    + destruct (Hopen eq_refl) as (c' & Hrun & _ & Hdone).
      exists c'. split; [exact Hrun|]. apply Hdone. discriminate.
  - destruct (OpenEntry_CreateEntry_answers no_reaction "k" 40%nat 4%nat ERR_IO_PENDING
                None (cache_with_op open_op)) as (_ & Hqueued & _).
    destruct (Hqueued 0%nat open_op eq_refl eq_refl) as [_ Hcreate]; [by eexists|].
    exact Hcreate.
Defined.

(** C8, as the design document has it, fails on a cache without a backend
    factory: the backend is not live and the answer is ERR_FAILED. *)
Lemma GetBackend_not_always_pending :
  disk_cache_ (new_HttpCache false) = None /\
  GetBackend no_reaction 5%nat 6%nat ERR_IO_PENDING None (new_HttpCache false) =
    Some (ERR_FAILED, new_HttpCache false, []) /\
  ERR_FAILED <> ERR_IO_PENDING.
Proof. split; [reflexivity|]. split; [vm_compute; reflexivity|discriminate]. Qed.

Lemma new_HttpCache_fresh : next_op_fresh (new_HttpCache true).
Proof. intros k. simpl. by rewrite lookup_empty. Qed.

Lemma GetBackend_answers_witness :
  GetBackend no_reaction 5%nat 6%nat OK (Some 1%nat) idle_cache =
    Some (OK, idle_cache, [EvSetBackend 5%nat (Some 1%nat)]) /\
  (exists c',
     GetBackend no_reaction 5%nat 6%nat OK (Some 1%nat) (new_HttpCache true) =
       Some (OK, c', [EvFactoryCreateBackend 0%nat; EvSetBackend 5%nat (Some 1%nat)]) /\
     disk_cache_ c' = Some 1%nat /\ building_backend_ c' = false).
Proof.
  destruct (GetBackend_answers no_reaction 5%nat 6%nat OK (Some 1%nat) idle_cache)
    as (Hlive & _).
  split; [exact (Hlive 1%nat eq_refl)|].
  destruct (GetBackend_answers no_reaction 5%nat 6%nat OK (Some 1%nat)
              (new_HttpCache true)) as (_ & _ & _ & Hcall).
  destruct (Hcall eq_refl eq_refl eq_refl new_HttpCache_fresh)
    as (c' & Hrun & _ & Hdone).
  destruct Hdone as (Hbuilding & _ & Hdisk & _); [discriminate|].
  exists c'. split; [exact Hrun|]. split; [exact Hdisk|exact Hbuilding].
Defined.

(** *** Callbacks that call back

    A callback answers an event by a sequence of calls on the cache; the
    callbacks these calls set off answer in the same way, down to [depth]
    levels.  (A sequence that runs into undefined behaviour is dropped.) *)
Fixpoint scripted (script : Event -> HttpCache -> list Call) (depth : nat)
    (ev : Event) (c : HttpCache) : HttpCache :=
  match depth with
  | O => c
  | S depth' =>
      match run_calls sample_mode sample_key sample_flag (scripted script depth')
                      sample_spec (script ev c) c with
      | Some (_, c', _) => c'
      | None => c
      end
  end.

(** A transaction that is told of a race asks for its entry again. *)
Definition restart (ev : Event) (c : HttpCache) : list Call :=
  match ev with
  | EvRun t result =>
      if result =? ERR_CACHE_RACE
      then [CallOpenEntry (sample_key t) t t ERR_IO_PENDING None]
      else []
  | _ => []
  end.

Lemma scripted_keeps (script : Event -> HttpCache -> list Call) (depth : nat) :
  forall ev c, InvariantA c -> InvariantA (scripted script depth ev c).
Proof.
  induction depth as [|depth IH]; intros ev c Hc; simpl; [exact Hc|].
  destruct (run_calls _ _ _ _ _ _ c) as [[[[] c'] evs]|] eqn:Hrun; [|exact Hc].
  exact (proj1 (keeps_run_calls _ _ _ _ _ IH _ _ _ _ _ Hc Hrun)).
Qed.

(** The backend is built and the entry of [k] opened; transaction 2 writes it
    while 3 and 5 wait; the write fails, so 3 and 5 are told of the race and
    ask for the entry again from their callbacks; the backend opens it, 3 and 5
    read it and the writer 4 waits for them. *)
Definition sample_calls : list Call :=
  [CallGetBackend 5%nat 6%nat OK (Some 1%nat);
   CallOpenEntry "k" 20%nat 2%nat OK (Some sample_disk);
   CallAddTransactionToEntry 0%nat 2%nat;
   CallAddTransactionToEntry 0%nat 3%nat;
   CallAddTransactionToEntry 0%nat 5%nat;
   CallDoneWritingToEntry 0%nat false;
   CallBackendCompletes 2%nat (Some sample_disk) None OK;
   CallAddTransactionToEntry 1%nat 3%nat;
   CallAddTransactionToEntry 1%nat 5%nat;
   CallAddTransactionToEntry 1%nat 4%nat].

(** The cache these calls lead to. *)
Definition busy_cache : HttpCache :=
  mkHttpCache (Some 1%nat) false false NORMAL None
    {[ "k" := 1%nat ]} [] ∅
    {[ 1%nat := mkActiveEntry (Some sample_disk) None [3; 5]%nat [4]%nat false false ]}
    ∅ 2%nat 3%nat [].

Lemma busy_cache_reachable :
  reachable sample_mode sample_key sample_flag (scripted restart 2) sample_spec
            busy_cache.
Proof.
  eapply (reachable_run_calls _ _ _ _ _ sample_calls (new_HttpCache true));
    [apply reachable_new|].
  vm_compute. reflexivity.
Qed.

Lemma invariant_A_witness :
  InvariantA busy_cache /\
  forall e, entries busy_cache !! 1%nat = Some e -> writer e <> None -> readers e = [].
Proof.
  destruct (invariant_A sample_mode sample_key sample_flag (scripted restart 2)
              sample_spec (scripted_keeps restart 2)) as [Hreach _].
  destruct (Hreach busy_cache busy_cache_reachable) as [Hinv Hactive].
  split; [exact Hinv|].
  intros e He. exact (Hactive "k" 1%nat e eq_refl He).
Defined.

(** ** Scenarios of the design document, run on the embedding *)

(** The calls the cache makes on its collaborators during a sequence of calls
    whose callbacks do nothing. *)
Definition trace_of (calls : list Call) (c : HttpCache) : option (list Event) :=
  match run_calls sample_mode sample_key sample_flag no_reaction sample_spec calls c with
  | Some (_, _, evs) => Some evs
  | None => None
  end.

(** Writer blocks reader: 2 writes, 3 has to wait; when 2 is done with
    success the drain admits 3 and tells it OK. *)
Example writer_blocks_reader :
  trace_of [CallAddTransactionToEntry 0%nat 2%nat;
            CallAddTransactionToEntry 0%nat 3%nat;
            CallDoneWritingToEntry 0%nat true;
            CallRunTask]
           (cache_with (new_ActiveEntry sample_disk))
  = Some [EvRun 3%nat OK].
Proof. vm_compute. reflexivity. Qed.

(** Create race: 1 and 2 both create [k]; the backend answers OK; 1 gets the
    new entry and 2 is told CACHE_CREATE_FAILURE. *)
Example create_race :
  trace_of [CallCreateEntry "k" 10%nat 1%nat ERR_IO_PENDING None;
            CallCreateEntry "k" 20%nat 2%nat ERR_IO_PENDING None;
            CallBackendCompletes 0%nat (Some sample_disk) None OK]
           idle_cache
  = Some [EvBackendCreateEntry "k" 0%nat;
          EvSetEntry 10%nat (Some 0%nat); EvRun 1%nat OK;
          EvSetEntry 20%nat None; EvRun 2%nat ERR_CACHE_CREATE_FAILURE].
Proof. vm_compute. reflexivity. Qed.

(** Doom cascade: 2 writes [k], 3 and 5 wait, the entry is doomed; 2 gives up
    and cannot mark the entry truncated: the disk entry is doomed again and
    closed, and 3 and 5 are told of the race. *)
Example doom_cascade :
  match run_calls sample_mode sample_key (fun _ => false) no_reaction sample_spec
          [CallAddTransactionToEntry 0%nat 2%nat;
           CallAddTransactionToEntry 0%nat 3%nat;
           CallAddTransactionToEntry 0%nat 5%nat;
           CallDoomEntry "k" 9%nat OK;
           CallDoneWithEntry 0%nat 2%nat true]
          (cache_with (new_ActiveEntry sample_disk)) with
  | Some (_, c, evs) => Some (evs, entries c !! 0%nat, doomed_entries_ c)
  | None => None
  end
  = Some ([EvDoom sample_disk; EvAddTruncatedFlag 2%nat; EvDoom sample_disk;
           EvClose sample_disk;
           EvRun 3%nat ERR_CACHE_RACE; EvRun 5%nat ERR_CACHE_RACE],
          None, []).
Proof. vm_compute. reflexivity. Qed.

(** Writer to reader: 2 writes, the reader 3 waits; 2 turns reader, and the
    drain admits 3 next to it. *)
Example writer_to_reader :
  match run_calls sample_mode sample_key sample_flag no_reaction sample_spec
          [CallAddTransactionToEntry 0%nat 2%nat;
           CallAddTransactionToEntry 0%nat 3%nat;
           CallConvertWriterToReader 0%nat;
           CallRunTask]
          (cache_with (new_ActiveEntry sample_disk)) with
  | Some (_, c, evs) => Some (evs, readers <$> entries c !! 0%nat)
  | None => None
  end
  = Some ([EvRun 3%nat OK], Some [2; 3]%nat).
Proof. vm_compute. reflexivity. Qed.

(** In NORMAL mode a request that uploads data has the identifier of the data
    in front of its key. *)
Example upload_key :
  GenerateCacheKey sample_spec (mkHttpRequestInfo "http://a/" "POST" (Some 17)) idle_cache
  = Some ("17/http://a/", idle_cache, []).
Proof. vm_compute. reflexivity. Qed.

(** ** The further properties at work on the sample caches *)


(** A DOOM_ENTRY under way for transaction 2; an OPEN_ENTRY of transaction 4
    and a CREATE_ENTRY of transaction 6 are queued behind it. *)
Definition doom_op : PendingOp :=
  mkPendingOp None None
    (Some (mkWorkItem WI_DOOM_ENTRY (Some 2%nat) None None None)) true
    [mkWorkItem WI_OPEN_ENTRY (Some 4%nat) (Some 40%nat) None None;
     mkWorkItem WI_CREATE_ENTRY (Some 6%nat) (Some 60%nat) None None].

(** The factory has not answered yet: the embedder leads the gate with its
    callback 6 and its backend slot 5, transaction 7 waits behind it. *)
Definition gate_op : PendingOp :=
  mkPendingOp None (Some 1%nat)
    (Some (mkWorkItem WI_CREATE_BACKEND None None (Some 6%nat) (Some 5%nat))) true
    [mkWorkItem WI_CREATE_BACKEND (Some 7%nat) None None None].

Definition building_cache : HttpCache :=
  mkHttpCache None true true NORMAL None
    ∅ [] {[ empty_key := 0%nat ]} ∅ {[ 0%nat := gate_op ]} 0%nat 1%nat [].

(** The entry of [k] was opened for the reader 3, the writer 4 waits for it,
    and then the entry was doomed. *)
Definition doomed_calls : list Call :=
  [CallGetBackend 5%nat 6%nat OK (Some 1%nat);
   CallOpenEntry "k" 20%nat 3%nat OK (Some sample_disk);
   CallAddTransactionToEntry 0%nat 3%nat;
   CallAddTransactionToEntry 0%nat 4%nat;
   CallDoomEntry "k" 9%nat OK].

Definition doomed_cache : HttpCache :=
  mkHttpCache (Some 1%nat) false false NORMAL None
    ∅ [0%nat] ∅
    {[ 0%nat := mkActiveEntry (Some sample_disk) None [3]%nat [4]%nat false true ]}
    ∅ 1%nat 2%nat [].

Lemma written_entry_registered :
  entry_registered (cache_with written_entry) 0%nat written_entry.
Proof. exists sample_disk. split; reflexivity. Qed.


Lemma doom_op_registered :
  op_registered (cache_with_op doom_op) 0%nat doom_op "k".
Proof.
  split; [reflexivity|]. split; [|intros d [=]].
  intros k Hk. simpl in Hk.
  apply lookup_singleton_Some in Hk. by destruct Hk.
Qed.

Lemma gate_op_registered :
  op_registered building_cache 0%nat gate_op empty_key.
Proof.
  split; [reflexivity|]. split; [|intros d [=]].
  intros k Hk. simpl in Hk.
  apply lookup_singleton_Some in Hk. by destruct Hk.
Qed.

Lemma scripted_well_formed (script : Event -> HttpCache -> list Call) (depth : nat) :
  forall ev c, WellFormed c -> WellFormed (scripted script depth ev c).
Proof.
  induction depth as [|depth IH]; intros ev c Hc; simpl; [exact Hc|].
  destruct (run_calls _ _ _ _ _ _ c) as [[[[] c'] evs]|] eqn:Hrun; [|exact Hc].
  exact (preserves_run_calls _ _ _ _ _ IH _ _ _ _ _ Hc Hrun).
Qed.

Lemma doomed_cache_reachable :
  reachable sample_mode sample_key sample_flag (scripted restart 2) sample_spec
            doomed_cache.
Proof.
  eapply (reachable_run_calls _ _ _ _ _ doomed_calls (new_HttpCache true));
    [apply reachable_new|].
  vm_compute. reflexivity.
Qed.

Lemma DoomEntry_active_witness :
  exists c',
    DoomEntry no_reaction "k" 9%nat OK (cache_with written_entry) =
      Some (OK, c', [EvDoom sample_disk])
    /\ FindActiveEntry "k" c' = Some (None, c', [])
    /\ entries c' !! 0%nat = Some (set_doomed true written_entry)
    /\ 0%nat ∈ doomed_entries_ c'.
Proof.
  destruct (DoomEntry_active no_reaction "k" 9%nat OK (cache_with written_entry)
              0%nat written_entry sample_disk)
    as (c' & Hrun & Hfind & _ & Hdoomed & Hentries & _); [reflexivity..|].
  exists c'. split; [exact Hrun|]. split; [exact Hfind|]. split.
  - rewrite Hentries. apply lookup_insert_eq.
  - apply Hdoomed. by left.
Defined.

Lemma DoomEntry_then_DestroyEntry_witness :
  (DoomEntry no_reaction "k" 9%nat OK ;; DestroyEntry 0%nat) (cache_with written_entry) =
    Some (tt,
          with_entries (delete 0%nat (entries (cache_with written_entry)))
            (with_active_entries (delete "k" (active_entries_ (cache_with written_entry)))
               (cache_with written_entry)),
          [EvDoom sample_disk; EvClose sample_disk]).
Proof.
  apply (DoomEntry_then_DestroyEntry no_reaction "k" 9%nat OK (cache_with written_entry)
           0%nat written_entry sample_disk); [reflexivity..|].
  simpl. apply not_elem_of_nil.
Defined.

Lemma ActivateEntry_DeactivateEntry_witness :
  exists c1,
    ActivateEntry "k" sample_disk idle_cache = Some (0%nat, c1, [])
    /\ FindActiveEntry "k" c1 = Some (Some 0%nat, c1, [])
    /\ DeactivateEntry 0%nat c1 =
         Some (tt, with_next_entry 1%nat idle_cache, [EvClose sample_disk]).
Proof.
  destruct (ActivateEntry_DeactivateEntry sample_disk idle_cache)
    as (c1 & Hactivate & Hfind & _ & Hdeactivate).
  - reflexivity.
  - intros k. simpl. by rewrite lookup_empty.
  - reflexivity.
  - exists c1. split; [exact Hactivate|]. split; [exact Hfind|exact Hdeactivate].
Defined.

(** The writer 2 holds the entry: the reader 7 and the writer 8 queue up
    behind 3 and 5. *)
Lemma AddTransactionToEntry_arrival_order_witness :
  add_all sample_mode 0%nat [7; 8]%nat (cache_with written_entry) =
    Some ([ERR_IO_PENDING; ERR_IO_PENDING],
          put_entry 0%nat (set_pending_queue [3; 5; 7; 8]%nat written_entry)
            (cache_with written_entry), []).
Proof.
  apply (AddTransactionToEntry_arrival_order sample_mode 0%nat [7; 8]%nat
           (cache_with written_entry) written_entry); [reflexivity|].
  left. discriminate.
Defined.

(** The writer 2 is at the head of the queue and the reader 1 is not done:
    the drain admits nobody. *)
Lemma OnProcessPendingQueue_step_witness :
  OnProcessPendingQueue sample_mode no_reaction 0%nat (cache_with contended_entry) =
    Some (tt, put_entry 0%nat (set_will_process false contended_entry)
                (cache_with contended_entry), []).
Proof.
  destruct (OnProcessPendingQueue_step sample_mode no_reaction 0%nat
              (cache_with contended_entry) contended_entry eq_refl eq_refl)
    as (_ & _ & Hwait & _).
  apply (Hwait 2%nat []); [reflexivity|reflexivity|discriminate].
Defined.


(** The writer 2 turns into a reader; the drain admits the reader 3 next to
    it and is scheduled again for 5. *)
Lemma ConvertWriterToReader_then_drain_witness :
  (ConvertWriterToReader 0%nat ;; run_task sample_mode no_reaction)
    (cache_with written_entry) =
    Some (tt,
          with_posted [TaskOnProcessPendingQueue 0%nat]
            (put_entry 0%nat
               (mkActiveEntry (Some sample_disk) None [2; 3]%nat [5]%nat true false)
               (cache_with written_entry)),
          [EvRun 3%nat OK]).
Proof.
  destruct (ConvertWriterToReader_then_drain sample_mode no_reaction 0%nat
              (cache_with written_entry) written_entry 2%nat)
    as (_ & _ & Hreader); [reflexivity..|].
  exact (Hreader 3%nat [5]%nat eq_refl eq_refl).
Defined.

(** The writer 2 gives the entry up without having been cancelled. *)
Lemma DoneWithEntry_writer_release_witness :
  exists k,
    DoneWithEntry sample_flag no_reaction 0%nat 2%nat false (cache_with written_entry) =
      Some (tt,
            after_callbacks no_reaction [3; 5]%nat ERR_CACHE_RACE
              (destroyed (cache_with written_entry) 0%nat written_entry k),
            [EvDoom sample_disk; EvClose sample_disk;
             EvRun 3%nat ERR_CACHE_RACE; EvRun 5%nat ERR_CACHE_RACE]).
Proof.
  destruct (DoneWithEntry_writer_release sample_flag no_reaction 0%nat 2%nat false
              (cache_with written_entry) written_entry 2%nat sample_disk)
    as (k & _ & Hrun); [reflexivity..|exact written_entry_registered|].
  exists k. exact Hrun.
Defined.

Lemma OnIOComplete_doom_races_witness :
  exists c',
    OnIOComplete no_reaction OK 0%nat (cache_with_op doom_op) =
      Some (tt, c',
            [EvRun 2%nat OK;
             EvSetEntry 40%nat None; EvRun 4%nat ERR_CACHE_RACE;
             EvSetEntry 60%nat None; EvRun 6%nat ERR_CACHE_RACE]).
Proof.
  eexists.
  apply (OnIOComplete_doom_races no_reaction 0%nat (cache_with_op doom_op) doom_op
           (mkWorkItem WI_DOOM_ENTRY (Some 2%nat) None None None) "k");
    [reflexivity..|exact doom_op_registered].
Defined.

(** Transaction 2 gives up its OPEN_ENTRY; the entry the backend then opens
    is closed, and the CREATE_ENTRY behind it is told of the race. *)
Lemma cancelled_lead_discarded_witness :
  exists c',
    (RemovePendingTransactionFromPendingOp 0%nat 2%nat ;;
     backend_completes no_reaction 0%nat (set_op_disk_entry (Some sample_disk)) OK)
      (cache_with_op open_op) =
      Some (tt, c',
            [EvClose sample_disk; EvSetEntry 40%nat None; EvRun 4%nat ERR_CACHE_RACE]).
Proof.
  eexists.
  apply (cancelled_lead_discarded no_reaction 0%nat 2%nat (cache_with_op open_op)
           open_op (mkWorkItem WI_OPEN_ENTRY (Some 2%nat) (Some 20%nat) None None)
           "k" sample_disk);
    [reflexivity..|by left|exact open_op_registered].
Defined.

Lemma OnBackendCreated_one_per_tick_witness :
  exists c1,
    OnBackendCreated no_reaction OK 0%nat building_cache =
      Some (tt, c1, [EvSetBackend 5%nat (Some 1%nat); EvUserRun 6%nat OK])
    /\ disk_cache_ c1 = Some 1%nat
    /\ building_backend_ c1 = true
    /\ posted c1 = [TaskOnBackendCreated OK 0%nat].
Proof.
  destruct (OnBackendCreated_one_per_tick no_reaction OK 0%nat building_cache gate_op
              (mkWorkItem WI_CREATE_BACKEND None None (Some 6%nat) (Some 5%nat))
              eq_refl eq_refl gate_op_registered)
    as (c1 & Hrun & _ & Hdisk & Hbuilding & _ & _ & Hposted).
  exists c1. split; [exact Hrun|]. split; [exact Hdisk|].
  split; [exact Hbuilding|exact Hposted].
Defined.

Lemma backend_creation_drains_witness :
  exists c',
    (OnBackendCreated no_reaction OK 0%nat ;; run_tasks sample_mode no_reaction 1)
      building_cache =
      Some (tt, c',
            [EvSetBackend 5%nat (Some 1%nat); EvUserRun 6%nat OK; EvRun 7%nat OK]).
Proof.
  eexists.
  apply (backend_creation_drains sample_mode no_reaction OK 0%nat
           (fun _ _ => eq_refl)
           [mkWorkItem WI_CREATE_BACKEND (Some 7%nat) None None None]
           building_cache gate_op
           (mkWorkItem WI_CREATE_BACKEND None None (Some 6%nat) (Some 5%nat)));
    [reflexivity..|exact gate_op_registered|reflexivity].
Defined.

Lemma lazy_backend_creation_witness :
  exists c1 c2 c3,
    (CreateTransaction no_reaction ERR_IO_PENDING None ;; GetBackendForTransaction 7%nat)
      (new_HttpCache true) =
      Some (ERR_IO_PENDING, c1, [EvFactoryCreateBackend 0%nat])
    /\ backend_completes no_reaction 0%nat (set_op_backend (Some 1%nat)) OK c1 =
         Some (tt, c2, [])
    /\ run_task sample_mode no_reaction c2 = Some (tt, c3, [EvRun 7%nat OK])
    /\ disk_cache_ c3 = Some 1%nat /\ building_backend_ c3 = false.
Proof.
  destruct (lazy_backend_creation sample_mode no_reaction 7%nat (Some 1%nat) OK
              (new_HttpCache true))
    as (c1 & c2 & Hstart & Hfirst & _ & _ & c3 & Hrun & Hdisk & _ & Hbuilding & _);
    [reflexivity..|exact new_HttpCache_fresh|reflexivity|].
  exists c1, c2, c3. split; [exact Hstart|]. split; [exact Hfirst|].
  split; [exact Hrun|]. split; [exact Hdisk|exact Hbuilding].
Defined.

(** An upload does not share the entry of the plain request for its URL. *)
Lemma GenerateCacheKey_upload_distinct_witness :
  exists k1 k2,
    GenerateCacheKey sample_spec (mkHttpRequestInfo "http://a/" "POST" (Some 5))
                     idle_cache = Some (k1, idle_cache, [])
    /\ GenerateCacheKey sample_spec sample_request idle_cache = Some (k2, idle_cache, [])
    /\ k1 <> k2.
Proof.
  destruct (GenerateCacheKey_upload_distinct sample_spec
              (mkHttpRequestInfo "http://a/" "POST" (Some 5)) sample_request idle_cache
              eq_refl eq_refl)
    as (k1 & k2 & H1 & H2 & Hiff).
  exists k1, k2. split; [exact H1|]. split; [exact H2|].
  intros Heq. apply Hiff in Heq. discriminate Heq.
Defined.


(** The entry of the busy cache, read by 3 and 5 while the writer 4 waits. *)
Lemma reachable_entries_sound_witness :
  exists e,
    entries busy_cache !! 1%nat = Some e /\
    is_Some (disk_entry e) /\
    (writer e <> None -> readers e = [] /\ will_process_pending_queue e = false).
Proof.
  eexists. split; [reflexivity|].
  destruct (reachable_entries_sound sample_mode sample_key sample_flag
              (scripted restart 2) sample_spec (scripted_well_formed restart 2)
              busy_cache busy_cache_reachable 1%nat _ eq_refl) as (Hd & Hw & _).
  split; [exact Hd|exact Hw].
Defined.

(** The doomed entry is alive for its reader 3 and cannot be found by key. *)
Lemma reachable_tables_witness :
  exists e,
    entries doomed_cache !! 0%nat = Some e /\ doomed e = true /\
    forall key, active_entries_ doomed_cache !! key <> Some 0%nat.
Proof.
  destruct (reachable_tables sample_mode sample_key sample_flag
              (scripted restart 2) sample_spec (scripted_well_formed restart 2)
              doomed_cache doomed_cache_reachable) as (_ & Hdoomed & _).
  apply (Hdoomed 0%nat). simpl. by left.
Defined.

(** Transaction 5 stops waiting; 3 keeps its place. *)
Lemma RemovePendingTransactionFromEntry_keeps_order_witness :
  exists q,
    RemovePendingTransactionFromEntry 0%nat 5%nat (cache_with written_entry) =
      Some (true, put_entry 0%nat (set_pending_queue q written_entry)
                    (cache_with written_entry), [])
    /\ filter (fun u => u <> 5%nat) q = [3]%nat
    /\ length q = 1%nat.
Proof.
  destruct (RemovePendingTransactionFromEntry_keeps_order 0%nat 5%nat
              (cache_with written_entry) written_entry eq_refl)
    as (q & Hrun & Hothers & Hlength & _).
  exists q. split; [exact Hrun|]. split; [exact Hothers|].
  assert (Hin : 5%nat ∈ pending_queue written_entry) by (simpl; set_solver).
  specialize (Hlength Hin). simpl in Hlength. lia.
Defined.

(** * The metadata writer (HttpCache::MetadataWriter)

    A [MetadataWriter] owns a transaction whose only purpose is to write
    metadata to an entry, and deletes itself when it is done.  The
    transaction is outside the cache; what it answers is given by an
    [Answers] record. *)

Module MetadataWriter.

Record MetadataWriter := mkMetadataWriter {
  verified_ : bool;
  buf_len_ : Z;
  expected_response_time_ : Z;
  request_url_ : string;
  request_method_ : string;
  request_load_flags_ : Z
}.

(** The calls of the writer on its transaction, and its own deletion. *)
Inductive Action :=
| ActStart (url method : string) (load_flags : Z)
| ActWriteMetadata (buf_len : Z)
| ActDelete.

(** What the transaction answers: the return value of [Start] and, when
    that is ERR_IO_PENDING, the result its callback delivers; the response
    time of the cached response; the return value of [WriteMetadata] and,
    when that is ERR_IO_PENDING, the result its callback delivers. *)
Record Answers := mkAnswers {
  start_rv : Z;
  start_result : Z;
  response_time : Z;
  write_rv : Z;
  write_result : Z
}.

(** A member function runs on the writer, which is gone ([None]) once it
    has deleted itself; a call on a deleted writer has no defined
    behaviour. *)
Definition W (A : Type) : Type :=
  option MetadataWriter -> option (A * option MetadataWriter * list Action).

Definition wret {A} (a : A) : W A := fun s => Some (a, s, []).
Definition wbind {A B} (m : W A) (f : A -> W B) : W B := fun s =>
  match m s with
  | None => None
  | Some (a, s1, ev1) =>
      match f a s1 with
      | None => None
      | Some (b, s2, ev2) => Some (b, s2, ev1 ++ ev2)
      end
  end.
Definition this : W MetadataWriter := fun s =>
  match s with Some w => Some (w, s, []) | None => None end.
Definition assign (w : MetadataWriter) : W unit := fun s =>
  match s with Some _ => Some (tt, Some w, []) | None => None end.
Definition act (a : Action) : W unit := fun s => Some (tt, s, [a]).

Section Writer.

(** [LOAD_ONLY_FROM_CACHE], of net/base/load_flags.h. *)
Variable LOAD_ONLY_FROM_CACHE : Z.

Definition SelfDestroy : W unit := fun s =>
  match s with Some _ => Some (tt, None, [ActDelete]) | None => None end.

Definition VerifyResponse (a : Answers) (result : Z) : W unit :=
  wbind this (fun w =>
  wbind (assign (mkMetadataWriter true (buf_len_ w) (expected_response_time_ w)
                   (request_url_ w) (request_method_ w) (request_load_flags_ w)))
        (fun _ =>
  if negb (result =? OK) then SelfDestroy
  else if negb (response_time a =? expected_response_time_ w) then SelfDestroy
  else
    wbind (act (ActWriteMetadata (buf_len_ w))) (fun _ =>
    if negb (write_rv a =? ERR_IO_PENDING) then SelfDestroy else wret tt))).

Definition Write (a : Answers) (url : string) (expected_response_time : Z)
    (buf_len : Z) : W unit :=
  wbind (assign (mkMetadataWriter false buf_len expected_response_time
                   url "GET" LOAD_ONLY_FROM_CACHE)) (fun _ =>
  wbind (act (ActStart url "GET" LOAD_ONLY_FROM_CACHE)) (fun _ =>
  if negb (start_rv a =? ERR_IO_PENDING) then VerifyResponse a (start_rv a)
  else wret tt)).

Definition OnIOComplete (a : Answers) (result : Z) : W unit :=
  wbind this (fun w =>
  if negb (verified_ w) then VerifyResponse a result else SelfDestroy).

(** The result [VerifyResponse] is given in the end. *)
Definition started_with (a : Answers) : Z :=
  if start_rv a =? ERR_IO_PENDING then start_result a else start_rv a.

(** The response is the expected one: [WriteMetadata] is called. *)
Definition verified (a : Answers) (expected_response_time : Z) : bool :=
  (started_with a =? OK) && (response_time a =? expected_response_time).

(** The life of a writer: [Write], then the callback of [Start] when the
    start was pending, then the callback of [WriteMetadata] when that call
    was made and was pending. *)
Definition life (a : Answers) (url : string) (expected_response_time : Z)
    (buf_len : Z) : W unit :=
  wbind (Write a url expected_response_time buf_len) (fun _ =>
  wbind (if start_rv a =? ERR_IO_PENDING then OnIOComplete a (start_result a)
         else wret tt) (fun _ =>
  if verified a expected_response_time && (write_rv a =? ERR_IO_PENDING)
  then OnIOComplete a (write_result a)
  else wret tt)).

(** X20.  The metadata writer deletes itself exactly once, when it is done,
    and is not touched afterwards.  Whatever the transaction answers, the
    writer starts it on a GET of the URL that may only be served from the
    cache; it calls [WriteMetadata], once, exactly when the start ended with
    OK and the cached response has the expected response time; and its
    deletion is the last thing that happens. *)
Theorem writer_deletes_itself_once (a : Answers) (url : string)
    (expected_response_time : Z) (buf_len : Z) (w0 : MetadataWriter) :
  life a url expected_response_time buf_len (Some w0) =
    Some (tt, None,
          ActStart url "GET" LOAD_ONLY_FROM_CACHE ::
          (if verified a expected_response_time then [ActWriteMetadata buf_len] else [])
          ++ [ActDelete]).
Proof.
  unfold life, Write, OnIOComplete, VerifyResponse, SelfDestroy, verified, started_with.
  unfold wbind, wret, this, assign, act. simpl.
  destruct a as [srv sres rt wrv wres]. simpl.
  destruct (srv =? ERR_IO_PENDING) eqn:Hs; simpl.
  - destruct (sres =? OK); simpl; [|reflexivity].
    destruct (rt =? expected_response_time); simpl; [|reflexivity].
    destruct (wrv =? ERR_IO_PENDING); reflexivity.
  - destruct (srv =? OK); simpl; [|reflexivity].
    destruct (rt =? expected_response_time); simpl; [|reflexivity].
    destruct (wrv =? ERR_IO_PENDING); reflexivity.
Qed.

End Writer.

End MetadataWriter.

(** * The end of the cache ([HttpCache::~HttpCache]) *)

(** What the destructor does to an active entry before it deactivates it:
    the flag of a scheduled drain, the queue, the readers and the writer are
    reset. *)
Definition forget_lock (e : ActiveEntry) : ActiveEntry :=
  set_writer None (set_readers [] (set_pending_queue [] (set_will_process false e))).

(** The loop [while (!active_entries_.empty())].  It takes the first entry
    of the table, in iteration order, and deactivates it; [fuel] bounds the
    number of turns, and the answer tells whether the table was empty when
    the loop stopped. *)
Fixpoint deactivate_all (fuel : nat) : M bool :=
  match fuel with
  | O => c <- get; ret (bool_decide (active_entries_ c = ∅))
  | S fuel' =>
      c <- get;
      match map_to_list (active_entries_ c) with
      | [] => ret true
      | (_, entry) :: _ =>
          update_entry entry forget_lock ;;
          DeactivateEntry entry ;;
          deactivate_all fuel'
      end
  end.

(** [STLDeleteElements] on a container of entries. *)
Fixpoint delete_all (l : list EntryId) : M unit :=
  match l with
  | [] => ret tt
  | entry :: l' => delete_entry entry ;; delete_all l'
  end.

(** One turn of the loop over [pending_ops_]: the lead and the queued items
    are deleted; the operation is deleted with them, unless the backend is
    being built and a callback is bound to the operation: the callback is
    then cancelled and keeps the operation. *)
Definition abandon_op (pending_op : OpId) : M unit :=
  p <- load_op pending_op;
  c <- get;
  if building_backend_ c && op_callback p then
    store_op pending_op (set_op_pending_queue [] (set_op_writer None p))
  else
    modify (fun c => with_ops (delete pending_op (ops c)) c).

Fixpoint abandon_ops (l : list (string * OpId)) : M unit :=
  match l with
  | [] => ret tt
  | (_, pending_op) :: l' => abandon_op pending_op ;; abandon_ops l'
  end.

(** [HttpCache::~HttpCache].  The tables go with the cache. *)
Definition destroy_HttpCache : M bool :=
  c <- get;
  finished <- deactivate_all (size (active_entries_ c));
  c <- get;
  delete_all (doomed_entries_ c) ;;
  modify (with_doomed_entries []) ;;
  c <- get;
  abandon_ops (map_to_list (pending_ops_ c)) ;;
  modify (with_pending_ops ∅) ;;
  ret finished.

(** [BackendCallback::RunWithParams] on a cancelled callback. *)
Definition BackendCallback_Run_cancelled (pending_op : OpId) : M unit :=
  load_op pending_op ;;
  modify (fun c => with_ops (delete pending_op (ops c)) c).

(** The disk entries that are closed when the entries of [l] are deleted. *)
Definition closes (c : HttpCache) (l : list EntryId) : list Event :=
  flat_map (fun i => match entries c !! i with
                     | Some e => match disk_entry e with
                                 | Some d => [EvClose d]
                                 | None => []
                                 end
                     | None => []
                     end) l.

(** The entries the table of active entries leads to, in iteration order. *)
Definition active_list (c : HttpCache) : list EntryId :=
  (map_to_list (active_entries_ c)).*2.

Lemma closes_ext (c c' : HttpCache) (l : list EntryId) :
  (forall i, i ∈ l -> entries c' !! i = entries c !! i) ->
  closes c' l = closes c l.
Proof.
  induction l as [|i l IH]; intros Hl; [done|].
  simpl. rewrite (Hl i) by left. f_equal. apply IH.
  intros j Hj. apply Hl. by right.
Qed.

Lemma DeactivateEntry_run (entry : EntryId) (c : HttpCache) (e : ActiveEntry)
    (d : DiskEntry) :
  entries c !! entry = Some e ->
  disk_entry e = Some d ->
  active_entries_ c !! de_key d = Some entry ->
  (forall k, active_entries_ c !! k = Some entry -> k = de_key d) ->
  DeactivateEntry entry c =
    Some (tt, with_entries (delete entry (entries c))
                (with_active_entries (delete (de_key d) (active_entries_ c)) c),
          [EvClose d]).
Proof.
  intros He Hd Hk Hinj.
  unfold DeactivateEntry, SlowDeactivateEntry, delete_entry. run_monad.
  unfold EntryId in *. rewrite He. simpl. rewrite Hd. simpl.
  case_bool_decide as Hempty; simpl.
  - destruct (find_by_value_is_Some _ _ _ Hk) as (k' & Hfind).
    rewrite Hfind. simpl. rewrite He. simpl. rewrite Hd. simpl.
    apply find_by_value_Some, Hinj in Hfind. by subst k'.
  - rewrite Hk. simpl. rewrite He. simpl. rewrite Hd. reflexivity.
Qed.

Lemma deactivate_all_spec (fuel : nat) :
  forall c,
    WellFormed c ->
    size (active_entries_ c) = fuel ->
    exists E,
      deactivate_all fuel c =
        Some (true, with_active_entries ∅ (with_entries E c), closes c (active_list c))
      /\ (forall i, E !! i = if bool_decide (i ∈ active_list c) then None
                             else entries c !! i).
Proof.
  induction fuel as [|fuel IH]; intros c Hwf Hsize.
  - apply map_size_empty_inv in Hsize.
    exists (entries c). unfold active_list. simpl. unfold bind, get, ret.
    rewrite Hsize, map_to_list_empty. simpl.
    rewrite bool_decide_true by done. split.
    + f_equal. f_equal. f_equal. destruct c. simpl in *. by subst.
    + done.
  - destruct (map_to_list (active_entries_ c)) as [|[k entry] rest] eqn:Hlist.
    { apply map_to_list_empty_iff in Hlist. rewrite Hlist in Hsize.
      by rewrite map_size_empty in Hsize. }
    assert (Hk : active_entries_ c !! k = Some entry).
    { apply elem_of_map_to_list. rewrite Hlist. left. }
    destruct Hwf as (H1 & H2 & H3 & H4).
    destruct (H2 k entry Hk) as (e & d & He & Hd & Hkey & Hnd).
    assert (Hinj : forall k', active_entries_ c !! k' = Some entry -> k' = k).
    { intros k' Hk'. destruct (H2 k' entry Hk') as (e' & d' & He' & Hd' & Hkey' & _).
      congruence. }
    assert (Hrest : map_to_list (delete k (active_entries_ c)) = rest).
    { assert (Hfirst : map_first_key (active_entries_ c) k).
      { exists entry. by rewrite Hlist. }
      pose proof (map_to_list_delete_first_key _ _ _ Hk Hfirst) as Heq.
      rewrite Hlist in Heq. by injection Heq as <-. }
    set (c1 := with_entries (delete entry (entries c))
                 (with_active_entries (delete k (active_entries_ c)) c)).
    assert (Hwf1 : WellFormed c1).
    { subst c1. unfold WellFormed. simpl. subst k.
      by apply (well_formed_deactivate _ _ _ _ entry e d). }
    assert (Hstep : (update_entry entry forget_lock ;; DeactivateEntry entry) c =
                      Some (tt, c1, [EvClose d])).
    { rewrite (bind_run _ _ _ _ _ _ (update_entry_run _ _ _ _ He)).
      rewrite (DeactivateEntry_run entry _ (forget_lock e) d).
      - subst c1. unfold put_entry, with_entries, with_active_entries. simpl.
        rewrite delete_insert_eq. by subst k.
      - apply put_entry_lookup.
      - exact Hd.
      - simpl. by subst k.
      - simpl. intros k' Hk'. subst k. by apply Hinj. }
    destruct (IH c1 Hwf1) as (E & Hrun & HE).
    { subst c1. simpl. rewrite map_size_delete, Hk, Hsize. reflexivity. }
    assert (Hfresh : entry ∉ rest.*2).
    { intros Hin. apply list_elem_of_fmap in Hin as ([k' i'] & Heq & Hin).
      simpl in Heq. subst i'. rewrite <- Hrest in Hin.
      apply elem_of_map_to_list in Hin.
      apply lookup_delete_Some in Hin as [Hne Hin]. by apply Hinj in Hin. }
    exists E. split.
    + cbn [deactivate_all]. rewrite (bind_run _ _ c c c [] eq_refl). rewrite Hlist.
      rewrite <- bind_assoc. rewrite (bind_run _ _ _ _ _ _ Hstep), Hrun.
      unfold active_list. rewrite Hlist. simpl.
      change (active_entries_ c1) with (delete k (active_entries_ c)).
      rewrite Hrest. rewrite He, Hd. simpl.
      rewrite (closes_ext c c1 (rest.*2)); [reflexivity|].
      intros i Hi. subst c1. simpl. apply lookup_delete_ne. by intros <-.
    + intros i. rewrite (HE i). unfold active_list. subst c1. simpl.
      rewrite Hrest, Hlist. simpl.
      destruct (decide (i = entry)) as [->|Hne].
      * rewrite (bool_decide_false _ Hfresh). rewrite lookup_delete_eq.
        by rewrite bool_decide_true by (apply elem_of_cons; by left).
      * rewrite lookup_delete_ne by done.
        apply (f_equal (fun b : bool => if b then None else entries c !! i)).
        apply bool_decide_ext. rewrite elem_of_cons.
        split; [by right|by intros [?|?]].
Qed.

Lemma delete_all_spec (l : list EntryId) :
  forall c,
    NoDup l ->
    (forall i, i ∈ l -> is_Some (entries c !! i)) ->
    exists E,
      delete_all l c = Some (tt, with_entries E c, closes c l)
      /\ (forall i, E !! i = if bool_decide (i ∈ l) then None else entries c !! i).
Proof.
  induction l as [|i l IH]; intros c Hnodup Hlive.
  - exists (entries c). split; [|done].
    simpl. unfold ret. by destruct c.
  - apply NoDup_cons in Hnodup as [Hi Hnodup].
    destruct (Hlive i) as [e He]; [left|].
    set (c1 := with_entries (delete i (entries c)) c).
    assert (Hstep : delete_entry i c = Some (tt, c1, closes c [i])).
    { unfold delete_entry, closes.
      rewrite (bind_run _ _ _ _ _ _ (load_entry_run _ _ _ He)).
      simpl. rewrite He.
      destruct (disk_entry e); reflexivity. }
    destruct (IH c1 Hnodup) as (E & Hrun & HE).
    { intros j Hj. subst c1. simpl. rewrite lookup_delete_ne by (by intros <-).
      apply Hlive. by right. }
    exists E. split.
    + cbn [delete_all]. rewrite (bind_run _ _ _ _ _ _ Hstep), Hrun.
      rewrite (closes_ext c c1 l).
      * unfold closes. simpl. by rewrite app_nil_r.
      * intros j Hj. subst c1. simpl. apply lookup_delete_ne. by intros <-.
    + intros j. rewrite (HE j). subst c1. simpl.
      destruct (decide (j = i)) as [->|Hne].
      * rewrite (bool_decide_false _ Hi). rewrite lookup_delete_eq.
        by rewrite bool_decide_true by (apply elem_of_cons; by left).
      * rewrite lookup_delete_ne by done.
        apply (f_equal (fun b : bool => if b then None else entries c !! j)).
        apply bool_decide_ext. rewrite elem_of_cons.
        split; [by right|by intros [?|?]].
Qed.

(** What is left of a pending operation when the cache is destroyed. *)
Definition abandoned (building : bool) (p : PendingOp) : option PendingOp :=
  if building && op_callback p
  then Some (set_op_pending_queue [] (set_op_writer None p))
  else None.

Lemma abandon_ops_spec (l : list (string * OpId)) :
  forall c,
    NoDup l.*2 ->
    (forall j, j ∈ l.*2 -> is_Some (ops c !! j)) ->
    exists O,
      abandon_ops l c = Some (tt, with_ops O c, [])
      /\ (forall j, O !! j = if bool_decide (j ∈ l.*2)
                             then ops c !! j ≫= abandoned (building_backend_ c)
                             else ops c !! j).
Proof.
  induction l as [|[k j0] l IH]; intros c Hnodup Hlive.
  - exists (ops c). split; [|done].
    simpl. unfold ret. by destruct c.
  - simpl in Hnodup. apply NoDup_cons in Hnodup as [Hj0 Hnodup].
    destruct (Hlive j0) as [p Hp]; [left|].
    set (O1 := match abandoned (building_backend_ c) p with
               | Some p' => <[j0 := p']> (ops c)
               | None => delete j0 (ops c)
               end).
    assert (Hstep : abandon_op j0 c = Some (tt, with_ops O1 c, [])).
    { unfold abandon_op, abandoned in *.
      rewrite (bind_run _ _ _ _ _ _ (load_op_run _ _ _ Hp)).
      rewrite (bind_run _ _ c c c [] eq_refl).
      subst O1. unfold abandoned.
      destruct (building_backend_ c && op_callback p); reflexivity. }
    assert (Hothers : forall j, j <> j0 -> O1 !! j = ops c !! j).
    { intros j Hne. subst O1.
      destruct (abandoned _ p);
        [by rewrite lookup_insert_ne|by rewrite lookup_delete_ne]. }
    assert (Hj0' : O1 !! j0 = abandoned (building_backend_ c) p).
    { subst O1. destruct (abandoned _ p);
        [by rewrite lookup_insert_eq|by rewrite lookup_delete_eq]. }
    destruct (IH (with_ops O1 c) Hnodup) as (O & Hrun & HO).
    { intros j Hj. simpl. rewrite Hothers by (by intros ->).
      apply Hlive. by right. }
    exists O. split.
    + cbn [abandon_ops]. by rewrite (bind_run _ _ _ _ _ _ Hstep), Hrun.
    + intros j. rewrite (HO j). simpl.
      destruct (decide (j = j0)) as [->|Hne].
      * rewrite (bool_decide_false _ Hj0). rewrite Hj0', Hp.
        by rewrite bool_decide_true by (apply elem_of_cons; by left).
      * rewrite Hothers by done.
        apply (f_equal (fun b : bool =>
                 if b then ops c !! j ≫= abandoned (building_backend_ c)
                 else ops c !! j)).
        apply bool_decide_ext. rewrite elem_of_cons.
        split; [by right|by intros [?|?]].
Qed.

(** X21.  The destructor closes every entry once and calls nobody back.
    On a well-formed cache whose registry of pending operations holds no
    dangling pointer and no operation twice, [~HttpCache] runs to its end:
    the loop over the active entries stops with the table empty; the disk
    entry of every active entry and of every doomed entry is closed, once,
    and these are the only calls the destructor makes, so that no waiting
    transaction is notified; the entries are deleted; and a pending
    operation is deleted unless the backend is being built and a callback
    is bound to it, in which case it stays, without lead and queue, until
    that callback, now cancelled, runs and deletes it. *)
Theorem destroy_HttpCache_closes_everything (c : HttpCache) :
  WellFormed c ->
  (forall k j, pending_ops_ c !! k = Some j -> is_Some (ops c !! j)) ->
  (forall k1 k2 j,
     pending_ops_ c !! k1 = Some j -> pending_ops_ c !! k2 = Some j -> k1 = k2) ->
  exists c',
    destroy_HttpCache c =
      Some (true, c', closes c (active_list c) ++ closes c (doomed_entries_ c))
    /\ active_entries_ c' = ∅ /\ doomed_entries_ c' = [] /\ pending_ops_ c' = ∅
    /\ (forall i,
          entries c' !! i =
            if bool_decide (i ∈ active_list c \/ i ∈ doomed_entries_ c) then None
            else entries c !! i)
    /\ (forall k j p,
          pending_ops_ c !! k = Some j -> ops c !! j = Some p ->
          ops c' !! j = abandoned (building_backend_ c) p)
    /\ (forall k j p,
          pending_ops_ c !! k = Some j -> ops c !! j = Some p ->
          building_backend_ c && op_callback p = true ->
          BackendCallback_Run_cancelled j c' =
            Some (tt, with_ops (delete j (ops c')) c', []))
    /\ (forall j,
          (forall k, pending_ops_ c !! k <> Some j) -> ops c' !! j = ops c !! j).
Proof.
  intros Hwf Hlive Hinj.
  destruct (deactivate_all_spec _ c Hwf eq_refl) as (E1 & Hloop & HE1).
  pose proof Hwf as (H1 & H2 & H3 & H4).
  set (c1 := with_active_entries ∅ (with_entries E1 c)) in *.
  assert (Hapart : forall i, i ∈ doomed_entries_ c -> i ∉ active_list c).
  { intros i Hi Hin. destruct (H3 i Hi) as (e & He & Hd).
    apply list_elem_of_fmap in Hin as ([k i'] & Heq & Hin). simpl in Heq. subst i'.
    apply elem_of_map_to_list in Hin.
    destruct (H2 k i Hin) as (e' & d & He' & _ & _ & Hnd). congruence. }
  destruct (delete_all_spec (doomed_entries_ c) c1) as (E2 & Hdoomed & HE2).
  { by apply ascending_NoDup. }
  { intros i Hi. subst c1. simpl. rewrite HE1.
    rewrite bool_decide_false by (by apply Hapart).
    destruct (H3 i Hi) as (e & -> & _). by eexists. }
  set (c2 := with_doomed_entries [] (with_entries E2 c1)).
  destruct (abandon_ops_spec (map_to_list (pending_ops_ c)) c2) as (O & Hops & HO).
  { apply NoDup_fmap_2_strong; [|apply NoDup_map_to_list].
    intros [k1 j1] [k2 j2] Hin1%elem_of_map_to_list Hin2%elem_of_map_to_list Heq.
    simpl in Heq. subst j2. f_equal. by apply (Hinj k1 k2 j1). }
  { intros j Hj. apply list_elem_of_fmap in Hj as ([k j'] & Heq & Hin).
    simpl in Heq. subst j'. apply elem_of_map_to_list in Hin.
    by apply (Hlive k j). }
  exists (with_pending_ops ∅ (with_ops O c2)).
  split; [|split; [done|split; [done|split; [done|split; [|split; [|split]]]]]].
  - unfold destroy_HttpCache.
    rewrite (bind_run _ _ c c c [] eq_refl).
    rewrite (bind_run _ _ _ _ _ _ Hloop).
    rewrite (bind_run _ _ c1 c1 c1 [] eq_refl).
    change (doomed_entries_ c1) with (doomed_entries_ c).
    rewrite (bind_run _ _ _ _ _ _ Hdoomed).
    rewrite (bind_run _ _ _ c2 tt [] eq_refl).
    rewrite (bind_run _ _ c2 c2 c2 [] eq_refl).
    change (pending_ops_ c2) with (pending_ops_ c).
    rewrite (bind_run _ _ _ _ _ _ Hops).
    rewrite (bind_run _ _ _ (with_pending_ops ∅ (with_ops O c2)) tt [] eq_refl).
    unfold ret. simpl. rewrite !app_nil_r.
    rewrite (closes_ext c c1 (doomed_entries_ c)); [reflexivity|].
    intros i Hi. subst c1. simpl. rewrite HE1.
    by rewrite bool_decide_false by (by apply Hapart).
  - intros i. simpl. rewrite HE2. subst c1. simpl. rewrite HE1.
    repeat case_bool_decide; try done; tauto.
  - intros k j p Hk Hp. simpl. rewrite HO. simpl.
    rewrite bool_decide_true.
    + by rewrite Hp.
    + apply list_elem_of_fmap. exists (k, j). split; [done|].
      by apply elem_of_map_to_list.
  - intros k j p Hk Hp Hkept.
    assert (Hkeep : ops (with_pending_ops ∅ (with_ops O c2)) !! j =
                    Some (set_op_pending_queue [] (set_op_writer None p))).
    { simpl. rewrite HO. simpl. rewrite bool_decide_true.
      - rewrite Hp. simpl. unfold abandoned. by rewrite Hkept.
      - apply list_elem_of_fmap. exists (k, j). split; [done|].
        by apply elem_of_map_to_list. }
    unfold BackendCallback_Run_cancelled.
    by rewrite (bind_run _ _ _ _ _ _ (load_op_run _ _ _ Hkeep)).
  - intros j Hj. simpl. rewrite HO. simpl.
    rewrite bool_decide_false; [done|].
    intros Hin. apply list_elem_of_fmap in Hin as ([k j'] & Heq & Hin).
    simpl in Heq. subst j'. apply elem_of_map_to_list in Hin. by apply (Hj k).
Qed.

(** The first entry of [k] was doomed while 3 reads it, the entry opened
    after it is read by 5, and the backend has not yet answered the
    OPEN_ENTRY of 7 for [j]. *)
Definition dying_calls : list Call :=
  [CallGetBackend 5%nat 6%nat OK (Some 1%nat);
   CallOpenEntry "k" 20%nat 3%nat OK (Some sample_disk);
   CallAddTransactionToEntry 0%nat 3%nat;
   CallDoomEntry "k" 9%nat OK;
   CallOpenEntry "k" 21%nat 5%nat OK (Some (mkDiskEntry 2 "k"));
   CallAddTransactionToEntry 1%nat 5%nat;
   CallOpenEntry "j" 22%nat 7%nat ERR_IO_PENDING None].

Definition dying_cache : HttpCache :=
  mkHttpCache (Some 1%nat) false false NORMAL None
    {[ "k" := 1%nat ]} [0%nat] {[ "j" := 3%nat ]}
    (<[ 1%nat := mkActiveEntry (Some (mkDiskEntry 2 "k")) None [5]%nat [] false false ]>
       {[ 0%nat := mkActiveEntry (Some sample_disk) None [3]%nat [] false true ]})
    {[ 3%nat := mkPendingOp None None
                  (Some (mkWorkItem WI_OPEN_ENTRY (Some 7%nat) (Some 22%nat) None None))
                  true [] ]}
    2%nat 4%nat [].

Lemma dying_cache_reachable :
  reachable sample_mode sample_key sample_flag (scripted restart 2) sample_spec
            dying_cache.
Proof.
  eapply (reachable_run_calls _ _ _ _ _ dying_calls (new_HttpCache true));
    [apply reachable_new|].
  vm_compute. reflexivity.
Qed.

Lemma dying_cache_well_formed : WellFormed dying_cache.
Proof.
  exact (reachable_WellFormed sample_mode sample_key sample_flag (scripted restart 2)
           sample_spec (scripted_well_formed restart 2) dying_cache
           dying_cache_reachable).
Qed.

Lemma destroy_HttpCache_closes_everything_witness :
  exists c',
    destroy_HttpCache dying_cache =
      Some (true, c', [EvClose (mkDiskEntry 2 "k"); EvClose sample_disk])
    /\ entries c' !! 0%nat = None /\ entries c' !! 1%nat = None
    /\ ops c' !! 3%nat = None.
Proof.
  destruct (destroy_HttpCache_closes_everything dying_cache dying_cache_well_formed)
    as (c' & Hrun & _ & _ & _ & Hentries & Hops & _ & _).
  - intros k j Hk. simpl in Hk.
    apply lookup_singleton_Some in Hk as [_ <-]. by eexists.
  - intros k1 k2 j Hk1 Hk2. simpl in Hk1, Hk2.
    apply lookup_singleton_Some in Hk1 as [<- _].
    apply lookup_singleton_Some in Hk2 as [<- _]. reflexivity.
  - exists c'. split; [exact Hrun|].
    split; [by rewrite Hentries|]. split; [by rewrite Hentries|].
    exact (Hops "j" 3%nat _ eq_refl eq_refl).
Defined.
